(** * Real-time connection, notification and conversation engine

    A shallow embedding of
    - [src/lib/queue/queue.gateway.ts] (class [QueueGateway]): the
      handshake, the per-user connection registry and the notification
      fan-out;
    - the conversation service (class [ConversationService]): paginated
      queries and the conversation mutations.

    Identifiers are the strings the code uses.  A [Map] keyed by user id
    is a [gmap string _], a [Set<Socket>] is the [gset] of the sockets'
    ids, a table of the store is a [gmap] from the primary key to the row.
    Walking a map or a set follows [map_to_list] and [elements], not the
    insertion order of the JavaScript objects.
    Asynchronous methods are run to completion one at a time: a method is
    a function from the state before the call to its outcome and the state
    after it, and what it sends or asks of its collaborators is appended to
    a log in program order. *)

From stdpp Require Import gmap strings list fin_maps sorting pretty.
From Stdlib Require Import ZArith Lia Ascii String.

Local Open Scope string_scope.
Local Open Scope list_scope.
Local Open Scope Z_scope.

(** ** The connection registry of the queue gateway *)

Module Registry.

(** [private readonly clients = new Map<string, Set<Socket>>()] *)
Abbreviation clients_map := (gmap string (gset string)).

(** [getClients]: [this.clients.get(userId) || new Set()]. *)
Definition getClients (clients : clients_map) (userId : string) : gset string :=
  match clients !! userId with
  | Some set => set
  | None => ∅
  end.

(** [subscribeClient]: the set found under [userId] (or a new one) gets
    the client added and is stored back under [userId]. *)
Definition subscribeClient (clients : clients_map) (userId client : string)
  : clients_map :=
  let set := match clients !! userId with Some set => set | None => ∅ end in
  let set := {[client]} ∪ set in
  <[userId := set]> clients.

(** [unsubscribeClient]: nothing to do without a set; otherwise the
    client is deleted from the set (the very object the map holds) and
    the key goes when [set.size === 0]. *)
Definition unsubscribeClient (clients : clients_map) (userId client : string)
  : clients_map :=
  match clients !! userId with
  | None => clients
  | Some set =>
      let set := set ∖ {[client]} in
      if decide (size set = 0%nat) then delete userId clients
      else <[userId := set]> clients
  end.

(** Every key of the map holds a set with a connection in it. *)
Definition registry_inv (clients : clients_map) : Prop :=
  map_Forall (λ _ set, set ≠ ∅) clients.

#[global] Instance registry_inv_dec clients : Decision (registry_inv clients).
Proof. unfold registry_inv. apply _. Defined.

End Registry.


(** ** JavaScript values the code relies on *)

Module Js.

(** [!s] for a value that is a string, [undefined] or [null]: absent and
    the empty string are falsy. *)
Definition truthy (v : option string) : option string :=
  match v with
  | Some "" => None
  | other => other
  end.

(** [a || b] on such values. *)
Definition or_else (a b : option string) : option string :=
  match truthy a with
  | Some s => Some s
  | None => b
  end.

(** [s.startsWith(p)] *)
Fixpoint startsWith (p s : string) : bool :=
  match p, s with
  | EmptyString, _ => true
  | String a p', String b s' => if Ascii.eqb a b then startsWith p' s' else false
  | String _ _, EmptyString => false
  end.

(** [s.split(sep)] for a separator of one character: [go] carries the
    piece being read, reversed. *)
Fixpoint split_go (sep : ascii) (piece : string) (s : string) : list string :=
  match s with
  | EmptyString => [String.rev piece]
  | String c s' =>
      if Ascii.eqb c sep then String.rev piece :: split_go sep EmptyString s'
      else split_go sep (String c piece) s'
  end.

Definition split (sep : ascii) (s : string) : list string :=
  split_go sep EmptyString s.

(** [s.toLowerCase()] on ASCII letters. *)
Definition lower_ascii (c : ascii) : ascii :=
  let n := nat_of_ascii c in
  if (Nat.leb 65 n && Nat.leb n 90)%bool then ascii_of_nat (n + 32) else c.

Fixpoint toLowerCase (s : string) : string :=
  match s with
  | EmptyString => EmptyString
  | String c s' => String (lower_ascii c) (toLowerCase s')
  end.

(** [hay.includes(needle)] *)
Fixpoint includes (needle hay : string) : bool :=
  startsWith needle hay ||
  match hay with
  | EmptyString => false
  | String _ hay' => includes needle hay'
  end.

(** What [Math.ceil(a / b)] can be for integers [a >= 0] and [b]: an
    integer, or [Infinity] / [NaN] when [b] is 0. *)
Inductive number := Finite (z : Z) | Infinity | NaN.

(** [Math.ceil(total / limit)] for a count [total >= 0] and an integer
    [limit] (both far below 2^53, where the division is exact enough
    for the ceiling to be the integer one). *)
Definition Math_ceil_div (total limit : Z) : number :=
  if limit =? 0 then (if total =? 0 then NaN else Infinity)
  else Finite (- ((- total) / limit)).

End Js.

(** ** The persistent store behind [PrismaService]

    The Prisma schema is not part of the sources: a table is the finite
    map from the primary key [id] to the row's other columns, a relation
    the code includes is looked up through its foreign key, and a column
    default is read from the store ([defaultStatus], [now]). *)

Module Store.

Inductive ConversationStatus := ACTIVE | ARCHIVED | BLOCKED.

#[global] Instance ConversationStatus_eq_dec : EqDecision ConversationStatus.
Proof. solve_decision. Defined.

Record User := {
  user_name : string;
  user_email : string;
  user_role : string;
  user_profilePictureId : option string
}.

Record PrivateConversation := {
  initiatorId : string;
  receiverId : string;
  status : ConversationStatus;
  lastMessageId : option string;
  createdAt : Z;
  updatedAt : Z
}.

(** One row of a message's per-recipient statuses. *)
Record MessageStatus := {
  ms_userId : string;
  ms_status : string
}.

Record PrivateMessage := {
  conversationId : string;
  senderId : string;
  content : string;
  fileId : option string;
  msg_createdAt : Z;
  statuses : list MessageStatus
}.

Record Notification := {
  n_type : string;
  n_title : string;
  n_message : string;
  n_meta : list (string * string);
  n_users : list string
}.

(** [fault] is the error every query rejects with while the store is
    not available. *)
Record Db := {
  users : gmap string User;
  conversations : gmap string PrivateConversation;
  messages : gmap string PrivateMessage;
  notifications : gmap string Notification;
  defaultStatus : ConversationStatus;
  now : Z;
  fault : option string
}.

Definition set_conversations (f : gmap string PrivateConversation → gmap string PrivateConversation)
  (d : Db) : Db :=
  {| users := users d; conversations := f (conversations d);
     messages := messages d; notifications := notifications d;
     defaultStatus := defaultStatus d; now := now d; fault := fault d |}.

Definition set_notifications (f : gmap string Notification → gmap string Notification)
  (d : Db) : Db :=
  {| users := users d; conversations := conversations d;
     messages := messages d; notifications := f (notifications d);
     defaultStatus := defaultStatus d; now := now d; fault := fault d |}.

(** [data: { status }]: the columns the update does not name are kept.
    Whether an update stamps [updatedAt] by itself is decided by the
    schema, which is not part of the sources. *)
Definition set_status (s : ConversationStatus) (c : PrivateConversation)
  : PrivateConversation :=
  {| initiatorId := initiatorId c; receiverId := receiverId c; status := s;
     lastMessageId := lastMessageId c; createdAt := createdAt c;
     updatedAt := updatedAt c |}.

(** *** Query primitives *)

(** [findMany({ where })] without an order: the rows in the table's own
    order. *)
Definition findMany {V} (where_ : string * V → bool) (table : gmap string V)
  : list (string * V) :=
  filter (λ r, where_ r = true) (map_to_list table).

(** [findFirst({ where })] *)
Definition findFirst {V} (where_ : string * V → bool) (table : gmap string V)
  : option (string * V) :=
  head (findMany where_ table).

(** [orderBy: { <column>: 'desc' }] on an integer column: a stable
    sort, rows with equal keys keep the table's order. *)
Definition desc {A} (column : A → Z) (a b : A) : Prop := column b ≤ column a.

#[global] Instance desc_dec {A} (column : A → Z) : RelDecision (desc column).
Proof. intros a b. unfold desc. apply _. Defined.

Definition orderByDesc {A} (column : A → Z) (rows : list A) : list A :=
  merge_sort (desc column) rows.

(** [skip] / [take] of [findMany].  Prisma rejects a negative [skip];
    a negative [take] counts from the end of the list. *)
Definition skipTake {A} (skip take : Z) (rows : list A) : option (list A) :=
  if skip <? 0 then None
  else if take <? 0 then
    Some (reverse (firstn (Z.to_nat (- take)) (skipn (Z.to_nat skip) (reverse rows))))
  else Some (firstn (Z.to_nat take) (skipn (Z.to_nat skip) rows)).

End Store.

(** ** Events and payloads on the wire *)

Module Wire.
Import Store.

(** The members of [EventsEnum] the two classes use. *)
Definition EventsEnum_ERROR : string := "error".
Definition EventsEnum_SUCCESS : string := "success".
Definition EventsEnum_CONVERSATION_LIST_RESPONSE : string :=
  "private:conversation_list_response".
Definition EventsEnum_CONVERSATION_RESPONSE : string :=
  "private:conversation_response".
Definition EventsEnum_CONVERSATION_UPDATE : string :=
  "private:conversation_update".

(** [JWTPayload]: what the credential verifier decodes. *)
Record JWTPayload := {
  sub : option string;
  jwt_email : string;
  jwt_role : string
}.

(** [select: { id, email, role, name }] of the handshake. *)
Record AuthUser := {
  au_id : string;
  au_email : string;
  au_role : string;
  au_name : string
}.

(** [select: { id, name, email, profilePictureId }] of a participant. *)
Record Participant := {
  p_id : string;
  p_name : string;
  p_email : string;
  p_profilePictureId : option string
}.

(** [select: { id, name }] of a sender, with [profilePictureId] where
    the query selects it. *)
Record Sender := {
  sd_id : string;
  sd_name : string;
  sd_profilePictureId : option (option string)
}.

(** A message as the queries include it: its columns, the sender and
    the status rows the include keeps (absent where the query does not
    include them). *)
Record MessageView := {
  mv_id : string;
  mv_message : PrivateMessage;
  mv_sender : option Sender;
  mv_statuses : option (list MessageStatus)
}.

(** An element of [transformedConversations]. *)
Record ConversationSummary := {
  cs_id : string;
  cs_participant : option Participant;
  cs_lastMessage : option MessageView;
  cs_unreadCount : nat;
  cs_status : ConversationStatus;
  cs_createdAt : Z;
  cs_updatedAt : Z
}.

(** [result] of [initiateConversationWithUser]. *)
Record InitiateResult := {
  ir_id : string;
  ir_participant : option Participant;
  ir_lastMessage : option MessageView;
  ir_status : ConversationStatus;
  ir_createdAt : Z;
  ir_updatedAt : Z
}.

(** [{ id, participant, status, createdAt, updatedAt }] *)
Record ConversationInfo := {
  ci_id : string;
  ci_participant : option Participant;
  ci_status : ConversationStatus;
  ci_createdAt : Z;
  ci_updatedAt : Z
}.

Record Pagination := {
  pg_page : Z;
  pg_limit : Z;
  pg_total : Z;
  pg_totalPages : Js.number
}.

(** The [data] of a success envelope. *)
Inductive Data :=
| DUser (user : AuthUser)
| DConversations (conversations : list ConversationSummary) (pagination : Pagination)
| DConversation (conversation : ConversationInfo) (messages : list MessageView)
    (pagination : Pagination)
| DInitiated (result : InitiateResult)
| DInfo (conversation : ConversationInfo)
| DSuccessTrue
| DAction (conversationId action : string).

(** Modelled from the spec: [successResponse] and [errorResponse] of
    [common/utils/response.util], which is not part of the sources,
    build the uniform envelope [{ success, data?, message? }]. *)
Inductive TResponse :=
| successResponse (data : Data)
| errorResponse (message : string).

(** [NotificationPayload] of [interface/queue.payload]. *)
Record NotificationPayload := {
  np_type : string;
  np_title : string;
  np_message : string;
  np_meta : option (list (string * string))
}.

Inductive Payload :=
| Envelope (response : TResponse)
| NotificationEvent (data : NotificationPayload) (notificationId : string).

(** What a method does to the world outside its own state, in program
    order. *)
Inductive Effect :=
| Prisma (model action : string)
| Emit (socket event : string) (payload : Payload)
| Join (socket room : string)
| Leave (socket room : string)
| Disconnect (socket : string)
| EmitToUserFirstSocket (userId event : string) (payload : Payload).

(** A [Socket] as the handlers read and write it. *)
Record Socket := {
  id : string;
  handshake_headers_authorization : option string;
  handshake_auth_token : option string;
  data_userId : option string;
  data_user : option JWTPayload
}.

End Wire.

(** ** Methods as state transformers that may throw *)

Module Run.
Import Store Wire.

Inductive outcome (A : Type) :=
| Ok (a : A)
| Throw (message : string).
Arguments Ok {A} a.
Arguments Throw {A} message.

Record World := {
  db : Db;
  clients : Registry.clients_map;
  log : list Effect
}.

Definition M (A : Type) : Type := World → outcome A * World.

Definition ret {A} (a : A) : M A := λ w, (Ok a, w).

Definition bind {A B} (m : M A) (k : A → M B) : M B :=
  λ w, match m w with
       | (Ok a, w') => k a w'
       | (Throw e, w') => (Throw e, w')
       end.

Definition throw {A} (message : string) : M A := λ w, (Throw message, w).

(** [try { body } catch (err) { handler(err?.message ?? fallback) }]: an
    error always carries its message here, so the fallback text of the
    handlers is never used. *)
Definition try_catch {A} (body : M A) (handler : string → M A) : M A :=
  λ w, match body w with
       | (Ok a, w') => (Ok a, w')
       | (Throw e, w') => handler e w'
       end.

Definition add_log (es : list Effect) (w : World) : World :=
  {| db := db w; clients := clients w; log := log w ++ es |}.

Definition tell (e : Effect) : M unit := λ w, (Ok tt, add_log [e] w).

Definition getClientsMap : M Registry.clients_map := λ w, (Ok (clients w), w).

Definition putClientsMap (c : Registry.clients_map) : M unit :=
  λ w, (Ok tt, {| db := db w; clients := c; log := log w |}).

(** One call of the Prisma client: it is logged, rejects with the
    store's fault if there is one, and otherwise reads or changes the
    tables. *)
Definition prisma {A} (model action : string) (query : Db → outcome A * Db) : M A :=
  λ w,
    let l := log w ++ [Prisma model action] in
    match fault (db w) with
    | Some e => (Throw e, {| db := db w; clients := clients w; log := l |})
    | None =>
        let '(r, d) := query (db w) in
        (r, {| db := d; clients := clients w; log := l |})
    end.

Definition read {A} (q : Db → A) : Db → outcome A * Db := λ d, (Ok (q d), d).

(** [await Promise.all([a, b])]: both are started, the first rejection
    wins. *)
Definition promise_all {A B} (a : M A) (b : M B) : M (A * B) :=
  λ w, match a w with
       | (ra, w1) =>
           match b w1 with
           | (rb, w2) =>
               match ra, rb with
               | Ok x, Ok y => (Ok (x, y), w2)
               | Throw e, _ => (Throw e, w2)
               | Ok _, Throw e => (Throw e, w2)
               end
           end
       end.

(** [xs.forEach(f)] *)
Fixpoint forEach {A} (xs : list A) (f : A → M unit) : M unit :=
  match xs with
  | [] => ret tt
  | x :: xs' => bind (f x) (λ _, forEach xs' f)
  end.

(** The monad's [≫=] and [mret], for the notations [x ← m; k] and
    [m;; k]. *)
#[global] Instance M_ret : MRet M := @ret.
#[global] Instance M_bind : MBind M := λ A B k m, bind m k.

End Run.

(** ** [QueueGateway] *)

Module QueueGateway.
Import Store Wire Run Registry.

(** [extractToken] *)
Definition extractToken (client : Socket) : option string :=
  let auth := Js.or_else (handshake_headers_authorization client)
                         (handshake_auth_token client) in
  match Js.truthy auth with
  | None => None
  | Some auth =>
      if Js.startsWith "Bearer " auth
      then nth_error (Js.split " "%char auth) 1
      else Some auth
  end.

(** [emitError]: the envelope goes to the room of the client's own id
    and is returned. *)
Definition emitError (client : Socket) (message : string) : M TResponse :=
  tell (Emit (id client) EventsEnum_ERROR (Envelope (errorResponse message)));;
  mret (errorResponse message).

(** [disconnectWithError] *)
Definition disconnectWithError (client : Socket) (message : string) : M unit :=
  emitError client message;;
  tell (Disconnect (id client)).

Definition set_data (userId : string) (user : JWTPayload) (client : Socket) : Socket :=
  {| id := id client;
     handshake_headers_authorization := handshake_headers_authorization client;
     handshake_auth_token := handshake_auth_token client;
     data_userId := Some userId;
     data_user := Some user |}.

Definition select_auth_user (userId : string) (u : User) : AuthUser :=
  {| au_id := userId; au_email := user_email u; au_role := user_role u;
     au_name := user_name u |}.

Section Handshake.

(** [JwtService.verify(token, { secret })]: the decoded payload, or
    the error it throws on a bad signature or an expired token. *)
Variable jwtService_verify : string → string → outcome JWTPayload.

(** [configService.getOrThrow(ENVEnum.JWT_SECRET)] *)
Variable jwt_secret : outcome string.

Definition lift {A} (r : outcome A) : M A := λ w, (r, w).

(** [handleConnection]: the result is the client with the session
    data the method has written to it. *)
Definition handleConnection (client : Socket) : M Socket :=
  try_catch
    (match Js.truthy (extractToken client) with
     | None => disconnectWithError client "Missing token";; mret client
     | Some token =>
         secret ← lift jwt_secret;
         payload ← lift (jwtService_verify token secret);
         match Js.truthy (sub payload) with
         | None => disconnectWithError client "Invalid token";; mret client
         | Some payload_sub =>
             user ← prisma "user" "findUnique"
                      (read (λ d, select_auth_user payload_sub <$> users d !! payload_sub));
             match user with
             | None => disconnectWithError client "User not found";; mret client
             | Some user =>
                 let client := set_data (au_id user) payload client in
                 tell (Join (id client) (au_id user));;
                 c ← getClientsMap;
                 putClientsMap (subscribeClient c (au_id user) (id client));;
                 tell (Emit (id client) EventsEnum_SUCCESS
                         (Envelope (successResponse (DUser user))));;
                 mret client
             end
         end
     end)
    (λ err_message, disconnectWithError client err_message;; mret client).

End Handshake.

(** [handleDisconnect] *)
Definition handleDisconnect (client : Socket) : M unit :=
  match Js.truthy (data_userId client) with
  | Some userId =>
      c ← getClientsMap;
      putClientsMap (unsubscribeClient c userId (id client));;
      tell (Leave (id client) userId)
  | None => mret tt
  end.

Definition notification_row (data : NotificationPayload) (userIds : list string)
  : Notification :=
  {| n_type := np_type data; n_title := np_title data;
     n_message := np_message data;
     n_meta := match np_meta data with Some meta => meta | None => [] end;
     n_users := userIds |}.

(** [prisma.client.notification.create]: one row with a new id and its
    recipients; the created row's id is the result. *)
Definition notification_create (data : NotificationPayload) (userIds : list string)
  : M string :=
  prisma "notification" "create"
    (λ d, let nid := fresh (dom (notifications d)) in
          (Ok nid, set_notifications (insert nid (notification_row data userIds)) d)).

(** [notifySingleUser] *)
Definition notifySingleUser (userId event : string) (data : NotificationPayload)
  : M unit :=
  c ← getClientsMap;
  let clients := getClients c userId in
  notification_id ← notification_create data [userId];
  let payload := NotificationEvent data notification_id in
  forEach (elements clients) (λ client, tell (Emit client event payload)).

(** [notifyAllUsers] *)
Definition notifyAllUsers (event : string) (data : NotificationPayload) : M unit :=
  c ← getClientsMap;
  let userIds := (map_to_list c).*1 in
  if bool_decide (List.length userIds = 0%nat) then mret tt
  else
    notification_id ← notification_create data userIds;
    let payload := NotificationEvent data notification_id in
    c ← getClientsMap;
    forEach (map_to_list c) (λ entry,
      forEach (elements entry.2) (λ client, tell (Emit client event payload))).

End QueueGateway.

(** ** [ConversationService] *)

Module ConversationService.
Import Store Wire Run.

Record LoadConversationsDto := {
  lc_page : option Z;
  lc_limit : option Z;
  lc_search : option string
}.

Record LoadSingleConversationDto := {
  ls_conversationId : string;
  ls_page : option Z;
  ls_limit : option Z
}.

Record InitConversationWithUserDto := { iu_userId : string }.

Record ConversationActionDto := { ca_conversationId : string }.

(** Modelled from the spec: [ChatGateway.emitError] ([chat.gateway] is
    not part of the sources) turns a failure into an error envelope
    emitted to the originating connection, and returns the envelope, as
    [QueueGateway.emitError] does. *)
Definition chatGateway_emitError (client : Socket) (message : string) : M TResponse :=
  QueueGateway.emitError client message.

(** [ChatGateway.emitToUserFirstSocket] is not part of the sources
    either: the call is logged with its arguments. *)
Definition chatGateway_emitToUserFirstSocket (userId event : string)
  (payload : TResponse) : M unit :=
  tell (EmitToUserFirstSocket userId event (Envelope payload)).

(** The messages of the errors the client library and the runtime
    raise by themselves. *)
Definition prisma_invalid_skip : string := "Invalid value for skip argument".
Definition prisma_record_not_found : string := "Record not found".
Definition type_error_null_id : string :=
  "Cannot read properties of null (reading 'id')".

(** *** Where clauses *)

(** [OR: [{ initiatorId: userId }, { receiverId: userId }]] *)
Definition is_participant (userId : string) (r : string * PrivateConversation) : bool :=
  bool_decide (initiatorId r.2 = userId) || bool_decide (receiverId r.2 = userId).

(** [{ contains: search, mode: 'insensitive' }], read as the occurrence
    of the text with ASCII letter case ignored.  The operator of the
    database agrees with this reading on plain text: a search made of
    letters, digits and spaces in ASCII fields (it takes its own
    wildcard characters in the search as wildcards, and folds letters
    outside ASCII by its collation). *)
Definition contains_insensitive (search s : string) : bool :=
  Js.includes (Js.toLowerCase search) (Js.toLowerCase s).

Definition search_where (d : Db) (search : string) (r : string * PrivateConversation)
  : bool :=
  match users d !! initiatorId r.2 with
  | Some u => contains_insensitive search (user_name u)
  | None => false
  end
  || match users d !! receiverId r.2 with
     | Some u => contains_insensitive search (user_name u)
     | None => false
     end
  || match lastMessageId r.2 ≫= (λ k, messages d !! k) with
     | Some m => contains_insensitive search (content m)
     | None => false
     end.

(** [whereClause] of [loadConversations]: the participant filter, and
    the search filter under [AND] when [search] is truthy. *)
Definition whereClause (d : Db) (userId : string) (search : option string)
  (r : string * PrivateConversation) : bool :=
  is_participant userId r &&
  match Js.truthy search with
  | Some search => search_where d search r
  | None => true
  end.

(** [{ id: conversationId, OR: [{ initiatorId: userId }, { receiverId: userId }] }] *)
Definition member_where (conversationId userId : string)
  (r : string * PrivateConversation) : bool :=
  bool_decide (r.1 = conversationId) && is_participant userId r.

(** The bidirectional clause of [initiateConversationWithUser]. *)
Definition pair_where (initiatorId_ targetUserId : string)
  (r : string * PrivateConversation) : bool :=
  (bool_decide (initiatorId r.2 = initiatorId_) &&
   bool_decide (receiverId r.2 = targetUserId))
  || (bool_decide (initiatorId r.2 = targetUserId) &&
      bool_decide (receiverId r.2 = initiatorId_)).

(** The [messages] relation of [loadConversations]:
    [{ senderId: { not: userId },
       statuses: { some: { userId, status: { not: 'READ' } } } }] *)
Definition unread_status (userId : string) (s : MessageStatus) : bool :=
  bool_decide (ms_userId s = userId) && negb (bool_decide (ms_status s = "READ")).

Definition unread_where (userId : string) (m : PrivateMessage) : bool :=
  negb (bool_decide (senderId m = userId)) &&
  existsb (unread_status userId) (statuses m).

(** *** Includes *)

Definition include_user (d : Db) (userId : string) : option Participant :=
  (λ u, {| p_id := userId; p_name := user_name u; p_email := user_email u;
           p_profilePictureId := user_profilePictureId u |}) <$> users d !! userId.

Definition include_sender (d : Db) (with_picture : bool) (userId : string)
  : option Sender :=
  (λ u, {| sd_id := userId; sd_name := user_name u;
           sd_profilePictureId :=
             if with_picture then Some (user_profilePictureId u) else None |})
    <$> users d !! userId.

(** A message with its sender and, when [for_user] is given,
    [statuses: { where: { userId } }]. *)
Definition include_message (d : Db) (with_picture : bool) (for_user : option string)
  (r : string * PrivateMessage) : MessageView :=
  {| mv_id := r.1; mv_message := r.2;
     mv_sender := include_sender d with_picture (senderId r.2);
     mv_statuses :=
       (λ userId, filter (λ s, ms_userId s = userId) (statuses r.2)) <$> for_user |}.

Definition include_lastMessage (d : Db) (for_user : option string)
  (c : PrivateConversation) : option MessageView :=
  k ← lastMessageId c;
  m ← messages d !! k;
  Some (include_message d false for_user (k, m)).

(** A conversation row with the relations a query includes. *)
Record Included := {
  inc_id : string;
  inc_row : PrivateConversation;
  inc_initiator : option Participant;
  inc_receiver : option Participant;
  inc_lastMessage : option MessageView;
  inc_messages : list string
}.

(** The includes of [loadConversations]. *)
Definition include_list (d : Db) (userId : string) (r : string * PrivateConversation)
  : Included :=
  {| inc_id := r.1; inc_row := r.2;
     inc_initiator := include_user d (initiatorId r.2);
     inc_receiver := include_user d (receiverId r.2);
     inc_lastMessage := include_lastMessage d (Some userId) r.2;
     inc_messages :=
       (findMany (λ m, bool_decide (conversationId m.2 = r.1) && unread_where userId m.2)
          (messages d)).*1 |}.

(** The includes of [loadSingleConversation] and of the status update:
    the two participants. *)
Definition include_participants (d : Db) (r : string * PrivateConversation) : Included :=
  {| inc_id := r.1; inc_row := r.2;
     inc_initiator := include_user d (initiatorId r.2);
     inc_receiver := include_user d (receiverId r.2);
     inc_lastMessage := None;
     inc_messages := [] |}.

(** The includes of [initiateConversationWithUser]. *)
Definition include_initiate (d : Db) (r : string * PrivateConversation) : Included :=
  {| inc_id := r.1; inc_row := r.2;
     inc_initiator := include_user d (initiatorId r.2);
     inc_receiver := include_user d (receiverId r.2);
     inc_lastMessage := include_lastMessage d None r.2;
     inc_messages := [] |}.

(** [conv.initiatorId === userId ? conv.receiver : conv.initiator] *)
Definition otherParticipant (userId : string) (conv : Included) : option Participant :=
  if bool_decide (initiatorId (inc_row conv) = userId)
  then inc_receiver conv else inc_initiator conv.

(** *** Queries *)

(** A page of an ordered selection; a negative [skip] is rejected. *)
Definition page_of {A} (skip take : Z) (rows : list A) (d : Db) : outcome (list A) * Db :=
  match skipTake skip take rows with
  | Some rows => (Ok rows, d)
  | None => (Throw prisma_invalid_skip, d)
  end.

(** An element of [transformedConversations]. *)
Definition transform (userId : string) (conv : Included) : ConversationSummary :=
  let unreadCount := List.length (inc_messages conv) in
  {| cs_id := inc_id conv;
     cs_participant := otherParticipant userId conv;
     cs_lastMessage := inc_lastMessage conv;
     cs_unreadCount := unreadCount;
     cs_status := status (inc_row conv);
     cs_createdAt := createdAt (inc_row conv);
     cs_updatedAt := updatedAt (inc_row conv) |}.

(** [loadConversations] *)
Definition loadConversations (client : Socket) (dto : LoadConversationsDto)
  : M TResponse :=
  try_catch
    (match Js.truthy (data_userId client) with
     | None => chatGateway_emitError client "Unauthorized"
     | Some userId =>
         let page := default 1 (lc_page dto) in
         let limit := default 20 (lc_limit dto) in
         let search := lc_search dto in
         let skip := (page - 1) * limit in
         '(conversations, total) ← promise_all
           (prisma "privateConversation" "findMany"
              (λ d, page_of skip limit
                      (include_list d userId <$>
                         orderByDesc (λ r, updatedAt r.2)
                           (findMany (whereClause d userId search) (conversations d)))
                      d))
           (prisma "privateConversation" "count"
              (read (λ d, Z.of_nat (List.length
                            (findMany (whereClause d userId search) (conversations d))))));
         let transformedConversations := transform userId <$> conversations in
         let result :=
           DConversations transformedConversations
             {| pg_page := page; pg_limit := limit; pg_total := total;
                pg_totalPages := Js.Math_ceil_div total limit |} in
         tell (Emit (id client) EventsEnum_CONVERSATION_LIST_RESPONSE
                 (Envelope (successResponse result)));;
         mret (successResponse result)
     end)
    (λ err_message, chatGateway_emitError client err_message).

Definition info_of (userId : string) (conv : Included) : ConversationInfo :=
  {| ci_id := inc_id conv;
     ci_participant := otherParticipant userId conv;
     ci_status := status (inc_row conv);
     ci_createdAt := createdAt (inc_row conv);
     ci_updatedAt := updatedAt (inc_row conv) |}.

(** [loadSingleConversation] *)
Definition loadSingleConversation (client : Socket) (dto : LoadSingleConversationDto)
  : M TResponse :=
  try_catch
    (match Js.truthy (data_userId client) with
     | None => chatGateway_emitError client "Unauthorized"
     | Some userId =>
         let conversationId_ := ls_conversationId dto in
         let page := default 1 (ls_page dto) in
         let limit := default 50 (ls_limit dto) in
         let skip := (page - 1) * limit in
         conversation ← prisma "privateConversation" "findFirst"
           (read (λ d, include_participants d <$>
                         findFirst (member_where conversationId_ userId) (conversations d)));
         match conversation with
         | None => chatGateway_emitError client "Conversation not found or unauthorized"
         | Some conversation =>
             '(messages_, totalMessages) ← promise_all
               (prisma "privateMessage" "findMany"
                  (λ d, page_of skip limit
                          (include_message d true (Some userId) <$>
                             orderByDesc (λ r, msg_createdAt r.2)
                               (findMany (λ m, bool_decide (conversationId m.2 = conversationId_))
                                  (messages d)))
                          d))
               (prisma "privateMessage" "count"
                  (read (λ d, Z.of_nat (List.length
                                (findMany (λ m, bool_decide (conversationId m.2 = conversationId_))
                                   (messages d))))));
             let result :=
               DConversation (info_of userId conversation) (reverse messages_)
                 {| pg_page := page; pg_limit := limit; pg_total := totalMessages;
                    pg_totalPages := Js.Math_ceil_div totalMessages limit |} in
             tell (Emit (id client) EventsEnum_CONVERSATION_RESPONSE
                     (Envelope (successResponse result)));;
             mret (successResponse result)
         end
     end)
    (λ err_message, chatGateway_emitError client err_message).

(** *** Initiating a conversation *)

(** [privateConversation.create({ data: { initiatorId, receiverId } })]:
    a row under a new id, the other columns at their defaults. *)
Definition conversation_create (initiatorId_ targetUserId : string) : M Included :=
  prisma "privateConversation" "create"
    (λ d, let k := fresh (dom (conversations d)) in
          let row := {| initiatorId := initiatorId_; receiverId := targetUserId;
                        status := defaultStatus d; lastMessageId := None;
                        createdAt := now d; updatedAt := now d |} in
          let d := set_conversations (insert k row) d in
          (Ok (include_initiate d (k, row)), d)).

(** [result.participant.id] and the like: reading [id] of [null]
    throws. *)
Definition participant_id (p : option Participant) : M string :=
  match p with
  | Some p => mret (p_id p)
  | None => throw type_error_null_id
  end.

(** What [initiateConversationWithUser] does once it holds the row,
    found or created. *)
Definition initiate_respond (client : Socket) (initiatorId_ : string)
  (conversation : Included) : M TResponse :=
  let result :=
    {| ir_id := inc_id conversation;
       ir_participant := otherParticipant initiatorId_ conversation;
       ir_lastMessage := inc_lastMessage conversation;
       ir_status := status (inc_row conversation);
       ir_createdAt := createdAt (inc_row conversation);
       ir_updatedAt := updatedAt (inc_row conversation) |} in
  tell (Emit (id client) EventsEnum_SUCCESS
          (Envelope (successResponse (DInitiated result))));;
  otherUserId ← participant_id (ir_participant result);
  chatGateway_emitToUserFirstSocket otherUserId EventsEnum_CONVERSATION_UPDATE
    (successResponse (DInitiated result));;
  mret (successResponse (DInitiated result)).

(** [initiateConversationWithUser] *)
Definition initiateConversationWithUser (client : Socket)
  (dto : InitConversationWithUserDto) : M TResponse :=
  try_catch
    (match Js.truthy (data_userId client) with
     | None => chatGateway_emitError client "Unauthorized"
     | Some initiatorId_ =>
         let targetUserId := iu_userId dto in
         if bool_decide (initiatorId_ = targetUserId)
         then chatGateway_emitError client "Cannot initiate conversation with yourself"
         else
           conversation ← prisma "privateConversation" "findFirst"
             (read (λ d, include_initiate d <$>
                           findFirst (pair_where initiatorId_ targetUserId)
                             (conversations d)));
           match conversation with
           | Some conversation => initiate_respond client initiatorId_ conversation
           | None =>
               targetUser ← prisma "user" "findUnique"
                 (read (λ d, users d !! targetUserId));
               match targetUser with
               | None => chatGateway_emitError client "Target user not found"
               | Some _ =>
                   conversation ← conversation_create initiatorId_ targetUserId;
                   initiate_respond client initiatorId_ conversation
               end
           end
     end)
    (λ err_message, chatGateway_emitError client err_message).

(** *** Mutations *)

(** [deleteConversation].  The delete removes the row.  What it does
    to the messages of the conversation (refuse the delete, or remove
    them with it) is decided by the schema, which is not part of the
    sources: the step is exact for a conversation without messages. *)
Definition deleteConversation (client : Socket) (dto : ConversationActionDto)
  : M TResponse :=
  try_catch
    (match Js.truthy (data_userId client) with
     | None => chatGateway_emitError client "Unauthorized"
     | Some userId =>
         let conversationId_ := ca_conversationId dto in
         conversationData ← prisma "privateConversation" "findFirst"
           (read (λ d, findFirst (member_where conversationId_ userId) (conversations d)));
         match conversationData with
         | None => chatGateway_emitError client "Conversation not found or unauthorized"
         | Some conversationData =>
             let otherUserId :=
               if bool_decide (initiatorId conversationData.2 = userId)
               then receiverId conversationData.2
               else initiatorId conversationData.2 in
             prisma "privateConversation" "delete"
               (λ d, match conversations d !! conversationId_ with
                     | Some _ => (Ok tt, set_conversations (delete conversationId_) d)
                     | None => (Throw prisma_record_not_found, d)
                     end);;
             tell (Emit (id client) EventsEnum_SUCCESS
                     (Envelope (successResponse DSuccessTrue)));;
             chatGateway_emitToUserFirstSocket otherUserId EventsEnum_CONVERSATION_UPDATE
               (successResponse (DAction (ca_conversationId dto) "deleted"));;
             mret (successResponse DSuccessTrue)
         end
     end)
    (λ err_message, chatGateway_emitError client err_message).

(** [updateConversationStatus] *)
Definition updateConversationStatus (userId conversationId_ : string)
  (status_ : ConversationStatus) : M ConversationInfo :=
  conversation ← prisma "privateConversation" "findFirst"
    (read (λ d, findFirst (member_where conversationId_ userId) (conversations d)));
  match conversation with
  | None => throw "Conversation not found or unauthorized"
  | Some _ =>
      updated ← prisma "privateConversation" "update"
        (λ d, match conversations d !! conversationId_ with
              | Some row =>
                  let row := set_status status_ row in
                  let d := set_conversations (insert conversationId_ row) d in
                  (Ok (include_participants d (conversationId_, row)), d)
              | None => (Throw prisma_record_not_found, d)
              end);
      mret (info_of userId updated)
  end.

(** [archiveConversation] *)
Definition archiveConversation (client : Socket) (dto : ConversationActionDto)
  : M TResponse :=
  try_catch
    (match Js.truthy (data_userId client) with
     | None => chatGateway_emitError client "Unauthorized"
     | Some userId =>
         let conversationId_ := ca_conversationId dto in
         conversation ← updateConversationStatus userId conversationId_ ARCHIVED;
         tell (Emit (id client) EventsEnum_CONVERSATION_UPDATE
                 (Envelope (successResponse (DInfo conversation))));;
         mret (successResponse (DInfo conversation))
     end)
    (λ err_message, chatGateway_emitError client err_message).

(** [blockConversation] *)
Definition blockConversation (client : Socket) (dto : ConversationActionDto)
  : M TResponse :=
  try_catch
    (match Js.truthy (data_userId client) with
     | None => chatGateway_emitError client "Unauthorized"
     | Some userId =>
         let conversationId_ := ca_conversationId dto in
         conversation ← updateConversationStatus userId conversationId_ BLOCKED;
         tell (Emit (id client) EventsEnum_CONVERSATION_UPDATE
                 (Envelope (successResponse (DInfo conversation))));;
         otherUserId ← participant_id (ci_participant conversation);
         chatGateway_emitToUserFirstSocket otherUserId EventsEnum_CONVERSATION_UPDATE
           (successResponse (DAction (ca_conversationId dto) "blocked"));;
         mret (successResponse (DInfo conversation))
     end)
    (λ err_message, chatGateway_emitError client err_message).

(** [unblockConversation] *)
Definition unblockConversation (client : Socket) (dto : ConversationActionDto)
  : M TResponse :=
  try_catch
    (match Js.truthy (data_userId client) with
     | None => chatGateway_emitError client "Unauthorized"
     | Some userId =>
         let conversationId_ := ca_conversationId dto in
         conversation ← updateConversationStatus userId conversationId_ ACTIVE;
         tell (Emit (id client) EventsEnum_CONVERSATION_UPDATE
                 (Envelope (successResponse (DInfo conversation))));;
         otherUserId ← participant_id (ci_participant conversation);
         chatGateway_emitToUserFirstSocket otherUserId EventsEnum_CONVERSATION_UPDATE
           (successResponse (DAction (ca_conversationId dto) "unblocked"));;
         mret (successResponse (DInfo conversation))
     end)
    (λ err_message, chatGateway_emitError client err_message).

End ConversationService.

(** ** Notions of the specification *)

Module Spec.
Import Store Wire Run.

(** The counterpart: the participant of a conversation who is not the
    caller. *)
Definition counterpart_of (userId : string) (c : PrivateConversation) : string :=
  if bool_decide (initiatorId c = userId) then receiverId c else initiatorId c.

(** A push to a user's connections through the chat gateway. *)
Definition is_push (e : Effect) : bool :=
  match e with
  | EmitToUserFirstSocket _ _ _ => true
  | _ => false
  end.

(** Two rows join the same unordered pair of users. *)
Definition same_pair (c1 c2 : PrivateConversation) : Prop :=
  (initiatorId c1 = initiatorId c2 ∧ receiverId c1 = receiverId c2) ∨
  (initiatorId c1 = receiverId c2 ∧ receiverId c1 = initiatorId c2).

(** At most one conversation row per unordered pair. *)
Definition pair_unique (table : gmap string PrivateConversation) : Prop :=
  ∀ k1 k2 c1 c2,
    table !! k1 = Some c1 → table !! k2 = Some c2 → same_pair c1 c2 → k1 = k2.

(** The row joins [a] and [b], in either order. *)
Definition joins (a b : string) (c : PrivateConversation) : Prop :=
  (initiatorId c = a ∧ receiverId c = b) ∨ (initiatorId c = b ∧ receiverId c = a).

(** A message of conversation [cid] sent by someone else than [userId]
    that has a status for [userId] other than READ. *)
Definition unread_for (userId cid : string) (m : PrivateMessage) : Prop :=
  conversationId m = cid ∧ senderId m ≠ userId ∧
  Exists (λ s, ms_userId s = userId ∧ ms_status s ≠ "READ") (statuses m).

#[global] Instance unread_for_dec userId cid m : Decision (unread_for userId cid m).
Proof. unfold unread_for. apply _. Defined.

(** The number of such messages in the store. *)
Definition unread_count (d : Db) (userId cid : string) : nat :=
  size (filter (λ r : string * PrivateMessage, unread_for userId cid r.2) (messages d)).

(** The store and the projection after the status of row [c] under
    [cid] has been set to [target]. *)
Definition updated_db (cid : string) (target : ConversationStatus)
  (c : PrivateConversation) (d : Db) : Db :=
  set_conversations (insert cid (set_status target c)) d.

Definition updated_info (d : Db) (userId cid : string) (target : ConversationStatus)
  (c : PrivateConversation) : ConversationInfo :=
  {| ci_id := cid;
     ci_participant := ConversationService.include_user d (counterpart_of userId c);
     ci_status := target;
     ci_createdAt := createdAt c;
     ci_updatedAt := updatedAt c |}.

(** Both participants of every conversation are users of the store. *)
Definition refs_ok (d : Db) : Prop :=
  map_Forall
    (λ _ c, is_Some (users d !! initiatorId c) ∧ is_Some (users d !! receiverId c))
    (conversations d).

#[global] Instance refs_ok_dec d : Decision (refs_ok d).
Proof. unfold refs_ok. apply _. Defined.

(** The row [initiateConversationWithUser] creates. *)
Definition created_row (d : Db) (userId target : string) : PrivateConversation :=
  {| initiatorId := userId; receiverId := target; status := defaultStatus d;
     lastMessageId := None; createdAt := now d; updatedAt := now d |}.

(** What [initiateConversationWithUser] answers for row [c] under [k]
    when [userId] calls. *)
Definition initiated (d : Db) (userId k : string) (c : PrivateConversation)
  : InitiateResult :=
  {| ir_id := k;
     ir_participant := ConversationService.include_user d (counterpart_of userId c);
     ir_lastMessage := ConversationService.include_lastMessage d None c;
     ir_status := status c;
     ir_createdAt := createdAt c;
     ir_updatedAt := updatedAt c |}.

(** [k] is the ceiling of [total / limit]. *)
Definition is_ceiling (total limit k : Z) : Prop :=
  (k - 1) * limit < total ≤ k * limit.

End Spec.

(** ** Sample data *)

Module Examples.
Import Store Wire Run.

Definition user (name : string) : User :=
  {| user_name := name; user_email := name +:+ "@example.org";
     user_role := "USER"; user_profilePictureId := None |}.

Definition conversation (a b : string) (s : ConversationStatus) (t : Z)
  : PrivateConversation :=
  {| initiatorId := a; receiverId := b; status := s; lastMessageId := None;
     createdAt := t; updatedAt := t |}.

Definition message (cid sender : string) (t : Z) (ss : list MessageStatus)
  : PrivateMessage :=
  {| conversationId := cid; senderId := sender; content := "hello";
     fileId := None; msg_createdAt := t; statuses := ss |}.

Definition status_of (userId s : string) : MessageStatus :=
  {| ms_userId := userId; ms_status := s |}.

(** Alice and Bob share conversation c1: three messages from Bob, one
    of them read by Alice, and one message from Alice. *)
Definition db0 : Db :=
  {| users := <["a" := user "Alice"]> (<["b" := user "Bob"]> (<["c" := user "Carol"]> ∅));
     conversations := <["c1" := conversation "a" "b" ACTIVE 5]> ∅;
     messages :=
       <["m1" := message "c1" "b" 1 [status_of "a" "READ"]]>
       (<["m2" := message "c1" "b" 2 [status_of "a" "DELIVERED"]]>
       (<["m3" := message "c1" "b" 3 [status_of "a" "SENT"]]>
       (<["m4" := message "c1" "a" 4 [status_of "b" "SENT"]]> ∅)));
     notifications := ∅;
     defaultStatus := ACTIVE;
     now := 100;
     fault := None |}.

Definition world0 : World := {| db := db0; clients := ∅; log := [] |}.

Definition socket (sid : string) (userId : option string) : Socket :=
  {| id := sid; handshake_headers_authorization := None;
     handshake_auth_token := None; data_userId := userId; data_user := None |}.

Definition alice : Socket := socket "s1" (Some "a").
Definition bob : Socket := socket "s2" (Some "b").
Definition carol : Socket := socket "s3" (Some "c").

(** The same store with no conversation at all. *)
Definition world_without_c1 : World :=
  {| db := set_conversations (λ _, ∅) db0; clients := ∅; log := [] |}.

(** Alice is connected twice and Bob once. *)
Definition connected : Registry.clients_map :=
  Registry.subscribeClient
    (Registry.subscribeClient (Registry.subscribeClient ∅ "a" "s1") "a" "s4")
    "b" "s2".

Definition world_connected : World :=
  {| db := db0; clients := connected; log := [] |}.

(** The store is down. *)
Definition world_down : World :=
  {| db := {| users := users db0; conversations := conversations db0;
              messages := messages db0; notifications := notifications db0;
              defaultStatus := ACTIVE; now := 100;
              fault := Some "Can't reach database server" |};
     clients := connected; log := [] |}.

Definition notice : NotificationPayload :=
  {| np_type := "info"; np_title := "Maintenance"; np_message := "Tonight";
     np_meta := None |}.

(** Alice with 45 conversations, the i-th one updated at time i. *)
Definition db45 : Db :=
  {| users :=
       <["a" := user "Alice"]>
         (list_to_map ((λ i : nat, ("u" +:+ pretty i, user ("User" +:+ pretty i)))
                         <$> seq 0 45));
     conversations :=
       list_to_map ((λ i : nat, ("k" +:+ pretty i,
                                 conversation "a" ("u" +:+ pretty i) ACTIVE (Z.of_nat i)))
                      <$> seq 0 45);
     messages := ∅;
     notifications := ∅;
     defaultStatus := ACTIVE;
     now := 100;
     fault := None |}.

Definition world45 : World := {| db := db45; clients := ∅; log := [] |}.

Definition page_of_20 (page : Z) : ConversationService.LoadConversationsDto :=
  {| ConversationService.lc_page := Some page;
     ConversationService.lc_limit := Some 20;
     ConversationService.lc_search := None |}.

(** A verifier that accepts one token, whose payload has no subject. *)
Definition payload_without_sub : JWTPayload :=
  {| sub := None; jwt_email := "alice@example.org"; jwt_role := "USER" |}.

Definition verify_one (token secret : string) : outcome JWTPayload :=
  if bool_decide (token = "t0" ∧ secret = "s3cr3t") then Ok payload_without_sub
  else Throw "invalid signature".

Definition connecting : Socket :=
  {| id := "s9"; handshake_headers_authorization := Some "Bearer t0";
     handshake_auth_token := None; data_userId := None; data_user := None |}.

End Examples.

(** ** The rest of [QueueGateway] *)

Module QueueGatewayRest.
Import Store Wire Run Registry QueueGateway.

(** [where: { role: { in: ['ADMIN', 'SUPER_ADMIN'] } }] *)
Definition is_admin (r : string * User) : bool :=
  bool_decide (user_role r.2 = "ADMIN") || bool_decide (user_role r.2 = "SUPER_ADMIN").

(** [emitToAdmins]: the admins are read from the store; [getClients] is
    asked for each of them once the notification exists. *)
Definition emitToAdmins (event : string) (data : NotificationPayload) : M unit :=
  admins ← prisma "user" "findMany" (read (λ d, (findMany is_admin (users d)).*1));
  if bool_decide (List.length admins = 0%nat) then mret tt
  else
    notification_id ← notification_create data admins;
    let payload := NotificationEvent data notification_id in
    forEach admins (λ a,
      c ← getClientsMap;
      forEach (elements (getClients c a)) (λ socket, tell (Emit socket event payload))).

(** An emission to a socket. *)
Definition is_emit (e : Effect) : bool :=
  match e with
  | Emit _ _ _ => true
  | _ => false
  end.

(** What [disconnectWithError] adds to the log. *)
Definition rejection (client : Socket) (message : string) : list Effect :=
  [Emit (id client) EventsEnum_ERROR (Envelope (errorResponse message));
   Disconnect (id client)].

(** What the transport tells the gateway about a socket. *)
Inductive Lifecycle :=
| Connects (client : Socket)
| Disconnects (client : Socket).

Section Lifecycle.

Variable jwtService_verify : string → string → outcome JWTPayload.
Variable jwt_secret : outcome string.

(** The handler of one event; the result of a handler is dropped. *)
Definition handle (e : Lifecycle) (w : World) : World :=
  match e with
  | Connects client => (handleConnection jwtService_verify jwt_secret client w).2
  | Disconnects client => (handleDisconnect client w).2
  end.

(** The handlers of a sequence of events, one after the other. *)
Definition handle_all (es : list Lifecycle) (w : World) : World :=
  foldl (λ w e, handle e w) w es.

End Lifecycle.

End QueueGatewayRest.

(** ** Answers of the conversation service *)

Module Answers.
Import Store Wire Run.

(** A handler refuses with [message] after the store calls [queries]:
    the error envelope is emitted to the client and returned. *)
Definition refused_after (queries : list Effect) (client : Socket) (message : string)
  (w : World) : outcome TResponse * World :=
  (Ok (errorResponse message),
   add_log (queries ++ [Emit (id client) EventsEnum_ERROR
                          (Envelope (errorResponse message))]) w).

Definition unauthorized (client : Socket) (w : World) : outcome TResponse * World :=
  refused_after [] client "Unauthorized" w.

(** A call has answered its client: it returned an envelope, did not
    throw, and emitted that same envelope to the client's socket among
    the effects [es] it added to the log. *)
Definition answered (client : Socket) (w : World) (result : outcome TResponse * World)
  (es : list Effect) : Prop :=
  log result.2 = log w ++ es ∧
  ∃ response event,
    result.1 = Ok response ∧ Emit (id client) event (Envelope response) ∈ es.

(** Of the store, at most the conversations differ between two worlds,
    and the registry is the same. *)
Definition only_conversations (w w' : World) : Prop :=
  users (db w') = users (db w) ∧
  messages (db w') = messages (db w) ∧
  notifications (db w') = notifications (db w) ∧
  fault (db w') = fault (db w) ∧
  clients w' = clients w.

(** [text] is one of the texts a search looks into for conversation
    [c]: the name of its initiator, the name of its receiver, or the
    content of its last message. *)
Definition searched_text (d : Db) (c : PrivateConversation) (text : string) : Prop :=
  (∃ u, users d !! initiatorId c = Some u ∧ text = user_name u) ∨
  (∃ u, users d !! receiverId c = Some u ∧ text = user_name u) ∨
  (∃ k m, lastMessageId c = Some k ∧ messages d !! k = Some m ∧ text = content m).

(** [needle] occurs in [hay]. *)
Definition occurs_in (needle hay : string) : Prop :=
  ∃ before after, hay = String.append before (String.append needle after).

(** No conversation of the table joins [a] and [b]. *)
Definition unjoined (a b : string) (table : gmap string PrivateConversation) : Prop :=
  map_Forall (λ _ c, ¬ Spec.joins a b c) table.

(** [userId] has no part in the conversation [cid] of the table: there
    is no such row, or it joins two other users. *)
Definition stranger_to (userId cid : string) (table : gmap string PrivateConversation)
  : Prop :=
  ∀ c, table !! cid = Some c → initiatorId c ≠ userId ∧ receiverId c ≠ userId.

(** No message of the store belongs to the conversation [cid]. *)
Definition without_messages (cid : string) (d : Db) : Prop :=
  map_Forall (λ _ m, conversationId m ≠ cid) (messages d).

#[global] Instance without_messages_dec cid d : Decision (without_messages cid d).
Proof. unfold without_messages. apply _. Defined.

(** Between two worlds the users, the notifications and the registry
    are the same. *)
Definition keeps_users_and_notifications (w w' : World) : Prop :=
  users (db w') = users (db w) ∧
  notifications (db w') = notifications (db w) ∧
  fault (db w') = fault (db w) ∧
  clients w' = clients w.

(** A letter of the English alphabet, a digit or a space: a character
    that stands for itself in a pattern and whose case every collation
    folds alike. *)
Definition is_plain (a : ascii) : bool :=
  let n := N_of_ascii a in
  ((48 <=? n) && (n <=? 57) || (65 <=? n) && (n <=? 90) ||
   (97 <=? n) && (n <=? 122) || (n =? 32))%N.

Definition plain_text (s : string) : Prop :=
  Forall (λ a, is_plain a = true) (String.list_ascii_of_string s).

#[global] Instance plain_text_dec s : Decision (plain_text s).
Proof. unfold plain_text. apply _. Defined.

(** A character below 128. *)
Definition is_ascii (a : ascii) : bool := (N_of_ascii a <? 128)%N.

Definition ascii_text (s : string) : Prop :=
  Forall (λ a, is_ascii a = true) (String.list_ascii_of_string s).

#[global] Instance ascii_text_dec s : Decision (ascii_text s).
Proof. unfold ascii_text. apply _. Defined.

(** The texts a search looks into are ASCII throughout the store. *)
Definition ascii_store (d : Db) : Prop :=
  map_Forall (λ _ u, ascii_text (user_name u)) (users d) ∧
  map_Forall (λ _ m, ascii_text (content m)) (messages d).

#[global] Instance ascii_store_dec d : Decision (ascii_store d).
Proof. unfold ascii_store. apply _. Defined.

End Answers.

(** ** More sample data *)

Module Samples.
Import Store Wire Run.

(** A verifier that accepts the token t1 as Alice's. *)
Definition alice_payload : JWTPayload :=
  {| sub := Some "a"; jwt_email := "Alice@example.org"; jwt_role := "USER" |}.

Definition verify_alice (token secret : string) : outcome JWTPayload :=
  if bool_decide (token = "t1" ∧ secret = "s3cr3t") then Ok alice_payload
  else Throw "invalid signature".

Definition arriving : Socket :=
  {| id := "s7"; handshake_headers_authorization := None;
     handshake_auth_token := Some "t1"; data_userId := None; data_user := None |}.

(** A verifier whose payload names a subject the store does not know. *)
Definition verify_stranger (token secret : string) : outcome JWTPayload :=
  Ok {| sub := Some "nobody"; jwt_email := "n@example.org"; jwt_role := "USER" |}.

(** Alice is an admin and Carol a super admin; Bob is not.  Alice has
    two sockets, Bob one, Carol none. *)
Definition db_admins : Db :=
  {| users :=
       <["a" := {| user_name := "Alice"; user_email := "Alice@example.org";
                   user_role := "ADMIN"; user_profilePictureId := None |}]>
       (<["b" := Examples.user "Bob"]>
       (<["c" := {| user_name := "Carol"; user_email := "Carol@example.org";
                    user_role := "SUPER_ADMIN"; user_profilePictureId := None |}]> ∅));
     conversations := ∅; messages := ∅; notifications := ∅;
     defaultStatus := ACTIVE; now := 100; fault := None |}.

Definition world_admins : World :=
  {| db := db_admins; clients := Examples.connected; log := [] |}.

End Samples.

(** ** The account services: [AuthOtpService], [AuthLogoutService] and
    [AuthPasswordService]

    The bodies of the methods are modelled; the [@HandleError]
    decorator around them, [UtilsService], [AuthMailService] and the
    Prisma schema are not part of the sources.  What the helpers
    compute is taken as a parameter, the mails that were sent are kept
    in an outbox, and the clock does not move during a call. *)

Module Auth.

(** The columns of a user the methods read or write. *)
Record Account := {
  email : string;
  role : string;
  password : option string;
  otp : option string;
  otpExpiresAt : option Z;
  otpType : option string;
  isVerified : bool;
  isLoggedIn : bool;
  lastLoginAt : option Z
}.

Inductive Mail :=
| VerificationCodeEmail (to code subject message : string)
| ResetPasswordCodeEmail (to code : string)
| PasswordResetConfirmationEmail (to : string).

Record State := {
  accounts : gmap string Account;
  clock : Z;
  outbox : list Mail;
  down : option string
}.

(** What a method throws: [new AppError(status, message)], or another
    error with its message (the store's, the mail service's). *)
Inductive Thrown :=
| AppError (status : Z) (message : string)
| Error (message : string).

Inductive result (A : Type) :=
| Return (a : A)
| Raise (e : Thrown).
Arguments Return {A} a.
Arguments Raise {A} e.

Definition Call (A : Type) : Type := State → result A * State.

#[global] Instance Call_ret : MRet Call := λ A a w, (Return a, w).
#[global] Instance Call_bind : MBind Call :=
  λ A B k m w, match m w with
               | (Return a, w') => k a w'
               | (Raise e, w') => (Raise e, w')
               end.

Definition raise {A} (e : Thrown) : Call A := λ w, (Raise e, w).

(** [try { body } catch (error) { handler }] *)
Definition catch {A} (body : Call A) (handler : Call A) : Call A :=
  λ w, match body w with
       | (Return a, w') => (Return a, w')
       | (Raise _, w') => handler w'
       end.

(** [new Date()] *)
Definition now : Call Z := λ w, (Return (clock w), w).

(** A query of the Prisma client on the user table. *)
Definition with_accounts (t : gmap string Account) (w : State) : State :=
  {| accounts := t; clock := clock w; outbox := outbox w; down := down w |}.

Definition with_outbox (o : list Mail) (w : State) : State :=
  {| accounts := accounts w; clock := clock w; outbox := o; down := down w |}.

Definition query {A} (q : gmap string Account → result A * gmap string Account) : Call A :=
  λ w, match down w with
       | Some e => (Raise (Error e), w)
       | None => let '(r, t) := q (accounts w) in (r, with_accounts t w)
       end.

(** The first row with the given email. *)
Definition row_of_email (e : string) (t : gmap string Account) : option (string * Account) :=
  head (filter (λ r, email r.2 = e) (map_to_list t)).

(** [user.findFirst({ where: { email } })] and, the email being unique,
    [user.findUnique({ where: { email } })]. *)
Definition find_by_email (e : string) : Call (option (string * Account)) :=
  query (λ t, (Return (row_of_email e t), t)).

(** [user.findUnique({ where: { id } })] *)
Definition find_by_id (k : string) : Call (option Account) :=
  query (λ t, (Return (t !! k), t)).

Definition record_not_found : string := "Record to update not found".

(** [user.update({ where: { id }, data })]: the updated row. *)
Definition update_by_id (k : string) (data : Account → Account) : Call Account :=
  query (λ t, match t !! k with
              | Some a => (Return (data a), <[k := data a]> t)
              | None => (Raise (Error record_not_found), t)
              end).

(** [user.update({ where: { email }, data })] *)
Definition update_by_email (e : string) (data : Account → Account) : Call Account :=
  query (λ t, match row_of_email e t with
              | Some (k, a) => (Return (data a), <[k := data a]> t)
              | None => (Raise (Error record_not_found), t)
              end).

(** The [data] objects of the updates. *)
Definition set_otp (o : option string) (expires : option Z) (a : Account) : Account :=
  {| email := email a; role := role a; password := password a;
     otp := o; otpExpiresAt := expires; otpType := otpType a;
     isVerified := isVerified a; isLoggedIn := isLoggedIn a;
     lastLoginAt := lastLoginAt a |}.

Definition set_otp_typed (o : option string) (expires : option Z) (type : option string)
  (a : Account) : Account :=
  {| email := email a; role := role a; password := password a;
     otp := o; otpExpiresAt := expires; otpType := type;
     isVerified := isVerified a; isLoggedIn := isLoggedIn a;
     lastLoginAt := lastLoginAt a |}.

Definition set_verified (at_ : Z) (a : Account) : Account :=
  {| email := email a; role := role a; password := password a;
     otp := None; otpExpiresAt := None; otpType := None;
     isVerified := true; isLoggedIn := true; lastLoginAt := Some at_ |}.

Definition set_password (p : string) (a : Account) : Account :=
  {| email := email a; role := role a; password := Some p;
     otp := otp a; otpExpiresAt := otpExpiresAt a; otpType := otpType a;
     isVerified := isVerified a; isLoggedIn := isLoggedIn a;
     lastLoginAt := lastLoginAt a |}.

Definition set_password_reset (p : string) (a : Account) : Account :=
  {| email := email a; role := role a; password := Some p;
     otp := None; otpExpiresAt := None; otpType := None;
     isVerified := isVerified a; isLoggedIn := isLoggedIn a;
     lastLoginAt := lastLoginAt a |}.

(** A value that is a boolean or a promise of one; a promise is an
    object, so [!promise] is false. *)
Inductive Truth :=
| Plain (b : bool)
| Promise (b : bool).

Definition await (v : Truth) : bool :=
  match v with Plain b => b | Promise b => b end.

Definition js_not (v : Truth) : bool :=
  match v with Plain b => negb b | Promise _ => false end.

(** The answers: [successResponse(data, message)]. *)
Inductive Answer (User : Type) :=
| Done (message : string)
| Verified (user : User) (token : string) (message : string).
Arguments Done {User} message.
Arguments Verified {User} user token message.

Record VerifyOTPDto := { dto_otp : string; dto_email : string }.
Record ChangePasswordDto := { cp_password : option string; cp_newPassword : string }.
Record ResetPasswordDto := { rp_otp : string; rp_email : string; rp_newPassword : string }.

Section Services.

(** [UtilsService]: the code and expiry that [generateOtpAndExpiry]
    draws at this call, [hash], [compare] (a boolean or a promise of
    one), [generateToken] and [sanitizedResponse]. *)
Variable generated_otp : Z.
Variable generated_expiry : Z.
Variable utils_hash : string → string.
Variable utils_compare : string → string → Truth.
Variable utils_generateToken : string → string → string → string.
Variable User : Type.
Variable utils_sanitizedResponse : string → Account → User.

(** [AuthMailService]: the error a mail fails with, if it does. *)
Variable mail_failure : Mail → option string.

Definition send (m : Mail) : Call unit :=
  λ w, match mail_failure m with
       | Some e => (Raise (Error e), w)
       | None => (Return tt, with_outbox (outbox w ++ [m]) w)
       end.

(** [otp.toString()] *)
Definition otp_text : string := pretty generated_otp.

(** [AuthOtpService.resendOtp] *)
Definition resendOtp (email_ : string) : Call (Answer User) :=
  user ← find_by_email email_;
  match user with
  | None => raise (AppError 404 "User not found")
  | Some (user_id, user) =>
      date ← now;
      let active :=
        match Js.truthy (otp user), otpExpiresAt user with
        | Some _, Some expires => date <? expires
        | _, _ => false
        end in
      if active
      then raise (AppError 400 "An active OTP already exists. Please check your inbox.")
      else
        let hashedOtp := utils_hash otp_text in
        update_by_id user_id (set_otp (Some hashedOtp) (Some generated_expiry));;
        catch
          (send (VerificationCodeEmail email_ otp_text "Your OTP Code"
                   "Here is your OTP code. It will expire in 5 minutes."))
          (update_by_id user_id (set_otp_typed None None None);;
           raise (AppError 400 "Failed to send OTP email. Please try again later."));;
        mret (Done "OTP resent successfully")
  end.

(** [AuthOtpService.verifyOTP] *)
Definition verifyOTP (dto : VerifyOTPDto) : Call (Answer User) :=
  user ← find_by_email (dto_email dto);
  match user with
  | None => raise (AppError 400 "User not found")
  | Some (user_id, user) =>
      match Js.truthy (otp user), otpExpiresAt user with
      | Some user_otp, Some expires =>
          date ← now;
          if expires <? date
          then raise (AppError 400 "OTP has expired. Please request a new one.")
          else
            let isCorrectOtp := Plain (await (utils_compare (dto_otp dto) user_otp)) in
            if js_not isCorrectOtp then raise (AppError 400 "Invalid OTP")
            else
              date ← now;
              updatedUser ← update_by_id user_id (set_verified date);
              let token := utils_generateToken user_id (email updatedUser)
                             (role updatedUser) in
              mret (Verified (utils_sanitizedResponse user_id updatedUser) token
                      "OTP code verified successfully")
      | _, _ => raise (AppError 400 "OTP is not set. Please request a new one.")
      end
  end.

(** [AuthLogoutService.logout]: the update has an empty [data]. *)
Definition logout (userId : string) : Call (Answer User) :=
  user ← find_by_id userId;
  match user with
  | None => raise (AppError 404 "User not found")
  | Some _ =>
      update_by_id userId (λ a, a);;
      mret (Done "Logout successful")
  end.

(** [AuthPasswordService.changePassword] *)
Definition changePassword (userId : string) (dto : ChangePasswordDto)
  : Call (Answer User) :=
  user ← find_by_id userId;
  match user with
  | None => raise (AppError 404 "User not found")
  | Some user =>
      match Js.truthy (password user) with
      | None =>
          let hashedPassword := utils_hash (cp_newPassword dto) in
          update_by_id userId (set_password hashedPassword);;
          mret (Done "Password set successfully")
      | Some user_password =>
          match Js.truthy (cp_password dto) with
          | None => raise (AppError 400 "Current password is required")
          | Some dto_password =>
              let isPasswordValid :=
                Plain (await (utils_compare dto_password user_password)) in
              if js_not isPasswordValid
              then raise (AppError 400 "Invalid current password")
              else
                let hashedPassword := utils_hash (cp_newPassword dto) in
                update_by_id userId (set_password hashedPassword);;
                mret (Done "Password updated successfully")
          end
      end
  end.

(** [AuthPasswordService.forgotPassword] *)
Definition forgotPassword (email_ : string) : Call (Answer User) :=
  user ← find_by_email email_;
  match user with
  | None => raise (AppError 404 "User not found")
  | Some _ =>
      let hashedOtp := utils_hash otp_text in
      update_by_email email_
        (set_otp_typed (Some hashedOtp) (Some generated_expiry) (Some "RESET"));;
      send (ResetPasswordCodeEmail email_ otp_text);;
      mret (Done "Password reset email sent")
  end.

(** [AuthPasswordService.resetPassword]: [isMatch] is what
    [this.utils.compare] returns, not awaited. *)
Definition resetPassword (dto : ResetPasswordDto) : Call (Answer User) :=
  user ← find_by_email (rp_email dto);
  match user with
  | None => raise (AppError 404 "User not found")
  | Some (_, user) =>
      match Js.truthy (otp user), otpExpiresAt user,
            bool_decide (otpType user = Some "RESET") with
      | Some user_otp, Some expires, true =>
          date ← now;
          if expires <? date
          then raise (AppError 401 "Reset token has expired. Please request a new one.")
          else
            let isMatch := utils_compare (rp_otp dto) user_otp in
            if js_not isMatch then raise (AppError 403 "Invalid reset token")
            else
              let hashedPassword := utils_hash (rp_newPassword dto) in
              update_by_email (rp_email dto) (set_password_reset hashedPassword);;
              send (PasswordResetConfirmationEmail (rp_email dto));;
              mret (Done "Password reset successfully")
      | _, _, _ => raise (AppError 400 "OTP is not set. Please request a new one.")
      end
  end.

End Services.

End Auth.

(** What the properties of the account services speak about. *)

Module AuthSpec.
Import Auth.

(** The account holds a code that has not yet expired at [date]. *)
Definition active_code (date : Z) (a : Account) : Prop :=
  ∃ code expires,
    Js.truthy (otp a) = Some code ∧ otpExpiresAt a = Some expires ∧ date < expires.

(** No two users share an email (the column is unique in the schema:
    [findUnique] is called with it). *)
Definition email_unique (t : gmap string Account) : Prop :=
  map_Forall (λ k1 a1, map_Forall (λ k2 a2, email a1 = email a2 → k1 = k2) t) t.

#[global] Instance email_unique_dec (t : gmap string Account) : Decision (email_unique t).
Proof. unfold email_unique. apply _. Defined.

(** The state a later call finds: the clock has moved. *)
Definition later (date : Z) (w : State) : State :=
  {| accounts := accounts w; clock := date; outbox := outbox w; down := down w |}.

Definition is_return {A} (r : result A) : bool :=
  match r with Return _ => true | Raise _ => false end.

End AuthSpec.

Module AuthSamples.
Import Auth AuthSpec.

Definition hash (s : string) : string := String "#" s.

(** A [compare] that answers with a promise, as [bcrypt.compare] does. *)
Definition compare (plain hashed : string) : Truth :=
  Promise (bool_decide (hashed = hash plain)).

Definition generateToken (sub email_ role_ : string) : string :=
  String.append sub (String ":" role_).

Definition sanitized (k : string) (a : Account) : string * string := (k, email a).

Definition delivered (m : Mail) : option string := None.

Definition undelivered (m : Mail) : option string := Some "ECONNREFUSED".

Definition dana : Account :=
  {| email := "dana@example.com"; role := "USER"; password := Some "#old";
     otp := None; otpExpiresAt := None; otpType := None;
     isVerified := false; isLoggedIn := true; lastLoginAt := None |}.

Definition erin : Account :=
  {| email := "erin@example.com"; role := "USER"; password := None;
     otp := Some "#4711"; otpExpiresAt := Some 1300; otpType := Some "RESET";
     isVerified := true; isLoggedIn := false; lastLoginAt := Some 10 |}.

Definition state0 : State :=
  {| accounts := {[ "u1" := dana; "u2" := erin ]};
     clock := 1000; outbox := []; down := None |}.

End AuthSamples.

(** * Properties *)

(** ** The registry *)

Module RegistryFacts.
Import Registry.

Lemma registry_inv_empty : registry_inv ∅.
Proof. apply map_Forall_empty. Qed.

Lemma registry_inv_subscribe clients userId client :
  registry_inv clients → registry_inv (subscribeClient clients userId client).
Proof.
  intros Hinv. unfold subscribeClient.
  apply map_Forall_insert_2; [|exact Hinv].
  intros Hempty. apply (not_elem_of_empty (C := gset string) client).
  rewrite <- Hempty. apply elem_of_union_l, elem_of_singleton. reflexivity.
Qed.

Lemma registry_inv_unsubscribe clients userId client :
  registry_inv clients → registry_inv (unsubscribeClient clients userId client).
Proof.
  intros Hinv. unfold unsubscribeClient.
  destruct (clients !! userId) as [set|] eqn:Hget; [|exact Hinv].
  case_decide as Hsz.
  - by apply map_Forall_delete.
  - apply map_Forall_insert_2; [|exact Hinv].
    intros Hempty. apply Hsz. rewrite Hempty. apply size_empty.
Qed.

Lemma getClients_absent clients userId :
  clients !! userId = None → getClients clients userId = ∅.
Proof. unfold getClients. by intros ->. Qed.

Lemma getClients_empty_iff clients userId :
  registry_inv clients →
  (getClients clients userId = ∅) ↔ (clients !! userId = None).
Proof.
  intros Hinv. split; [|apply getClients_absent].
  unfold getClients. destruct (clients !! userId) as [set|] eqn:Hget; [|done].
  intros ->. by destruct (Hinv _ _ Hget).
Qed.

Lemma subscribe_first clients userId client :
  clients !! userId = None →
  subscribeClient clients userId client !! userId = Some {[client]}.
Proof.
  intros Hget. unfold subscribeClient. rewrite Hget, lookup_insert_eq.
  f_equal. apply (right_id_L ∅ (∪)).
Qed.

Lemma getClients_subscribe clients userId client u :
  getClients (subscribeClient clients userId client) u =
  if decide (userId = u) then {[client]} ∪ getClients clients userId
  else getClients clients u.
Proof.
  unfold getClients, subscribeClient. case_decide as Hu.
  - subst u. by rewrite lookup_insert_eq.
  - by rewrite lookup_insert_ne.
Qed.

Lemma getClients_unsubscribe clients userId client u :
  getClients (unsubscribeClient clients userId client) u =
  if decide (userId = u) then getClients clients userId ∖ {[client]}
  else getClients clients u.
Proof.
  unfold getClients, unsubscribeClient.
  destruct (clients !! userId) as [set|] eqn:Hget.
  - case_decide as Hsz; case_decide as Hu; subst.
    + rewrite lookup_delete_eq. apply size_empty_inv in Hsz.
      symmetry. by apply leibniz_equiv.
    + by rewrite lookup_delete_ne.
    + by rewrite lookup_insert_eq.
    + by rewrite lookup_insert_ne.
  - case_decide as Hu; [|done]. subst. rewrite Hget.
    symmetry. apply leibniz_equiv, empty_difference.
Qed.

Lemma unsubscribe_last clients userId client set :
  clients !! userId = Some set → set ∖ {[client]} = ∅ →
  unsubscribeClient clients userId client !! userId = None.
Proof.
  intros Hget Hempty. unfold unsubscribeClient. rewrite Hget, Hempty.
  rewrite decide_True; [apply lookup_delete_eq | apply size_empty].
Qed.

(** C9. The registry keeps every key on a non-empty set: the empty map
    satisfies it, [subscribeClient] and [unsubscribeClient] preserve it;
    the first subscription of a user creates the set, the removal of
    the last connection deletes the key, [getClients] of an absent key
    is the empty set, and under the invariant an empty answer of
    [getClients] is the same as an absent key; a key on an empty set
    and a key that is absent are answered alike. *)
Theorem registry_nonempty_sets (clients : clients_map) (userId client : string) :
  registry_inv clients →
  registry_inv (∅ : clients_map) ∧
  registry_inv (subscribeClient clients userId client) ∧
  registry_inv (unsubscribeClient clients userId client) ∧
  (clients !! userId = None →
   subscribeClient clients userId client !! userId = Some {[client]}) ∧
  client ∈ getClients (subscribeClient clients userId client) userId ∧
  (∀ set, clients !! userId = Some set → set ∖ {[client]} = ∅ →
          unsubscribeClient clients userId client !! userId = None) ∧
  (client ∉ getClients (unsubscribeClient clients userId client) userId) ∧
  (clients !! userId = None → getClients clients userId = ∅) ∧
  (∀ u, (getClients clients u = ∅) ↔ (clients !! u = None)) ∧
  getClients (<[userId := ∅]> clients) userId = getClients (delete userId clients) userId.
Proof.
  intros Hinv. repeat split.
  - apply registry_inv_empty.
  - by apply registry_inv_subscribe.
  - by apply registry_inv_unsubscribe.
  - apply subscribe_first.
  - rewrite getClients_subscribe, decide_True; [|done].
    apply elem_of_union_l, elem_of_singleton. reflexivity.
  - apply unsubscribe_last.
  - rewrite getClients_unsubscribe, decide_True; [|done].
    rewrite elem_of_difference, elem_of_singleton. tauto.
  - apply getClients_absent.
  - by apply getClients_empty_iff.
  - apply getClients_absent.
  - unfold getClients. by rewrite lookup_insert_eq, lookup_delete_eq.
Qed.

(** Alice's second socket leaves while the first one stays. *)
Lemma registry_nonempty_sets_witness :
  registry_inv (unsubscribeClient Examples.connected "a" "s4") ∧
  getClients (unsubscribeClient Examples.connected "a" "s4") "a" ≠ ∅.
Proof.
  assert (registry_inv Examples.connected) as Hinv.
  { apply (bool_decide_unpack _). vm_compute. exact I. }
  pose proof (registry_nonempty_sets Examples.connected "a" "s4" Hinv)
    as (_ & _ & Hunsub & _).
  split; [exact Hunsub|].
  apply (bool_decide_unpack _). vm_compute. exact I.
Defined.

End RegistryFacts.

(** ** Running methods *)

Module RunFacts.
Import Store Wire Run.

Lemma add_log_nil w : add_log [] w = w.
Proof. destruct w. unfold add_log. simpl. by rewrite app_nil_r. Qed.

Lemma add_log_app es1 es2 w : add_log es2 (add_log es1 w) = add_log (es1 ++ es2) w.
Proof. unfold add_log. simpl. by rewrite app_assoc. Qed.

Lemma tell_run e w : tell e w = (Ok tt, add_log [e] w).
Proof. reflexivity. Qed.

(** Telling one effect per element appends their list to the log. *)
Lemma forEach_tell {A} (f : A → Effect) xs w :
  forEach xs (λ x, tell (f x)) w = (Ok tt, add_log (f <$> xs) w).
Proof.
  revert w. induction xs as [|x xs IH]; intros w; simpl.
  - by rewrite add_log_nil.
  - unfold bind. rewrite tell_run, IH, add_log_app. reflexivity.
Qed.

Lemma forEach_forEach_tell {A B} (g : A → list B) (f : B → Effect) xs w :
  forEach xs (λ x, forEach (g x) (λ y, tell (f y))) w
  = (Ok tt, add_log (xs ≫= (λ x, f <$> g x)) w).
Proof.
  revert w. induction xs as [|x xs IH]; intros w; simpl.
  - by rewrite add_log_nil.
  - unfold bind. rewrite forEach_tell, IH, add_log_app. reflexivity.
Qed.

Lemma prisma_ok {A} model action (q : Db → outcome A * Db) w :
  fault (db w) = None →
  prisma model action q w =
  ((q (db w)).1,
   {| db := (q (db w)).2; clients := clients w;
      log := log w ++ [Prisma model action] |}).
Proof. intros Hf. unfold prisma. rewrite Hf. by destruct (q (db w)). Qed.

Lemma prisma_fault {A} model action (q : Db → outcome A * Db) w e :
  fault (db w) = Some e →
  prisma model action q w = (Throw e, add_log [Prisma model action] w).
Proof. intros Hf. unfold prisma. by rewrite Hf. Qed.

End RunFacts.

(** ** Queries on a table *)

Module StoreFacts.
Import Store.

Section Table.
Context {V : Type}.
Implicit Types (table : gmap string V) (clause : string * V → bool).

Lemma elem_of_findMany clause table k v :
  (k, v) ∈ findMany clause table ↔ table !! k = Some v ∧ clause (k, v) = true.
Proof.
  unfold findMany. rewrite list_elem_of_filter, elem_of_map_to_list. tauto.
Qed.

Lemma NoDup_findMany clause table : NoDup (findMany clause table).
Proof. apply NoDup_filter, NoDup_map_to_list. Qed.

Lemma findFirst_Some clause table k v :
  findFirst clause table = Some (k, v) →
  table !! k = Some v ∧ clause (k, v) = true.
Proof.
  unfold findFirst. intros Hhead.
  apply elem_of_findMany. destruct (findMany clause table) as [|r rows]; [done|].
  simpl in Hhead. injection Hhead as ->. left.
Qed.

Lemma findFirst_None clause table k v :
  findFirst clause table = None → table !! k = Some v → clause (k, v) = false.
Proof.
  unfold findFirst. intros Hhead Hget.
  destruct (clause (k, v)) eqn:Hw; [|done].
  assert ((k, v) ∈ findMany clause table) as Hin by by apply elem_of_findMany.
  destruct (findMany clause table); [by apply elem_of_nil in Hin | done].
Qed.

(** A clause that fixes the primary key selects the row under that
    key, if the rest of the clause accepts it. *)
Lemma findFirst_by_id (rest : string * V → bool) table k :
  findFirst (λ r, bool_decide (r.1 = k) && rest r) table =
  match table !! k with
  | Some v => if rest (k, v) then Some (k, v) else None
  | None => None
  end.
Proof.
  destruct (findFirst _ table) as [[k' v']|] eqn:Hfind.
  - apply findFirst_Some in Hfind as [Hget Hw]. simpl in Hw.
    apply andb_true_iff in Hw as [Hk Hrest]. apply bool_decide_eq_true in Hk.
    subst k'. by rewrite Hget, Hrest.
  - destruct (table !! k) as [v|] eqn:Hget; [|done].
    pose proof (findFirst_None _ _ _ _ Hfind Hget) as Hw. simpl in Hw.
    rewrite bool_decide_eq_true_2 in Hw by done. simpl in Hw. by rewrite Hw.
Qed.

(** Clauses that agree on every row select the same rows. *)
Lemma findMany_ext clause clause2 table :
  (∀ r, clause r = clause2 r) → findMany clause table = findMany clause2 table.
Proof.
  intros Hext. unfold findMany. apply list_filter_iff. intros r.
  by rewrite Hext.
Qed.

(** With a single row of the table satisfying the clause, that row
    is the first one found. *)
Lemma findFirst_unique clause table k v :
  table !! k = Some v → clause (k, v) = true →
  (∀ k' v', table !! k' = Some v' → clause (k', v') = true → k' = k) →
  findFirst clause table = Some (k, v).
Proof.
  intros Hget Hw Huniq.
  destruct (findFirst clause table) as [[k' v']|] eqn:Hfind.
  - apply findFirst_Some in Hfind as [Hget' Hw'].
    pose proof (Huniq _ _ Hget' Hw') as ->. congruence.
  - pose proof (findFirst_None _ _ _ _ Hfind Hget). congruence.
Qed.

End Table.

Lemma skipTake_elem_of {A} skip take_ (rows page : list A) x :
  skipTake skip take_ rows = Some page → x ∈ page → x ∈ rows.
Proof.
  unfold skipTake. destruct (skip <? 0); [done|].
  destruct (take_ <? 0); intros [= <-] Hin.
  - rewrite elem_of_reverse in Hin. apply subseteq_take, subseteq_drop in Hin.
    by rewrite elem_of_reverse in Hin.
  - by apply subseteq_take, subseteq_drop in Hin.
Qed.

Lemma skipTake_forward {A} skip take_ (rows : list A) :
  0 ≤ skip → 0 ≤ take_ →
  skipTake skip take_ rows =
  Some (take (Z.to_nat take_) (drop (Z.to_nat skip) rows)).
Proof.
  intros Hs Ht. unfold skipTake.
  destruct (Z.ltb_spec skip 0); [lia|]. destruct (Z.ltb_spec take_ 0); [lia|]. done.
Qed.

Lemma skipTake_is_Some {A} skip take_ (rows : list A) :
  0 ≤ skip → is_Some (skipTake skip take_ rows).
Proof.
  intros Hs. unfold skipTake. destruct (Z.ltb_spec skip 0); [lia|].
  destruct (take_ <? 0); by eexists.
Qed.

#[global] Instance desc_transitive {A} (column : A → Z) : Transitive (desc column).
Proof. unfold desc. intros a b c. lia. Qed.

#[global] Instance desc_total {A} (column : A → Z) : Total (desc column).
Proof. unfold desc. intros a b. lia. Qed.

Lemma orderByDesc_sorted {A} (column : A → Z) rows :
  StronglySorted (desc column) (orderByDesc column rows).
Proof. unfold orderByDesc. apply StronglySorted_merge_sort; apply _. Qed.

Lemma orderByDesc_perm {A} (column : A → Z) rows : orderByDesc column rows ≡ₚ rows.
Proof. apply merge_sort_Permutation. Qed.

Lemma StronglySorted_take_drop {A} (R : relation A) n k (l : list A) :
  StronglySorted R l → StronglySorted R (take n (drop k l)).
Proof.
  intros Hl. rewrite <- (take_drop k l) in Hl. apply StronglySorted_app_1_r in Hl.
  rewrite <- (take_drop n (drop k l)) in Hl. by apply StronglySorted_app_1_l in Hl.
Qed.

(** The rows a table filter keeps are those a filter of the rows
    keeps. *)
Lemma size_filter_rows {V} (P : string * V → Prop) `{!∀ r, Decision (P r)}
  (table : gmap string V) :
  size (filter P table) = List.length (filter P (map_to_list table)).
Proof.
  rewrite <- length_map_to_list. apply Permutation_length, NoDup_Permutation.
  - apply NoDup_map_to_list.
  - apply NoDup_filter, NoDup_map_to_list.
  - intros [k v]. rewrite list_elem_of_filter, !elem_of_map_to_list.
    rewrite map_lookup_filter_Some. tauto.
Qed.

End StoreFacts.

(** ** The queue gateway *)

Module QueueGatewayFacts.
Import Store Wire Run Registry QueueGateway RunFacts.

Lemma fresh_notification_id (d : Db) :
  notifications d !! fresh (dom (notifications d)) = None.
Proof. apply not_elem_of_dom, is_fresh. Qed.

Lemma notification_create_ok data userIds w :
  fault (db w) = None →
  notification_create data userIds w =
  (Ok (fresh (dom (notifications (db w)))),
   {| db := set_notifications
              (insert (fresh (dom (notifications (db w))))
                 (notification_row data userIds)) (db w);
      clients := clients w;
      log := log w ++ [Prisma "notification" "create"] |}).
Proof. intros Hf. unfold notification_create. by rewrite prisma_ok. Qed.

(** C10. A connection whose token verifies but whose payload has no
    [sub] is told 'Invalid token' and disconnected, and nothing else
    happens: the store is not queried, the registry and the session
    data stay as they were, no room is joined and no success event is
    emitted. *)
Theorem handleConnection_without_subject
  (jwtService_verify : string → string → outcome JWTPayload)
  (jwt_secret : outcome string) (client : Socket)
  (token secret : string) (payload : JWTPayload) (w : World) :
  Js.truthy (extractToken client) = Some token →
  jwt_secret = Ok secret →
  jwtService_verify token secret = Ok payload →
  sub payload = None →
  let rejection :=
    [Emit (id client) EventsEnum_ERROR (Envelope (errorResponse "Invalid token"));
     Disconnect (id client)] in
  let result := handleConnection jwtService_verify jwt_secret client w in
  result = (Ok client, add_log rejection w) ∧
  clients result.2 = clients w ∧
  db result.2 = db w ∧
  (∀ c, result.1 = Ok c → data_userId c = data_userId client) ∧
  (∀ model action, Prisma model action ∉ rejection) ∧
  (∀ socket room, Join socket room ∉ rejection) ∧
  (∀ socket data, Emit socket EventsEnum_SUCCESS data ∉ rejection).
Proof.
  intros Htoken Hsecret Hverify Hsub rejection result.
  assert (result = (Ok client, add_log rejection w)) as Hres.
  { subst result. unfold handleConnection, try_catch.
    rewrite Htoken. unfold mbind, M_bind, bind, lift.
    rewrite Hsecret, Hverify, Hsub. simpl.
    unfold disconnectWithError, emitError, mbind, M_bind, bind.
    by rewrite add_log_app. }
  rewrite Hres. simpl. repeat split.
  - intros c [= <-]. reflexivity.
  - intros model action Hin. subst rejection.
    repeat (apply elem_of_cons in Hin as [Hin|Hin]; [discriminate|]).
    by apply elem_of_nil in Hin.
  - intros socket room Hin. subst rejection.
    repeat (apply elem_of_cons in Hin as [Hin|Hin]; [discriminate|]).
    by apply elem_of_nil in Hin.
  - intros socket data Hin. subst rejection.
    repeat (apply elem_of_cons in Hin as [Hin|Hin]; [discriminate|]).
    by apply elem_of_nil in Hin.
Qed.

Lemma handleConnection_without_subject_witness :
  handleConnection Examples.verify_one (Ok "s3cr3t") Examples.connecting
    Examples.world_connected
  = (Ok Examples.connecting,
     add_log [Emit "s9" EventsEnum_ERROR (Envelope (errorResponse "Invalid token"));
              Disconnect "s9"] Examples.world_connected).
Proof.
  apply (handleConnection_without_subject Examples.verify_one (Ok "s3cr3t")
           Examples.connecting "t0" "s3cr3t" Examples.payload_without_sub
           Examples.world_connected); reflexivity.
Defined.

(** C4. [notifySingleUser] first creates one notification whose only
    recipient is [userId] and then emits to the user's sockets: with
    the store available the call returns after one new row and one
    emission per socket (none for a user without sockets); when the
    creation is rejected the call throws with nothing stored and
    nothing emitted. *)
Theorem notifySingleUser_persists_then_delivers
  (userId event : string) (data : NotificationPayload) (w : World) :
  let sockets := elements (getClients (clients w) userId) in
  let notification_id := fresh (dom (notifications (db w))) in
  let result := notifySingleUser userId event data w in
  (fault (db w) = None →
   result.1 = Ok tt ∧
   notifications (db w) !! notification_id = None ∧
   notifications (db result.2) =
     <[notification_id := notification_row data [userId]]> (notifications (db w)) ∧
   n_users (notification_row data [userId]) = [userId] ∧
   size (notifications (db result.2)) = S (size (notifications (db w))) ∧
   log result.2 =
     log w ++ Prisma "notification" "create"
              :: ((λ socket, Emit socket event (NotificationEvent data notification_id))
                    <$> sockets) ∧
   (getClients (clients w) userId = ∅ →
    log result.2 = log w ++ [Prisma "notification" "create"])) ∧
  (∀ e, fault (db w) = Some e →
        result = (Throw e, add_log [Prisma "notification" "create"] w) ∧
        notifications (db result.2) = notifications (db w) ∧
        (∀ socket ev data, Emit socket ev data ∉ [Prisma "notification" "create"])).
Proof.
  intros sockets notification_id result. split.
  - intros Hf.
    assert (result =
      (Ok tt,
       add_log ((λ socket, Emit socket event (NotificationEvent data notification_id))
                  <$> sockets)
         {| db := set_notifications
                    (insert notification_id (notification_row data [userId])) (db w);
            clients := clients w;
            log := log w ++ [Prisma "notification" "create"] |})) as Hres.
    { subst result. unfold notifySingleUser, mbind, M_bind, bind, getClientsMap.
      rewrite notification_create_ok by done. apply forEach_tell. }
    rewrite Hres. simpl.
    pose proof (fresh_notification_id (db w)) as Hfresh.
    repeat split.
    + exact Hfresh.
    + by apply map_size_insert_None.
    + by rewrite <- app_assoc.
    + intros Hempty. subst sockets. rewrite Hempty, elements_empty. simpl.
      by rewrite app_nil_r.
  - intros e Hf.
    assert (result = (Throw e, add_log [Prisma "notification" "create"] w)) as Hres.
    { subst result. unfold notifySingleUser, mbind, M_bind, bind, getClientsMap.
      unfold notification_create. by rewrite (prisma_fault _ _ _ _ e). }
    rewrite Hres. simpl. repeat split.
    intros socket ev data' Hin. apply list_elem_of_singleton in Hin. discriminate.
Qed.

(** Carol is offline: the row is created, nothing is emitted; with the
    store down nothing is created. *)
Lemma notifySingleUser_persists_then_delivers_witness :
  ((notifySingleUser "c" "queue:notification" Examples.notice
      Examples.world_connected).1 = Ok tt ∧
   size (notifications (db (notifySingleUser "c" "queue:notification" Examples.notice
                              Examples.world_connected).2)) = 1%nat ∧
   log (notifySingleUser "c" "queue:notification" Examples.notice
          Examples.world_connected).2 = [Prisma "notification" "create"]) ∧
  (notifySingleUser "a" "queue:notification" Examples.notice Examples.world_down).1
    = Throw "Can't reach database server".
Proof.
  pose proof (notifySingleUser_persists_then_delivers "c" "queue:notification"
                Examples.notice Examples.world_connected) as [Hup _].
  pose proof (notifySingleUser_persists_then_delivers "a" "queue:notification"
                Examples.notice Examples.world_down) as [_ Hdown].
  destruct (Hup eq_refl) as (Hok & _ & _ & _ & Hsize & _ & Hlog).
  destruct (Hdown "Can't reach database server" eq_refl) as (Hthrow & _).
  split; [|by rewrite Hthrow].
  split; [exact Hok|]. split; [exact Hsize|]. apply Hlog. reflexivity.
Defined.

Lemma connected_empty_iff (c : clients_map) :
  List.length (map_to_list c).*1 = 0%nat ↔ c = ∅.
Proof.
  rewrite length_fmap. rewrite <- map_to_list_empty_iff.
  destruct (map_to_list c); simpl; split; intros; done.
Qed.

(** C3. With no connected user [notifyAllUsers] returns at once: no
    query, no row, no emission.  With connected users it creates one
    notification whose recipients are the keys of the registry, each
    once, and then emits to every socket of every key; when the
    creation is rejected it throws with nothing stored and nothing
    emitted. *)
Theorem notifyAllUsers_connected_recipients
  (event : string) (data : NotificationPayload) (w : World) :
  let userIds := (map_to_list (clients w)).*1 in
  let notification_id := fresh (dom (notifications (db w))) in
  let result := notifyAllUsers event data w in
  (dom (clients w) = ∅ → result = (Ok tt, w)) ∧
  (dom (clients w) ≠ ∅ → fault (db w) = None →
   result.1 = Ok tt ∧
   notifications (db w) !! notification_id = None ∧
   notifications (db result.2) =
     <[notification_id := notification_row data userIds]> (notifications (db w)) ∧
   size (notifications (db result.2)) = S (size (notifications (db w))) ∧
   NoDup (n_users (notification_row data userIds)) ∧
   list_to_set (n_users (notification_row data userIds)) = dom (clients w) ∧
   log result.2 =
     log w ++ Prisma "notification" "create"
              :: (map_to_list (clients w) ≫=
                    (λ entry, (λ socket, Emit socket event
                                           (NotificationEvent data notification_id))
                                <$> elements entry.2))) ∧
  (∀ e, dom (clients w) ≠ ∅ → fault (db w) = Some e →
        result = (Throw e, add_log [Prisma "notification" "create"] w) ∧
        notifications (db result.2) = notifications (db w)).
Proof.
  intros userIds notification_id result. split; [|split].
  - intros Hdom. apply dom_empty_inv_L in Hdom.
    subst result. unfold notifyAllUsers, mbind, M_bind, bind, getClientsMap.
    rewrite bool_decide_eq_true_2; [done|]. by apply connected_empty_iff.
  - intros Hdom Hf.
    assert (clients w ≠ ∅) as Hne.
    { intros Hc. apply Hdom. rewrite Hc. apply dom_empty_L. }
    assert (result =
      (Ok tt,
       add_log (map_to_list (clients w) ≫=
                  (λ entry, (λ socket, Emit socket event
                                         (NotificationEvent data notification_id))
                              <$> elements entry.2))
         {| db := set_notifications
                    (insert notification_id (notification_row data userIds)) (db w);
            clients := clients w;
            log := log w ++ [Prisma "notification" "create"] |})) as Hres.
    { subst result. unfold notifyAllUsers, mbind, M_bind, bind, getClientsMap.
      rewrite bool_decide_eq_false_2; [|by rewrite connected_empty_iff].
      rewrite notification_create_ok by done.
      apply (forEach_forEach_tell (λ entry : string * gset string, elements entry.2)). }
    rewrite Hres. simpl.
    pose proof (fresh_notification_id (db w)) as Hfresh.
    split; [done|]. split; [exact Hfresh|]. split; [done|].
    split; [by apply map_size_insert_None|].
    split; [apply NoDup_fst_map_to_list|].
    split; [symmetry; apply leibniz_equiv, dom_alt|].
    by rewrite <- app_assoc.
  - intros e Hdom Hf.
    assert (clients w ≠ ∅) as Hne.
    { intros Hc. apply Hdom. rewrite Hc. apply dom_empty_L. }
    assert (result = (Throw e, add_log [Prisma "notification" "create"] w)) as Hres.
    { subst result. unfold notifyAllUsers, mbind, M_bind, bind, getClientsMap.
      rewrite bool_decide_eq_false_2; [|by rewrite connected_empty_iff].
      unfold notification_create. by rewrite (prisma_fault _ _ _ _ e). }
    by rewrite Hres.
Qed.

Lemma notifyAllUsers_connected_recipients_witness :
  notifyAllUsers "queue:notification" Examples.notice Examples.world0
    = (Ok tt, Examples.world0) ∧
  size (notifications (db (notifyAllUsers "queue:notification" Examples.notice
                             Examples.world_connected).2)) = 1%nat ∧
  (notifyAllUsers "queue:notification" Examples.notice Examples.world_down).1
    = Throw "Can't reach database server".
Proof.
  assert (dom (clients Examples.world_connected) ≠ ∅) as Hdom.
  { apply (bool_decide_unpack _). vm_compute. exact I. }
  pose proof (notifyAllUsers_connected_recipients "queue:notification"
                Examples.notice Examples.world0) as (Hnone & _ & _).
  pose proof (notifyAllUsers_connected_recipients "queue:notification"
                Examples.notice Examples.world_connected) as (_ & Hsome & _).
  pose proof (notifyAllUsers_connected_recipients "queue:notification"
                Examples.notice Examples.world_down) as (_ & _ & Hdown).
  split; [apply Hnone; reflexivity|].
  split; [apply (Hsome Hdom eq_refl)|].
  destruct (Hdown "Can't reach database server" Hdom eq_refl) as [Hthrow _].
  by rewrite Hthrow.
Defined.

(** *** The handlers and the registry *)

(** The connection handlers touch the registry only through
    [subscribeClient] and [unsubscribeClient], so they keep its
    invariant. *)
Lemma handleConnection_registry_inv verify secret client w :
  registry_inv (clients w) →
  registry_inv (clients (handleConnection verify secret client w).2).
Proof.
  intros Hinv. unfold handleConnection, try_catch.
  destruct (Js.truthy (extractToken client)) as [token|]; [|exact Hinv].
  unfold mbind, M_bind, bind, lift.
  destruct secret as [s|e]; [|exact Hinv].
  destruct (verify token s) as [payload|e]; [|exact Hinv].
  destruct (Js.truthy (sub payload)) as [payload_sub|]; [|exact Hinv].
  unfold prisma, read. destruct (fault (db w)) as [e|]; [exact Hinv|]. simpl.
  destruct (users (db w) !! payload_sub) as [u|]; simpl; [|exact Hinv].
  by apply RegistryFacts.registry_inv_subscribe.
Qed.

Lemma handleDisconnect_registry_inv client w :
  registry_inv (clients w) →
  registry_inv (clients (handleDisconnect client w).2).
Proof.
  intros Hinv. unfold handleDisconnect.
  destruct (Js.truthy (data_userId client)) as [userId|]; [|exact Hinv].
  simpl. by apply RegistryFacts.registry_inv_unsubscribe.
Qed.

(** A connection with a good token for Alice is bound to her, joins her
    room, is registered and greeted. *)
Example handleConnection_accepts :
  let verify := λ token secret : string,
    if bool_decide (token = "t1")
    then Ok {| sub := Some "a"; jwt_email := "Alice@example.org"; jwt_role := "USER" |}
    else Throw "invalid signature" in
  let client := {| id := "s7"; handshake_headers_authorization := None;
                   handshake_auth_token := Some "t1";
                   data_userId := None; data_user := None |} in
  let result := handleConnection verify (Ok "s3cr3t") client Examples.world0 in
  result.1 = Ok {| id := "s7"; handshake_headers_authorization := None;
                   handshake_auth_token := Some "t1"; data_userId := Some "a";
                   data_user := Some {| sub := Some "a"; jwt_email := "Alice@example.org";
                                        jwt_role := "USER" |} |} ∧
  getClients (clients result.2) "a" = {["s7"]} ∧
  log result.2 =
    [Prisma "user" "findUnique"; Join "s7" "a";
     Emit "s7" EventsEnum_SUCCESS
       (Envelope (successResponse
                    (DUser {| au_id := "a"; au_email := "Alice@example.org";
                              au_role := "USER"; au_name := "Alice" |})))].
Proof. repeat split; by vm_compute. Qed.

Example extractToken_bearer :
  extractToken {| id := "s"; handshake_headers_authorization := Some "Bearer abc def";
                  handshake_auth_token := Some "zzz";
                  data_userId := None; data_user := None |} = Some "abc" ∧
  extractToken {| id := "s"; handshake_headers_authorization := Some "";
                  handshake_auth_token := Some "zzz";
                  data_userId := None; data_user := None |} = Some "zzz" ∧
  extractToken {| id := "s"; handshake_headers_authorization := None;
                  handshake_auth_token := None;
                  data_userId := None; data_user := None |} = None.
Proof. repeat split. Qed.

End QueueGatewayFacts.

(** ** The conversation service *)

Module ConversationFacts.
Import Store Wire Run ConversationService RunFacts StoreFacts Spec.

Lemma member_lookup cid userId (table : gmap string PrivateConversation) :
  findFirst (member_where cid userId) table =
  match table !! cid with
  | Some c => if is_participant userId (cid, c) then Some (cid, c) else None
  | None => None
  end.
Proof. apply (findFirst_by_id (is_participant userId)). Qed.

Lemma is_participant_counterpart userId k c :
  is_participant userId (k, c) = true →
  joins userId (counterpart_of userId c) c.
Proof.
  unfold is_participant, counterpart_of, joins. simpl. intros Hp.
  apply orb_true_iff in Hp as [Hp|Hp]; apply bool_decide_eq_true in Hp.
  - rewrite bool_decide_eq_true_2; [by left | done].
  - case_bool_decide; [by left | by right].
Qed.

(** [otherParticipant] is the included user of the counterpart. *)
Lemma otherParticipant_include d userId k c :
  otherParticipant userId (include_participants d (k, c)) =
  include_user d (counterpart_of userId c).
Proof.
  unfold otherParticipant, counterpart_of. simpl.
  by case_bool_decide.
Qed.

(** *** The status update *)

Lemma updateConversationStatus_ok userId cid target c w :
  fault (db w) = None →
  conversations (db w) !! cid = Some c →
  is_participant userId (cid, c) = true →
  updateConversationStatus userId cid target w =
  (Ok (updated_info (db w) userId cid target c),
   {| db := updated_db cid target c (db w); clients := clients w;
      log := log w ++ [Prisma "privateConversation" "findFirst";
                       Prisma "privateConversation" "update"] |}).
Proof.
  intros Hf Hget Hp. unfold updateConversationStatus, mbind, M_bind, bind.
  rewrite prisma_ok by done. simpl. rewrite member_lookup, Hget, Hp.
  rewrite prisma_ok by done. simpl. rewrite Hget. simpl.
  unfold mret, M_ret, ret, info_of, updated_info. simpl.
  rewrite <- app_assoc. simpl.
  f_equal. f_equal. f_equal.
  unfold otherParticipant, counterpart_of, include_user. simpl.
  by case_bool_decide.
Qed.

Lemma updateConversationStatus_miss userId cid target w :
  fault (db w) = None →
  findFirst (member_where cid userId) (conversations (db w)) = None →
  updateConversationStatus userId cid target w =
  (Throw "Conversation not found or unauthorized",
   add_log [Prisma "privateConversation" "findFirst"] w).
Proof.
  intros Hf Hmiss. unfold updateConversationStatus, mbind, M_bind, bind.
  rewrite prisma_ok by done. simpl. rewrite Hmiss. reflexivity.
Qed.

Lemma updated_db_fault cid target c d : fault (updated_db cid target c d) = fault d.
Proof. reflexivity. Qed.

Lemma updated_db_users cid target c d : users (updated_db cid target c d) = users d.
Proof. reflexivity. Qed.

Lemma updated_db_lookup cid target c d :
  conversations (updated_db cid target c d) !! cid = Some (set_status target c).
Proof. unfold updated_db. simpl. apply lookup_insert_eq. Qed.

Lemma archiveConversation_ok client userId cid c w :
  Js.truthy (data_userId client) = Some userId →
  fault (db w) = None →
  conversations (db w) !! cid = Some c →
  is_participant userId (cid, c) = true →
  let info := updated_info (db w) userId cid ARCHIVED c in
  archiveConversation client {| ca_conversationId := cid |} w =
  (Ok (successResponse (DInfo info)),
   {| db := updated_db cid ARCHIVED c (db w); clients := clients w;
      log := log w ++ [Prisma "privateConversation" "findFirst";
                       Prisma "privateConversation" "update";
                       Emit (id client) EventsEnum_CONVERSATION_UPDATE
                         (Envelope (successResponse (DInfo info)))] |}).
Proof.
  intros Hu Hf Hget Hp info. unfold archiveConversation, try_catch.
  rewrite Hu. unfold mbind, M_bind, bind. simpl.
  rewrite (updateConversationStatus_ok _ _ _ c) by done.
  unfold add_log. simpl. by rewrite <- app_assoc.
Qed.

(** [blockConversation] and [unblockConversation] differ in the status
    and in the action they announce. *)
Lemma blockConversation_ok client userId cid c (p : Participant) w :
  Js.truthy (data_userId client) = Some userId →
  fault (db w) = None →
  conversations (db w) !! cid = Some c →
  is_participant userId (cid, c) = true →
  include_user (db w) (counterpart_of userId c) = Some p →
  let info := updated_info (db w) userId cid BLOCKED c in
  blockConversation client {| ca_conversationId := cid |} w =
  (Ok (successResponse (DInfo info)),
   {| db := updated_db cid BLOCKED c (db w); clients := clients w;
      log := log w ++ [Prisma "privateConversation" "findFirst";
                       Prisma "privateConversation" "update";
                       Emit (id client) EventsEnum_CONVERSATION_UPDATE
                         (Envelope (successResponse (DInfo info)));
                       EmitToUserFirstSocket (counterpart_of userId c)
                         EventsEnum_CONVERSATION_UPDATE
                         (Envelope (successResponse (DAction cid "blocked")))] |}).
Proof.
  intros Hu Hf Hget Hp Hother info. unfold blockConversation, try_catch.
  rewrite Hu. unfold mbind, M_bind, bind. simpl.
  rewrite (updateConversationStatus_ok _ _ _ c) by done.
  simpl. rewrite Hother. simpl.
  unfold add_log. simpl. rewrite <- !app_assoc. simpl.
  unfold include_user in Hother. destruct (users (db w) !! _); [|done].
  simpl in Hother. injection Hother as <-. reflexivity.
Qed.

Lemma unblockConversation_ok client userId cid c (p : Participant) w :
  Js.truthy (data_userId client) = Some userId →
  fault (db w) = None →
  conversations (db w) !! cid = Some c →
  is_participant userId (cid, c) = true →
  include_user (db w) (counterpart_of userId c) = Some p →
  let info := updated_info (db w) userId cid ACTIVE c in
  unblockConversation client {| ca_conversationId := cid |} w =
  (Ok (successResponse (DInfo info)),
   {| db := updated_db cid ACTIVE c (db w); clients := clients w;
      log := log w ++ [Prisma "privateConversation" "findFirst";
                       Prisma "privateConversation" "update";
                       Emit (id client) EventsEnum_CONVERSATION_UPDATE
                         (Envelope (successResponse (DInfo info)));
                       EmitToUserFirstSocket (counterpart_of userId c)
                         EventsEnum_CONVERSATION_UPDATE
                         (Envelope (successResponse (DAction cid "unblocked")))] |}).
Proof.
  intros Hu Hf Hget Hp Hother info. unfold unblockConversation, try_catch.
  rewrite Hu. unfold mbind, M_bind, bind. simpl.
  rewrite (updateConversationStatus_ok _ _ _ c) by done.
  simpl. rewrite Hother. simpl.
  unfold add_log. simpl. rewrite <- !app_assoc. simpl.
  unfold include_user in Hother. destruct (users (db w) !! _); [|done].
  simpl in Hother. injection Hother as <-. reflexivity.
Qed.

Lemma deleteConversation_ok client userId cid c w :
  Js.truthy (data_userId client) = Some userId →
  fault (db w) = None →
  conversations (db w) !! cid = Some c →
  is_participant userId (cid, c) = true →
  deleteConversation client {| ca_conversationId := cid |} w =
  (Ok (successResponse DSuccessTrue),
   {| db := set_conversations (delete cid) (db w); clients := clients w;
      log := log w ++ [Prisma "privateConversation" "findFirst";
                       Prisma "privateConversation" "delete";
                       Emit (id client) EventsEnum_SUCCESS
                         (Envelope (successResponse DSuccessTrue));
                       EmitToUserFirstSocket (counterpart_of userId c)
                         EventsEnum_CONVERSATION_UPDATE
                         (Envelope (successResponse (DAction cid "deleted")))] |}).
Proof.
  intros Hu Hf Hget Hp. unfold deleteConversation, try_catch.
  rewrite Hu. unfold mbind, M_bind, bind. simpl.
  rewrite prisma_ok by done. simpl. rewrite member_lookup, Hget, Hp.
  rewrite prisma_ok by done. simpl. rewrite Hget. simpl.
  unfold add_log. simpl. rewrite <- !app_assoc. reflexivity.
Qed.

(** *** Pushes to the counterpart *)

Lemma updateConversationStatus_log userId cid target w :
  ∃ es, log (updateConversationStatus userId cid target w).2 = log w ++ es ∧
        Forall (λ e, is_push e = false) es.
Proof.
  unfold updateConversationStatus, mbind, M_bind, bind, prisma, read.
  destruct (fault (db w)) eqn:Hf; simpl.
  - eexists. split; [reflexivity|]. by repeat constructor.
  - destruct (findFirst _ _) eqn:Hfind; simpl.
    + rewrite Hf. destruct (conversations (db w) !! cid); simpl;
        (eexists; split; [by rewrite <- app_assoc|]; by repeat constructor).
    + eexists. split; [reflexivity|]. by repeat constructor.
Qed.

Lemma archiveConversation_log client dto w :
  ∃ es, log (archiveConversation client dto w).2 = log w ++ es ∧
        Forall (λ e, is_push e = false) es.
Proof.
  unfold archiveConversation, try_catch.
  destruct (Js.truthy (data_userId client)) as [userId|]; simpl.
  - unfold mbind, M_bind, bind.
    destruct (updateConversationStatus_log userId (ca_conversationId dto) ARCHIVED w)
      as (es & Hlog & Hes).
    destruct (updateConversationStatus _ _ _ w) as [[info|e] w']; simpl in *.
    + rewrite Hlog. eexists. split; [by rewrite <- app_assoc|].
      apply Forall_app. split; [done|]. by repeat constructor.
    + rewrite Hlog. eexists. split; [by rewrite <- app_assoc|].
      apply Forall_app. split; [done|]. by repeat constructor.
  - eexists. split; [reflexivity|]. by repeat constructor.
Qed.

(** C1 (fails on archive). [archiveConversation] never asks the chat
    gateway to push anything to the counterpart, whatever the input:
    its log grows by store calls and emissions to the caller only.  On
    the sample store Alice's archive of c1 succeeds and reaches her
    socket alone, while her block, unblock and delete of the same
    conversation each push the action to Bob. *)
Theorem archiveConversation_never_pushes :
  (∀ client dto w,
     ∃ es, log (archiveConversation client dto w).2 = log w ++ es ∧
           Forall (λ e, is_push e = false) es) ∧
  (let dto := {| ca_conversationId := "c1" |} in
   let info := updated_info Examples.db0 "a" "c1" ARCHIVED
                 (Examples.conversation "a" "b" ACTIVE 5) in
   (archiveConversation Examples.alice dto Examples.world0).1
     = Ok (successResponse (DInfo info)) ∧
   log (archiveConversation Examples.alice dto Examples.world0).2
     = [Prisma "privateConversation" "findFirst";
        Prisma "privateConversation" "update";
        Emit "s1" EventsEnum_CONVERSATION_UPDATE
          (Envelope (successResponse (DInfo info)))] ∧
   filter (λ e, is_push e = true)
     (log (blockConversation Examples.alice dto Examples.world0).2)
     = [EmitToUserFirstSocket "b" EventsEnum_CONVERSATION_UPDATE
          (Envelope (successResponse (DAction "c1" "blocked")))] ∧
   filter (λ e, is_push e = true)
     (log (unblockConversation Examples.alice dto Examples.world0).2)
     = [EmitToUserFirstSocket "b" EventsEnum_CONVERSATION_UPDATE
          (Envelope (successResponse (DAction "c1" "unblocked")))] ∧
   filter (λ e, is_push e = true)
     (log (deleteConversation Examples.alice dto Examples.world0).2)
     = [EmitToUserFirstSocket "b" EventsEnum_CONVERSATION_UPDATE
          (Envelope (successResponse (DAction "c1" "deleted")))]).
Proof.
  split; [apply archiveConversation_log|].
  repeat split; by vm_compute.
Qed.

(** *** Access control *)

Lemma loadSingleConversation_miss client userId dto w :
  Js.truthy (data_userId client) = Some userId →
  fault (db w) = None →
  findFirst (member_where (ls_conversationId dto) userId) (conversations (db w)) = None →
  let failure := errorResponse "Conversation not found or unauthorized" in
  loadSingleConversation client dto w =
  (Ok failure,
   add_log [Prisma "privateConversation" "findFirst";
            Emit (id client) EventsEnum_ERROR (Envelope failure)] w).
Proof.
  intros Hu Hf Hmiss failure. unfold loadSingleConversation, try_catch.
  rewrite Hu. unfold mbind, M_bind, bind.
  rewrite prisma_ok by done. simpl. rewrite Hmiss. simpl.
  unfold add_log. simpl. by rewrite <- app_assoc.
Qed.

Lemma member_miss_stranger cid userId c (table : gmap string PrivateConversation) :
  table !! cid = Some c → initiatorId c ≠ userId → receiverId c ≠ userId →
  findFirst (member_where cid userId) table = None.
Proof.
  intros Hget Hi Hr. rewrite member_lookup, Hget. unfold is_participant. simpl.
  by rewrite !bool_decide_eq_false_2.
Qed.

Lemma member_miss_absent cid userId (table : gmap string PrivateConversation) :
  table !! cid = None → findFirst (member_where cid userId) table = None.
Proof. intros Hget. by rewrite member_lookup, Hget. Qed.

(** C5. For a caller who is not a participant of an existing
    conversation and for a conversation id that does not exist,
    [loadSingleConversation] answers alike: the same error envelope
    with the message 'Conversation not found or unauthorized' is
    returned and emitted to the caller after the same single query, and
    the status update throws that same message in both cases. *)
Theorem loadSingleConversation_opaque client userId dto c w1 w2 :
  Js.truthy (data_userId client) = Some userId →
  fault (db w1) = None →
  fault (db w2) = None →
  conversations (db w1) !! ls_conversationId dto = Some c →
  initiatorId c ≠ userId →
  receiverId c ≠ userId →
  conversations (db w2) !! ls_conversationId dto = None →
  let failure := errorResponse "Conversation not found or unauthorized" in
  let sent := [Prisma "privateConversation" "findFirst";
               Emit (id client) EventsEnum_ERROR (Envelope failure)] in
  loadSingleConversation client dto w1 = (Ok failure, add_log sent w1) ∧
  loadSingleConversation client dto w2 = (Ok failure, add_log sent w2) ∧
  (∀ target,
     (updateConversationStatus userId (ls_conversationId dto) target w1).1
       = Throw "Conversation not found or unauthorized" ∧
     (updateConversationStatus userId (ls_conversationId dto) target w2).1
       = Throw "Conversation not found or unauthorized").
Proof.
  intros Hu Hf1 Hf2 Hget1 Hi Hr Hget2 failure sent.
  pose proof (member_miss_stranger _ _ _ _ Hget1 Hi Hr) as Hmiss1.
  pose proof (member_miss_absent _ userId _ Hget2) as Hmiss2.
  split; [by apply (loadSingleConversation_miss _ userId)|].
  split; [by apply (loadSingleConversation_miss _ userId)|].
  intros target. by rewrite !updateConversationStatus_miss.
Qed.

(** Carol asks for c1, which is Alice's and Bob's, and for c1 in a
    store that has no such conversation. *)
Lemma loadSingleConversation_opaque_witness :
  let dto := {| ls_conversationId := "c1"; ls_page := None; ls_limit := None |} in
  (loadSingleConversation Examples.carol dto Examples.world0).1
  = (loadSingleConversation Examples.carol dto Examples.world_without_c1).1 ∧
  log (loadSingleConversation Examples.carol dto Examples.world0).2
  = log (loadSingleConversation Examples.carol dto Examples.world_without_c1).2.
Proof.
  intros dto.
  destruct (loadSingleConversation_opaque Examples.carol "c"
              dto (Examples.conversation "a" "b" ACTIVE 5)
              Examples.world0 Examples.world_without_c1)
    as (H1 & H2 & _); [reflexivity..|discriminate|discriminate|reflexivity|].
  rewrite H1, H2. split; reflexivity.
Defined.

(** Alice reads c1 two messages at a time: the first page holds the two
    newest messages, the older one first. *)
Example loadSingleConversation_newest_page :
  match (loadSingleConversation Examples.alice
           {| ls_conversationId := "c1"; ls_page := Some 1; ls_limit := Some 2 |}
           Examples.world0).1 with
  | Ok (successResponse (DConversation conversation messages_ pagination)) =>
      ci_id conversation = "c1" ∧
      p_id <$> ci_participant conversation = Some "b" ∧
      mv_id <$> messages_ = ["m3"; "m4"] ∧
      pg_total pagination = 4 ∧
      pg_totalPages pagination = Js.Finite 2
  | _ => False
  end.
Proof. vm_compute. repeat split. Qed.

(** *** Status transitions *)

(** C8. For a participant of a conversation, whatever its status,
    [archiveConversation], [blockConversation] and
    [unblockConversation] return the updated projection and leave the
    row at ARCHIVED, BLOCKED and ACTIVE; each of them does so again
    right after any of the three, so blocking twice succeeds twice and
    leaves BLOCKED. *)
Theorem status_operations_any_prior_status client userId cid c (p : Participant) w :
  Js.truthy (data_userId client) = Some userId →
  fault (db w) = None →
  conversations (db w) !! cid = Some c →
  is_participant userId (cid, c) = true →
  include_user (db w) (counterpart_of userId c) = Some p →
  let dto := {| ca_conversationId := cid |} in
  let succeeds (op : Socket → ConversationActionDto → M TResponse)
        (target : ConversationStatus) (w0 : World) :=
    (∃ info, (op client dto w0).1 = Ok (successResponse (DInfo info)) ∧
             ci_id info = cid ∧ ci_status info = target) ∧
    status <$> conversations (db (op client dto w0).2) !! cid = Some target in
  let operations :=
    [(archiveConversation, ARCHIVED); (blockConversation, BLOCKED);
     (unblockConversation, ACTIVE)] in
  (∀ op target, (op, target) ∈ operations →
     succeeds op target w ∧
     ∀ op2 target2, (op2, target2) ∈ operations →
       succeeds op2 target2 (op client dto w).2) ∧
  succeeds blockConversation BLOCKED (blockConversation client dto w).2.
Proof.
  intros Hu Hf Hget Hp Hother dto succeeds operations.
  assert (∀ c0 w0,
    fault (db w0) = None → conversations (db w0) !! cid = Some c0 →
    is_participant userId (cid, c0) = true →
    include_user (db w0) (counterpart_of userId c0) = Some p →
    ∀ op target, (op, target) ∈ operations →
      succeeds op target w0 ∧
      db (op client dto w0).2 = updated_db cid target c0 (db w0)) as Hstep.
  { intros c0 w0 Hf0 Hget0 Hp0 Hother0 op target Hin.
    subst operations succeeds dto. cbv beta.
    apply elem_of_cons in Hin as [[= -> ->]|Hin];
      [|apply elem_of_cons in Hin as [[= -> ->]|Hin];
        [|apply list_elem_of_singleton in Hin as [= -> ->]]].
    - rewrite (archiveConversation_ok _ userId _ c0) by done. simpl.
      rewrite lookup_insert_eq. split; [|done]. split; [|done].
      eexists. split; [reflexivity|]. done.
    - rewrite (blockConversation_ok _ userId _ c0 p) by done. simpl.
      rewrite lookup_insert_eq. split; [|done]. split; [|done].
      eexists. split; [reflexivity|]. done.
    - rewrite (unblockConversation_ok _ userId _ c0 p) by done. simpl.
      rewrite lookup_insert_eq. split; [|done]. split; [|done].
      eexists. split; [reflexivity|]. done. }
  assert (∀ op target, (op, target) ∈ operations →
    succeeds op target w ∧
    ∀ op2 target2, (op2, target2) ∈ operations →
      succeeds op2 target2 (op client dto w).2) as Hall.
  { intros op target Hin.
    destruct (Hstep c w Hf Hget Hp Hother op target Hin) as [Hok Hdb].
    split; [exact Hok|]. intros op2 target2 Hin2.
    apply (Hstep (set_status target c)); [| | |  |exact Hin2].
    - by rewrite Hdb.
    - rewrite Hdb. apply updated_db_lookup.
    - exact Hp.
    - rewrite Hdb. exact Hother. }
  split; [exact Hall|].
  apply (Hall blockConversation BLOCKED); subst operations.
  - apply list_elem_of_further, list_elem_of_here.
  - apply list_elem_of_further, list_elem_of_here.
Qed.

Lemma status_operations_any_prior_status_witness :
  let dto := {| ca_conversationId := "c1" |} in
  status <$> conversations
               (db (blockConversation Examples.alice dto
                      (blockConversation Examples.alice dto Examples.world0).2).2)
             !! "c1"
  = Some BLOCKED.
Proof.
  intros dto.
  destruct (status_operations_any_prior_status Examples.alice "a" "c1"
              (Examples.conversation "a" "b" ACTIVE 5)
              {| p_id := "b"; p_name := "Bob"; p_email := "Bob@example.org";
                 p_profilePictureId := None |}
              Examples.world0) as [_ [_ Htwice]]; [reflexivity..|].
  exact Htwice.
Defined.

(** *** Initiating a conversation *)

Lemma pair_where_sym a b r : pair_where a b r = pair_where b a r.
Proof. unfold pair_where. apply orb_comm. Qed.

Lemma pair_where_joins a b k c : pair_where a b (k, c) = true ↔ joins a b c.
Proof.
  unfold pair_where, joins. simpl.
  rewrite orb_true_iff, !andb_true_iff, !bool_decide_eq_true. tauto.
Qed.

Lemma joins_same_pair a b c1 c2 : joins a b c1 → joins a b c2 → same_pair c1 c2.
Proof.
  unfold joins, same_pair.
  intros [[H1 H2]|[H1 H2]] [[H3 H4]|[H3 H4]];
    [left|right|right|left]; split; congruence.
Qed.

Lemma same_pair_joins a b c1 c2 : joins a b c1 → same_pair c1 c2 → joins a b c2.
Proof.
  unfold joins, same_pair.
  intros [[H1 H2]|[H1 H2]] [[H3 H4]|[H3 H4]];
    [left|right|right|left]; split; congruence.
Qed.

Lemma same_pair_sym c1 c2 : same_pair c1 c2 → same_pair c2 c1.
Proof. unfold same_pair. intros [[H1 H2]|[H1 H2]]; [left|right]; by split. Qed.

Lemma joins_counterpart a b c : a ≠ b → joins a b c →
  counterpart_of a c = b ∧ counterpart_of b c = a.
Proof.
  unfold joins, counterpart_of. intros Hne [[<- <-]|[<- <-]].
  - rewrite bool_decide_eq_true_2, bool_decide_eq_false_2; done.
  - rewrite bool_decide_eq_false_2, bool_decide_eq_true_2; done.
Qed.

Lemma initiate_found client userId target k c (p : Participant) w :
  Js.truthy (data_userId client) = Some userId →
  userId ≠ target →
  fault (db w) = None →
  findFirst (pair_where userId target) (conversations (db w)) = Some (k, c) →
  include_user (db w) (counterpart_of userId c) = Some p →
  let answer := successResponse (DInitiated (initiated (db w) userId k c)) in
  initiateConversationWithUser client {| iu_userId := target |} w =
  (Ok answer,
   add_log [Prisma "privateConversation" "findFirst";
            Emit (id client) EventsEnum_SUCCESS (Envelope answer);
            EmitToUserFirstSocket (counterpart_of userId c)
              EventsEnum_CONVERSATION_UPDATE (Envelope answer)] w).
Proof.
  intros Hu Hne Hf Hfind Hother answer.
  unfold initiateConversationWithUser, try_catch. rewrite Hu. simpl.
  rewrite bool_decide_eq_false_2 by done.
  unfold mbind, M_bind, bind. rewrite prisma_ok by done. simpl.
  rewrite Hfind. simpl.
  unfold initiate_respond, mbind, M_bind, bind. simpl.
  assert (otherParticipant userId (include_initiate (db w) (k, c))
          = include_user (db w) (counterpart_of userId c)) as Hop.
  { unfold otherParticipant, counterpart_of. simpl. by case_bool_decide. }
  rewrite Hop, Hother. simpl.
  unfold add_log, answer, initiated. simpl. rewrite Hother, <- !app_assoc. simpl.
  unfold include_user in Hother. destruct (users (db w) !! _); [|done].
  simpl in Hother. injection Hother as <-. reflexivity.
Qed.

Lemma initiate_created client userId target (u : User) w :
  Js.truthy (data_userId client) = Some userId →
  userId ≠ target →
  fault (db w) = None →
  findFirst (pair_where userId target) (conversations (db w)) = None →
  users (db w) !! target = Some u →
  let k := fresh (dom (conversations (db w))) in
  let row := created_row (db w) userId target in
  let d := set_conversations (insert k row) (db w) in
  let answer := successResponse (DInitiated (initiated d userId k row)) in
  initiateConversationWithUser client {| iu_userId := target |} w =
  (Ok answer,
   {| db := d; clients := clients w;
      log := log w ++ [Prisma "privateConversation" "findFirst";
                       Prisma "user" "findUnique";
                       Prisma "privateConversation" "create";
                       Emit (id client) EventsEnum_SUCCESS (Envelope answer);
                       EmitToUserFirstSocket target
                         EventsEnum_CONVERSATION_UPDATE (Envelope answer)] |}).
Proof.
  intros Hu Hne Hf Hfind Htarget k row d answer.
  unfold initiateConversationWithUser, try_catch. rewrite Hu. simpl.
  rewrite bool_decide_eq_false_2 by done.
  unfold mbind, M_bind, bind. rewrite prisma_ok by done. simpl.
  rewrite Hfind. simpl.
  rewrite prisma_ok by done. simpl. rewrite Htarget.
  unfold conversation_create. rewrite prisma_ok by done. simpl.
  unfold initiate_respond, mbind, M_bind, bind, otherParticipant. simpl.
  rewrite bool_decide_eq_true_2 by done.
  unfold include_user. simpl. rewrite Htarget. simpl.
  unfold add_log, answer, initiated, counterpart_of, include_user. simpl.
  rewrite bool_decide_eq_true_2 by done. rewrite Htarget. simpl.
  rewrite <- !app_assoc. reflexivity.
Qed.

Lemma initiate_target_missing client userId target w :
  Js.truthy (data_userId client) = Some userId →
  userId ≠ target →
  fault (db w) = None →
  findFirst (pair_where userId target) (conversations (db w)) = None →
  users (db w) !! target = None →
  let failure := errorResponse "Target user not found" in
  initiateConversationWithUser client {| iu_userId := target |} w =
  (Ok failure,
   add_log [Prisma "privateConversation" "findFirst";
            Prisma "user" "findUnique";
            Emit (id client) EventsEnum_ERROR (Envelope failure)] w).
Proof.
  intros Hu Hne Hf Hfind Htarget failure.
  unfold initiateConversationWithUser, try_catch. rewrite Hu. simpl.
  rewrite bool_decide_eq_false_2 by done.
  unfold mbind, M_bind, bind. rewrite prisma_ok by done. simpl.
  rewrite Hfind. simpl.
  rewrite prisma_ok by done. simpl. rewrite Htarget. simpl.
  unfold add_log. simpl. rewrite <- !app_assoc. reflexivity.
Qed.

Lemma findFirst_pair_sym a b (table : gmap string PrivateConversation) :
  findFirst (pair_where a b) table = findFirst (pair_where b a) table.
Proof.
  unfold findFirst. f_equal. apply findMany_ext. intros r. apply pair_where_sym.
Qed.

(** After a creation for a pair without a row, the new row is the one
    the bidirectional lookup finds. *)
Lemma findFirst_pair_created a b k row (table : gmap string PrivateConversation) :
  findFirst (pair_where a b) table = None →
  joins a b row →
  findFirst (pair_where a b) (<[k := row]> table) = Some (k, row).
Proof.
  intros Hnone Hrow. apply findFirst_unique.
  - apply lookup_insert_eq.
  - by apply pair_where_joins.
  - intros k' c' Hget Hw. destruct (decide (k' = k)) as [->|Hne]; [done|].
    rewrite lookup_insert_ne in Hget by done.
    pose proof (findFirst_None _ _ _ _ Hnone Hget). congruence.
Qed.

Lemma pair_unique_created a b k row (table : gmap string PrivateConversation) :
  findFirst (pair_where a b) table = None →
  joins a b row →
  pair_unique table → pair_unique (<[k := row]> table).
Proof.
  intros Hnone Hrow Huniq k1 k2 c1 c2 Hget1 Hget2 Hsame.
  assert (∀ k' c', table !! k' = Some c' → ¬ joins a b c') as Hfree.
  { intros k' c' Hget Hj. apply (pair_where_joins a b k') in Hj.
    pose proof (findFirst_None _ _ _ _ Hnone Hget). congruence. }
  destruct (decide (k1 = k)) as [->|Hne1], (decide (k2 = k)) as [->|Hne2]; [done| | |].
  - rewrite lookup_insert_eq in Hget1. injection Hget1 as <-.
    rewrite lookup_insert_ne in Hget2 by done.
    destruct (Hfree _ _ Hget2). by apply (same_pair_joins a b row).
  - rewrite lookup_insert_eq in Hget2. injection Hget2 as <-.
    rewrite lookup_insert_ne in Hget1 by done.
    destruct (Hfree _ _ Hget1). apply (same_pair_joins a b row); [done|].
    by apply same_pair_sym.
  - rewrite lookup_insert_ne in Hget1, Hget2 by done. by eapply Huniq.
Qed.

(** C2. For distinct users A and B, with the store available and the
    participants of its rows present as users:
    - when a row joining A and B in either order exists, the call
      answers with such an existing row and changes no table; it is
      the given row when rows are unique per pair;
    - when B is a user, the call succeeds;
    - after a successful call, a second call by A for B or by B for A
      answers with the same conversation id and leaves the table as
      the first call left it;
    - the call keeps the rows unique per unordered pair. *)
Theorem initiate_idempotent_symmetric clientA clientB A B w :
  Js.truthy (data_userId clientA) = Some A →
  Js.truthy (data_userId clientB) = Some B →
  A ≠ B →
  fault (db w) = None →
  refs_ok (db w) →
  is_Some (users (db w) !! A) →
  let first := initiateConversationWithUser clientA {| iu_userId := B |} w in
  (∀ k c, conversations (db w) !! k = Some c → joins A B c →
     ∃ k' c' result,
       conversations (db w) !! k' = Some c' ∧ joins A B c' ∧
       first.1 = Ok (successResponse (DInitiated result)) ∧ ir_id result = k' ∧
       db first.2 = db w ∧
       (pair_unique (conversations (db w)) → k' = k)) ∧
  (is_Some (users (db w) !! B) →
     ∃ result, first.1 = Ok (successResponse (DInitiated result))) ∧
  (∀ result, first.1 = Ok (successResponse (DInitiated result)) →
     ∀ second,
       second = initiateConversationWithUser clientA {| iu_userId := B |} first.2 ∨
       second = initiateConversationWithUser clientB {| iu_userId := A |} first.2 →
       ∃ result2,
         second.1 = Ok (successResponse (DInitiated result2)) ∧
         ir_id result2 = ir_id result ∧
         conversations (db second.2) = conversations (db first.2)) ∧
  (pair_unique (conversations (db w)) → pair_unique (conversations (db first.2))).
Proof.
  intros HA HB Hne Hf Hrefs HuserA first.
  assert (B ≠ A) as Hne' by congruence.
  destruct (findFirst (pair_where A B) (conversations (db w))) as [[k0 c0]|] eqn:Hfind.
  - (* a row is found *)
    pose proof (findFirst_Some _ _ _ _ Hfind) as [Hget0 Hw0].
    apply pair_where_joins in Hw0.
    destruct (joins_counterpart _ _ _ Hne Hw0) as [HcA HcB].
    destruct (Hrefs _ _ Hget0) as [Hi Hr].
    assert (is_Some (users (db w) !! B)) as HuserB.
    { destruct Hw0 as [[_ <-]|[<- _]]; done. }
    destruct HuserA as [uA HuA], HuserB as [uB HuB].
    assert (∃ p, include_user (db w) (counterpart_of A c0) = Some p) as [pB HpB].
    { rewrite HcA. unfold include_user. rewrite HuB. by eexists. }
    assert (∃ p, include_user (db w) (counterpart_of B c0) = Some p) as [pA HpA].
    { rewrite HcB. unfold include_user. rewrite HuA. by eexists. }
    assert (first = _) as Hfirst
      by exact (initiate_found clientA A B k0 c0 pB w HA Hne Hf Hfind HpB).
    rewrite Hfirst. simpl. repeat split.
    + intros k c Hget Hj. exists k0, c0. eexists. repeat split; [done..|].
      intros Huniq. apply (Huniq k0 k c0 c); [done..|]. by apply (joins_same_pair A B).
    + intros _. by eexists.
    + intros result [= <-] second [->| ->].
      * rewrite (initiate_found clientA A B k0 c0 pB) by done. simpl. by eexists.
      * rewrite (initiate_found clientB B A k0 c0 pA); [|done..| |done].
        -- simpl. by eexists.
        -- simpl. by rewrite <- findFirst_pair_sym.
    + done.
  - (* no row joins A and B *)
    destruct (users (db w) !! B) as [uB|] eqn:HuB.
    + (* the row is created *)
      set (k1 := fresh (dom (conversations (db w)))).
      set (row := created_row (db w) A B).
      assert (joins A B row) as Hrow by (by left).
      assert (first = _) as Hfirst
        by exact (initiate_created clientA A B uB w HA Hne Hf Hfind HuB).
      rewrite Hfirst. simpl. fold k1 row. repeat split.
      * intros k c Hget Hj. apply (pair_where_joins A B k) in Hj.
        pose proof (findFirst_None _ _ _ _ Hfind Hget). congruence.
      * intros _. by eexists.
      * pose proof (findFirst_pair_created A B k1 row _ Hfind Hrow) as Hfound.
        destruct HuserA as [uA HuA].
        destruct (joins_counterpart _ _ _ Hne Hrow) as [HcA HcB].
        intros result [= <-] second [->| ->].
        -- erewrite (initiate_found clientA A B k1 row); [| done..| |].
           ++ simpl. by eexists.
           ++ exact Hfound.
           ++ rewrite HcA. unfold include_user. simpl. rewrite HuB. reflexivity.
        -- erewrite (initiate_found clientB B A k1 row); [| done..| |].
           ++ simpl. by eexists.
           ++ simpl. rewrite <- findFirst_pair_sym. exact Hfound.
           ++ rewrite HcB. unfold include_user. simpl. rewrite HuA. reflexivity.
      * by apply (pair_unique_created A B).
    + (* the target is not a user *)
      assert (first = _) as Hfirst
        by exact (initiate_target_missing clientA A B w HA Hne Hf Hfind HuB).
      rewrite Hfirst. simpl. repeat split.
      * intros k c Hget Hj. apply (pair_where_joins A B k) in Hj.
        pose proof (findFirst_None _ _ _ _ Hfind Hget). congruence.
      * by intros [? ?].
      * intros result [=].
      * done.
Qed.

(** Alice opens a conversation with Carol; Carol then opens one with
    Alice. *)
Lemma initiate_idempotent_symmetric_witness :
  let first := initiateConversationWithUser Examples.alice
                 {| iu_userId := "c" |} Examples.world0 in
  ∃ result result2,
    first.1 = Ok (successResponse (DInitiated result)) ∧
    (initiateConversationWithUser Examples.carol {| iu_userId := "a" |} first.2).1
      = Ok (successResponse (DInitiated result2)) ∧
    ir_id result2 = ir_id result.
Proof.
  intros first.
  assert (refs_ok (db Examples.world0)) as Hrefs.
  { apply (bool_decide_unpack _). vm_compute. exact I. }
  destruct (initiate_idempotent_symmetric Examples.alice Examples.carol "a" "c"
              Examples.world0) as (_ & Hfirst & Htwice & _);
    [reflexivity|reflexivity|discriminate|reflexivity|exact Hrefs|by eexists|].
  destruct Hfirst as [result Hresult]; [by eexists|].
  destruct (Htwice result Hresult _ (or_intror eq_refl)) as (result2 & H2 & Hid & _).
  by exists result, result2.
Defined.

(** *** The list of conversations *)

Lemma loadConversations_ok client userId dto rows w :
  Js.truthy (data_userId client) = Some userId →
  fault (db w) = None →
  let page := default 1 (lc_page dto) in
  let limit := default 20 (lc_limit dto) in
  let selected :=
    findMany (whereClause (db w) userId (lc_search dto)) (conversations (db w)) in
  skipTake ((page - 1) * limit) limit
    (include_list (db w) userId <$> orderByDesc (λ r, updatedAt r.2) selected)
    = Some rows →
  let result :=
    DConversations (transform userId <$> rows)
      {| pg_page := page; pg_limit := limit;
         pg_total := Z.of_nat (List.length selected);
         pg_totalPages := Js.Math_ceil_div (Z.of_nat (List.length selected)) limit |} in
  loadConversations client dto w =
  (Ok (successResponse result),
   add_log [Prisma "privateConversation" "findMany";
            Prisma "privateConversation" "count";
            Emit (id client) EventsEnum_CONVERSATION_LIST_RESPONSE
              (Envelope (successResponse result))] w).
Proof.
  intros Hu Hf page limit selected Hpage result.
  unfold loadConversations, try_catch. rewrite Hu.
  unfold mbind, M_bind, bind, promise_all.
  rewrite prisma_ok by done. simpl. unfold page_of. fold page limit selected.
  rewrite Hpage. simpl.
  rewrite prisma_ok by done. simpl.
  unfold add_log. simpl. rewrite <- !app_assoc. reflexivity.
Qed.

Lemma unread_status_spec userId s :
  unread_status userId s = true ↔ ms_userId s = userId ∧ ms_status s ≠ "READ".
Proof.
  unfold unread_status.
  by rewrite andb_true_iff, negb_true_iff, bool_decide_eq_true, bool_decide_eq_false.
Qed.

Lemma unread_where_spec userId cid (r : string * PrivateMessage) :
  bool_decide (conversationId r.2 = cid) && unread_where userId r.2 = true ↔
  unread_for userId cid r.2.
Proof.
  unfold unread_where, unread_for.
  rewrite !andb_true_iff, negb_true_iff, bool_decide_eq_true, bool_decide_eq_false.
  rewrite existsb_exists, Exists_exists.
  setoid_rewrite <- list_elem_of_In. setoid_rewrite unread_status_spec. tauto.
Qed.

(** The count the transformation reports is the specified one. *)
Lemma transform_unreadCount d userId (r : string * PrivateConversation) :
  cs_unreadCount (transform userId (include_list d userId r)) = unread_count d userId r.1.
Proof.
  unfold transform, include_list, unread_count. simpl.
  rewrite length_fmap, size_filter_rows. unfold findMany. f_equal.
  apply list_filter_iff. intros m. apply unread_where_spec.
Qed.

(** C6. With the store available and a page that starts at a
    non-negative offset, [loadConversations] answers with a list in
    which every element is a conversation of the caller and carries as
    [unreadCount] the number of messages of that conversation that
    were sent by someone else and have a status for the caller other
    than READ.  On the sample store, where Bob sent Alice three
    messages and she has read one, Alice's list shows c1 with 2. *)
Theorem loadConversations_unreadCount client userId dto w :
  Js.truthy (data_userId client) = Some userId →
  fault (db w) = None →
  0 ≤ (default 1 (lc_page dto) - 1) * default 20 (lc_limit dto) →
  (∃ convs pagination,
     (loadConversations client dto w).1
       = Ok (successResponse (DConversations convs pagination)) ∧
     ∀ s, s ∈ convs →
       (∃ c, conversations (db w) !! cs_id s = Some c ∧
             is_participant userId (cs_id s, c) = true) ∧
       cs_unreadCount s = unread_count (db w) userId (cs_id s)) ∧
  (∃ convs pagination,
     (loadConversations Examples.alice
        {| lc_page := None; lc_limit := None; lc_search := None |}
        Examples.world0).1
       = Ok (successResponse (DConversations convs pagination)) ∧
     (λ s, (cs_id s, cs_unreadCount s)) <$> convs = [("c1", 2%nat)]).
Proof.
  intros Hu Hf Hskip. split.
  - destruct (skipTake_is_Some _ (default 20 (lc_limit dto))
                (include_list (db w) userId <$>
                   orderByDesc (λ r, updatedAt r.2)
                     (findMany (whereClause (db w) userId (lc_search dto))
                        (conversations (db w)))) Hskip) as [rows Hrows].
    rewrite (loadConversations_ok client userId dto rows) by done. simpl.
    eexists _, _. split; [reflexivity|].
    intros s Hs. apply list_elem_of_fmap in Hs as (inc & -> & Hinc).
    apply (skipTake_elem_of _ _ _ _ _ Hrows) in Hinc.
    apply list_elem_of_fmap in Hinc as ([k c] & -> & Hr).
    rewrite orderByDesc_perm in Hr. apply elem_of_findMany in Hr as [Hget Hw].
    split.
    + exists c. split; [done|]. unfold whereClause in Hw.
      by apply andb_true_iff in Hw as [Hp _].
    + apply transform_unreadCount.
  - eexists _, _. split; by vm_compute.
Qed.

Lemma loadConversations_unreadCount_witness :
  ∃ convs pagination,
    (loadConversations Examples.alice
       {| lc_page := None; lc_limit := None; lc_search := None |}
       Examples.world0).1
      = Ok (successResponse (DConversations convs pagination)) ∧
    ∀ s, s ∈ convs → cs_unreadCount s = unread_count Examples.db0 "a" (cs_id s).
Proof.
  destruct (loadConversations_unreadCount Examples.alice "a"
              {| lc_page := None; lc_limit := None; lc_search := None |}
              Examples.world0) as [(convs & pagination & Hres & Hall) _];
    [reflexivity|reflexivity|simpl; lia|].
  exists convs, pagination. split; [exact Hres|].
  intros s Hs. by destruct (Hall s Hs).
Defined.

Lemma Math_ceil_div_ceiling total limit :
  0 < limit →
  ∃ k, Js.Math_ceil_div total limit = Js.Finite k ∧ is_ceiling total limit k.
Proof.
  intros Hl. unfold Js.Math_ceil_div, is_ceiling.
  destruct (Z.eqb_spec limit 0); [lia|].
  eexists. split; [reflexivity|].
  pose proof (Z.mul_div_le (- total) limit Hl).
  pose proof (Z.mul_succ_div_gt (- total) limit Hl). lia.
Qed.

(** C7. With the store available, [page >= 1] and [limit >= 1],
    [loadConversations] answers with the conversations of the caller
    that the clause selects, ordered by [updatedAt] descending, from
    which it has dropped the first [(page - 1) * limit] and kept at
    most [limit]; [total] is the number selected and [totalPages] the
    ceiling of [total / limit].  With 45 conversations and a limit of
    20, page 1 has 20 elements and 3 pages in all, page 3 has 5
    elements. *)
Theorem loadConversations_pagination client userId dto w :
  Js.truthy (data_userId client) = Some userId →
  fault (db w) = None →
  let page := default 1 (lc_page dto) in
  let limit := default 20 (lc_limit dto) in
  1 ≤ page →
  1 ≤ limit →
  let selected :=
    findMany (whereClause (db w) userId (lc_search dto)) (conversations (db w)) in
  let ordered := orderByDesc (λ r, updatedAt r.2) selected in
  let total := Z.of_nat (List.length selected) in
  ∃ convs pagination,
    (loadConversations client dto w).1
      = Ok (successResponse (DConversations convs pagination)) ∧
    ordered ≡ₚ selected ∧
    StronglySorted (λ a b, updatedAt b.2 ≤ updatedAt a.2) ordered ∧
    cs_id <$> convs
      = (take (Z.to_nat limit) (drop (Z.to_nat ((page - 1) * limit)) ordered)).*1 ∧
    Z.of_nat (List.length convs) ≤ limit ∧
    Z.of_nat (List.length convs) = Z.min limit (Z.max 0 (total - (page - 1) * limit)) ∧
    StronglySorted (λ a b, cs_updatedAt b ≤ cs_updatedAt a) convs ∧
    pg_page pagination = page ∧
    pg_limit pagination = limit ∧
    pg_total pagination = total ∧
    (∃ k, pg_totalPages pagination = Js.Finite k ∧ is_ceiling total limit k) ∧
    (total = 45 → limit = 20 →
     (page = 1 → List.length convs = 20%nat ∧
                 pg_totalPages pagination = Js.Finite 3) ∧
     (page = 3 → List.length convs = 5%nat)).
Proof.
  intros Hu Hf page limit Hpage Hlimit selected ordered total.
  assert (0 ≤ (page - 1) * limit) as Hskip by nia.
  pose proof (skipTake_forward ((page - 1) * limit) limit
                (include_list (db w) userId <$> ordered) Hskip) as Hrows.
  rewrite (loadConversations_ok client userId dto _ w Hu Hf (Hrows ltac:(lia))).
  simpl. fold page limit selected ordered total.
  set (convs := transform userId <$> _).
  exists convs. eexists. split; [reflexivity|]. simpl.
  assert (List.length ordered = List.length selected) as Hlen
    by apply Permutation_length, orderByDesc_perm.
  assert (Z.of_nat (List.length convs)
          = Z.min limit (Z.max 0 (total - (page - 1) * limit))) as Hcount.
  { subst convs.
    rewrite length_fmap, length_take, length_drop, length_fmap, Hlen. subst total.
    lia. }
  split; [apply orderByDesc_perm|].
  split; [apply (orderByDesc_sorted (λ r : string * PrivateConversation, updatedAt r.2))|].
  split.
  { subst convs. rewrite <- fmap_drop, <- fmap_take, <- !list_fmap_compose.
    by apply list_fmap_ext. }
  split; [lia|]. split; [exact Hcount|].
  split.
  { subst convs. rewrite <- fmap_drop, <- fmap_take, <- list_fmap_compose.
    apply (StronglySorted_fmap _ (desc (λ r : string * PrivateConversation, updatedAt r.2))).
    - intros a b Hab. exact Hab.
    - apply StronglySorted_take_drop, orderByDesc_sorted. }
  split; [done|]. split; [done|]. split; [done|].
  split; [apply Math_ceil_div_ceiling; lia|].
  intros Htotal Hlim. rewrite Htotal, Hlim in Hcount. rewrite Htotal, Hlim. split.
  - intros Hp. rewrite Hp in Hcount. split; [lia | reflexivity].
  - intros Hp. rewrite Hp in Hcount. lia.
Qed.

(** Alice's 45 conversations in pages of 20: the third page. *)
Lemma loadConversations_pagination_witness :
  ∃ convs pagination,
    (loadConversations Examples.alice (Examples.page_of_20 3) Examples.world45).1
      = Ok (successResponse (DConversations convs pagination)) ∧
    List.length convs = 5%nat.
Proof.
  destruct (loadConversations_pagination Examples.alice "a" (Examples.page_of_20 3)
              Examples.world45)
    as (convs & pagination & Hres & _ & _ & _ & _ & _ & _ & _ & _ & _ & _ & Hex);
    [reflexivity|reflexivity|simpl; lia|simpl; lia|].
  exists convs, pagination. split; [exact Hres|].
  apply Hex; [by vm_compute|reflexivity|reflexivity].
Defined.

(** C7 does not hold for every [limit]: with [page = 1] and
    [limit = -2] Alice, who has 45 conversations, is answered two of
    them, more than [limit], and they are the two least recently
    updated ones: 43 conversations are passed over, not
    [(page - 1) * limit = 0].  (A negative [take] counts from the end
    of the ordered selection.) *)
Lemma loadConversations_pagination_counterexample :
  let dto := {| lc_page := Some 1; lc_limit := Some (-2); lc_search := None |} in
  ∃ convs pagination,
    (loadConversations Examples.alice dto Examples.world45).1
      = Ok (successResponse (DConversations convs pagination)) ∧
    pg_page pagination = 1 ∧
    pg_limit pagination = -2 ∧
    pg_total pagination = 45 ∧
    cs_id <$> convs = ["k1"; "k0"] ∧
    cs_updatedAt <$> convs = [1; 0] ∧
    pg_limit pagination < Z.of_nat (List.length convs).
Proof.
  eexists _, _. split; [by vm_compute|].
  repeat split; by vm_compute.
Qed.

End ConversationFacts.

(** ** More on the queue gateway *)

Module QueueGatewayRestFacts.
Import Store Wire Run Registry QueueGateway QueueGatewayRest RunFacts.

(** *** The token of the handshake *)

Lemma split_go_segment sep piece t :
  sep ∉ String.list_ascii_of_string t →
  (∀ rest, Js.split_go sep piece (String.append t (String sep rest))
           = String.rev_app piece t :: Js.split_go sep EmptyString rest) ∧
  Js.split_go sep piece t = [String.rev_app piece t].
Proof.
  revert piece. induction t as [|c t IH]; intros piece Hsep; simpl.
  - split; [|done]. intros rest. by rewrite Ascii.eqb_refl.
  - apply not_elem_of_cons in Hsep as [Hc Hsep].
    destruct (Ascii.eqb_spec c sep) as [->|_]; [done|].
    apply (IH (String c piece) Hsep).
Qed.

(** X1. A header [Bearer <t>] yields the part of [t] before its first
    space: [t] itself when it has no space, whatever the auth field
    holds; a header or auth field without the prefix is taken as it is,
    the header first; with neither there is no token. *)
Theorem extractToken_scheme (client : Socket) (t rest : string) :
  " "%char ∉ String.list_ascii_of_string t →
  (handshake_headers_authorization client = Some (String.append "Bearer " t) →
   extractToken client = Some t) ∧
  (handshake_headers_authorization client = Some (String.append "Bearer " (String.append t (String " " rest))) →
   extractToken client = Some t) ∧
  (Js.truthy (handshake_headers_authorization client) = None →
   handshake_auth_token client = Some (String.append "Bearer " t) →
   extractToken client = Some t) ∧
  (∀ raw, Js.startsWith "Bearer " raw = false → raw ≠ "" →
     (handshake_headers_authorization client = Some raw →
      extractToken client = Some raw) ∧
     (Js.truthy (handshake_headers_authorization client) = None →
      handshake_auth_token client = Some raw →
      extractToken client = Some raw)) ∧
  (Js.truthy (handshake_headers_authorization client) = None →
   Js.truthy (handshake_auth_token client) = None →
   extractToken client = None).
Proof.
  intros Hsp. destruct (split_go_segment " " EmptyString t Hsp) as [Hseg Hlast].
  assert (∀ raw, raw ≠ "" → Js.truthy (Some raw) = Some raw) as Htruthy.
  { intros [|c raw] Hraw; done. }
  assert (∀ x, String.append "Bearer " x
               = String "B" (String "e" (String "a" (String "r" (String "e"
                   (String "r" (String " " x))))))) as Hprefix by reflexivity.
  unfold extractToken, Js.split. repeat split.
  - intros ->. rewrite Hprefix. simpl. by rewrite Hlast.
  - intros ->. rewrite Hprefix. simpl. by rewrite Hseg.
  - intros Hhead ->. unfold Js.or_else. rewrite Hhead, Hprefix. simpl. by rewrite Hlast.
  - intros ->. unfold Js.or_else. rewrite !Htruthy by done. by rewrite H.
  - intros Hhead ->. unfold Js.or_else. rewrite Hhead, !Htruthy by done. by rewrite H.
  - intros Hhead Hauth. unfold Js.or_else. rewrite Hhead.
    destruct (handshake_auth_token client) as [[|c raw]|]; done.
Qed.

Lemma extractToken_scheme_witness :
  extractToken {| id := "s"; handshake_headers_authorization := Some "Bearer abc.def";
                  handshake_auth_token := Some "other";
                  data_userId := None; data_user := None |} = Some "abc.def".
Proof.
  assert (" "%char ∉ String.list_ascii_of_string "abc.def") as Hsp.
  { apply (bool_decide_unpack _). vm_compute. exact I. }
  exact (proj1 (extractToken_scheme
                  {| id := "s"; handshake_headers_authorization := Some "Bearer abc.def";
                     handshake_auth_token := Some "other";
                     data_userId := None; data_user := None |}
                  "abc.def" "" Hsp) eq_refl).
Defined.

(** *** The handshake *)

(** X2. A connection without a token is told 'Missing token'; one whose
    secret cannot be read or whose token the verifier refuses is told
    the message of that error.  In each case it is disconnected, and
    nothing else happens: no store query, no change of the registry or
    of the session data. *)
Theorem handleConnection_unverified
  (jwtService_verify : string → string → outcome JWTPayload)
  (jwt_secret : outcome string) (client : Socket) (w : World) (message : string) :
  (Js.truthy (extractToken client) = None ∧ message = "Missing token") ∨
  (∃ token, Js.truthy (extractToken client) = Some token ∧
     (jwt_secret = Throw message ∨
      ∃ secret, jwt_secret = Ok secret ∧
                jwtService_verify token secret = Throw message)) →
  handleConnection jwtService_verify jwt_secret client w
  = (Ok client, add_log (rejection client message) w).
Proof.
  unfold handleConnection, try_catch, rejection.
  intros [[Htoken ->]|(token & Htoken & [Hsecret|(secret & Hsecret & Hverify)])];
    rewrite Htoken; unfold mbind, M_bind, bind, lift.
  - simpl. by rewrite add_log_app.
  - rewrite Hsecret. simpl. by rewrite add_log_app.
  - rewrite Hsecret, Hverify. simpl. by rewrite add_log_app.
Qed.

Lemma handleConnection_unverified_witness :
  handleConnection Examples.verify_one (Ok "s3cr3t")
    (Examples.socket "s8" None) Examples.world_connected
  = (Ok (Examples.socket "s8" None),
     add_log (rejection (Examples.socket "s8" None) "Missing token")
       Examples.world_connected) ∧
  handleConnection Examples.verify_one (Ok "wrong") Examples.connecting
    Examples.world_connected
  = (Ok Examples.connecting,
     add_log (rejection Examples.connecting "invalid signature")
       Examples.world_connected).
Proof.
  split.
  - apply handleConnection_unverified. left. split; reflexivity.
  - apply handleConnection_unverified. right. exists "t0". split; [reflexivity|].
    right. exists "wrong". split; reflexivity.
Defined.

(** X3. A verified token whose subject is not a user of the store is
    answered 'User not found' after the one lookup, and while the store
    is down the connection is answered the store's error; both end in a
    disconnect with the registry and the session data untouched. *)
Theorem handleConnection_unknown_subject
  (jwtService_verify : string → string → outcome JWTPayload)
  (jwt_secret : outcome string) (client : Socket)
  (token secret userId : string) (payload : JWTPayload) (w : World) :
  Js.truthy (extractToken client) = Some token →
  jwt_secret = Ok secret →
  jwtService_verify token secret = Ok payload →
  Js.truthy (sub payload) = Some userId →
  (fault (db w) = None ∧ users (db w) !! userId = None ∨ is_Some (fault (db w))) →
  let message := default "User not found" (fault (db w)) in
  handleConnection jwtService_verify jwt_secret client w
  = (Ok client,
     add_log (Prisma "user" "findUnique" :: rejection client message) w).
Proof.
  intros Htoken Hsecret Hverify Hsub Hstore message.
  unfold handleConnection, try_catch, rejection.
  rewrite Htoken. unfold mbind, M_bind, bind, lift.
  rewrite Hsecret, Hverify, Hsub.
  destruct Hstore as [[Hf Huser]|[e Hf]].
  - rewrite prisma_ok by done. unfold read. simpl. rewrite Huser. simpl.
    subst message. rewrite Hf. unfold add_log. simpl. by rewrite <- !app_assoc.
  - rewrite (prisma_fault _ _ _ _ e) by done. simpl.
    subst message. rewrite Hf. by rewrite !add_log_app.
Qed.

Lemma handleConnection_unknown_subject_witness :
  handleConnection Samples.verify_stranger (Ok "s3cr3t") Examples.connecting
    Examples.world_connected
  = (Ok Examples.connecting,
     add_log (Prisma "user" "findUnique"
              :: rejection Examples.connecting "User not found")
       Examples.world_connected).
Proof.
  apply (handleConnection_unknown_subject Samples.verify_stranger (Ok "s3cr3t")
           Examples.connecting
           "t0" "s3cr3t" "nobody"
           {| sub := Some "nobody"; jwt_email := "n@example.org"; jwt_role := "USER" |});
    try reflexivity.
  left. split; reflexivity.
Defined.

(** The run of an accepted handshake. *)
Lemma handleConnection_accepted_run
  (jwtService_verify : string → string → outcome JWTPayload)
  (jwt_secret : outcome string) (client : Socket)
  (token secret userId : string) (payload : JWTPayload) (row : User) (w : World) :
  Js.truthy (extractToken client) = Some token →
  jwt_secret = Ok secret →
  jwtService_verify token secret = Ok payload →
  Js.truthy (sub payload) = Some userId →
  fault (db w) = None →
  users (db w) !! userId = Some row →
  handleConnection jwtService_verify jwt_secret client w =
    (Ok (set_data userId payload client),
     {| db := db w; clients := subscribeClient (clients w) userId (id client);
        log := log w ++ [Prisma "user" "findUnique";
                         Join (id client) userId;
                         Emit (id client) EventsEnum_SUCCESS
                           (Envelope (successResponse
                                        (DUser (select_auth_user userId row))))] |}).
Proof.
  intros Htoken Hsecret Hverify Hsub Hf Huser.
  unfold handleConnection, try_catch.
  rewrite Htoken. unfold mbind, M_bind, bind, lift.
  rewrite Hsecret, Hverify, Hsub.
  rewrite prisma_ok by done. unfold read. simpl. rewrite Huser. simpl.
  unfold add_log. simpl. by rewrite <- !app_assoc.
Qed.

(** X4. A verified token whose subject is a user of the store binds the
    socket to that user: the session data hold the user id and the
    payload, the socket joins the room named by the user id, enters the
    user's set in the registry (and no other set changes), and receives
    the success event with the user's id, email, role and name; the
    store is read once and not written. *)
Theorem handleConnection_accepted
  (jwtService_verify : string → string → outcome JWTPayload)
  (jwt_secret : outcome string) (client : Socket)
  (token secret userId : string) (payload : JWTPayload) (row : User) (w : World) :
  Js.truthy (extractToken client) = Some token →
  jwt_secret = Ok secret →
  jwtService_verify token secret = Ok payload →
  Js.truthy (sub payload) = Some userId →
  fault (db w) = None →
  users (db w) !! userId = Some row →
  let result := handleConnection jwtService_verify jwt_secret client w in
  result.1 = Ok (set_data userId payload client) ∧
  db result.2 = db w ∧
  clients result.2 = subscribeClient (clients w) userId (id client) ∧
  (∀ v s, s ∈ getClients (clients result.2) v ↔
          s ∈ getClients (clients w) v ∨ (v = userId ∧ s = id client)) ∧
  log result.2 =
    log w ++ [Prisma "user" "findUnique";
              Join (id client) userId;
              Emit (id client) EventsEnum_SUCCESS
                (Envelope (successResponse (DUser (select_auth_user userId row))))].
Proof.
  intros Htoken Hsecret Hverify Hsub Hf Huser result.
  assert (result =
    (Ok (set_data userId payload client),
     {| db := db w; clients := subscribeClient (clients w) userId (id client);
        log := log w ++ [Prisma "user" "findUnique";
                         Join (id client) userId;
                         Emit (id client) EventsEnum_SUCCESS
                           (Envelope (successResponse
                                        (DUser (select_auth_user userId row))))] |}))
    as Hres.
  { subst result. unfold handleConnection, try_catch.
    rewrite Htoken. unfold mbind, M_bind, bind, lift.
    rewrite Hsecret, Hverify, Hsub.
    rewrite prisma_ok by done. unfold read. simpl. rewrite Huser. simpl.
    unfold add_log. simpl. by rewrite <- !app_assoc. }
  rewrite Hres. simpl. repeat split; try done.
  - rewrite RegistryFacts.getClients_subscribe. case_decide as Hv.
    + subst v. rewrite elem_of_union, elem_of_singleton. tauto.
    + tauto.
  - rewrite RegistryFacts.getClients_subscribe. case_decide as Hv.
    + subst v. rewrite elem_of_union, elem_of_singleton. intros [?|[_ ->]]; tauto.
    + intros [?|[-> _]]; done.
Qed.

Lemma handleConnection_accepted_witness :
  (handleConnection Samples.verify_alice (Ok "s3cr3t") Samples.arriving
     Examples.world_connected).1
  = Ok (set_data "a" Samples.alice_payload Samples.arriving) ∧
  "s7" ∈ getClients
           (clients (handleConnection Samples.verify_alice (Ok "s3cr3t")
                       Samples.arriving Examples.world_connected).2) "a".
Proof.
  destruct (handleConnection_accepted Samples.verify_alice (Ok "s3cr3t")
              Samples.arriving "t1" "s3cr3t" "a" Samples.alice_payload
              (Examples.user "Alice") Examples.world_connected)
    as (Hres & _ & _ & Hmem & _); try reflexivity.
  split; [exact Hres|]. apply Hmem. right. split; reflexivity.
Defined.

Lemma truthy_Some (o : option string) (v : string) :
  Js.truthy o = Some v → o = Some v ∧ Js.truthy (Some v) = Some v.
Proof. destruct o as [[|c o]|]; simpl; intros [= <-]; done. Qed.

Ltac shape_log := unfold add_log; simpl; rewrite <- ?app_assoc; reflexivity.

(** What [handleConnection] can do to the world, whatever the input: the
    store is left alone, the log grows, and the registry is either left
    alone or gains the client under the verified subject, a user of the
    store. *)
Lemma handleConnection_shape verify secret client w :
  ∃ es c,
    (handleConnection verify secret client w).2
      = {| db := db w; clients := c; log := log w ++ es |} ∧
    (c = clients w ∨
     ∃ token secret' payload userId row,
       Js.truthy (extractToken client) = Some token ∧ secret = Ok secret' ∧
       verify token secret' = Ok payload ∧ Js.truthy (sub payload) = Some userId ∧
       fault (db w) = None ∧ users (db w) !! userId = Some row ∧
       c = subscribeClient (clients w) userId (id client)).
Proof.
  unfold handleConnection, try_catch.
  destruct (Js.truthy (extractToken client)) as [token|] eqn:Htoken; simpl;
    [|eexists _, _; split; [shape_log|by left]].
  unfold mbind, M_bind, bind, lift.
  destruct secret as [s|e]; simpl;
    [|eexists _, _; split; [shape_log|by left]].
  destruct (verify token s) as [payload|e] eqn:Hverify; simpl;
    [|eexists _, _; split; [shape_log|by left]].
  destruct (Js.truthy (sub payload)) as [userId|] eqn:Hsub; simpl;
    [|eexists _, _; split; [shape_log|by left]].
  unfold prisma, read. destruct (fault (db w)) as [e|] eqn:Hf; simpl;
    [eexists _, _; split; [shape_log|by left]|].
  destruct (users (db w) !! userId) as [row|] eqn:Huser; simpl;
    [|eexists _, _; split; [shape_log|by left]].
  eexists _, _. split; [shape_log|].
  right. by exists token, s, payload, userId, row.
Qed.

(** X5. [handleConnection] registers nothing but the connecting socket,
    and only for a verified subject: a socket found in a user's set
    after the call and not before is the client itself, its token was
    accepted by the verifier with that user as subject, and the user is
    in the store. *)
Theorem handleConnection_registers_only_verified
  (jwtService_verify : string → string → outcome JWTPayload)
  (jwt_secret : outcome string) (client : Socket) (w : World)
  (userId socket : string) :
  socket ∈ getClients
             (clients (handleConnection jwtService_verify jwt_secret client w).2) userId →
  socket ∉ getClients (clients w) userId →
  socket = id client ∧
  ∃ token secret payload row,
    Js.truthy (extractToken client) = Some token ∧
    jwt_secret = Ok secret ∧
    jwtService_verify token secret = Ok payload ∧
    Js.truthy (sub payload) = Some userId ∧
    users (db w) !! userId = Some row.
Proof.
  intros Hafter Hbefore.
  destruct (handleConnection_shape jwtService_verify jwt_secret client w)
    as (es & c & Hw & [->|Hsub]).
  - rewrite Hw in Hafter. done.
  - destruct Hsub as (token & secret & payload & u & row & ? & ? & ? & ? & ? & ? & ->).
    rewrite Hw in Hafter. simpl in Hafter.
    rewrite RegistryFacts.getClients_subscribe in Hafter.
    case_decide as Hu; [|done]. subst u.
    apply elem_of_union in Hafter as [Hs|Hs]; [|done].
    apply elem_of_singleton in Hs. split; [done|].
    by exists token, secret, payload, row.
Qed.

Lemma handleConnection_registers_only_verified_witness :
  "s7" = id Samples.arriving ∧
  ∃ token secret payload row,
    Js.truthy (extractToken Samples.arriving) = Some token ∧
    Ok "s3cr3t" = Ok secret ∧
    Samples.verify_alice token secret = Ok payload ∧
    Js.truthy (sub payload) = Some "a" ∧
    users (db Examples.world_connected) !! "a" = Some row.
Proof.
  apply (handleConnection_registers_only_verified Samples.verify_alice (Ok "s3cr3t")
           Samples.arriving Examples.world_connected "a" "s7");
    apply (bool_decide_unpack _); vm_compute; exact I.
Defined.

(** *** Leaving *)

(** X6. [handleDisconnect] takes exactly the client's socket out of the
    set of the user it is bound to and leaves the room; every other
    socket and user stay as they were, and so does the store.  A socket
    that was never bound to a user changes nothing at all. *)
Theorem handleDisconnect_removes_socket (client : Socket) (w : World) :
  let result := handleDisconnect client w in
  result.1 = Ok tt ∧
  db result.2 = db w ∧
  match Js.truthy (data_userId client) with
  | Some userId =>
      (∀ v s, s ∈ getClients (clients result.2) v ↔
              s ∈ getClients (clients w) v ∧ ¬ (v = userId ∧ s = id client)) ∧
      log result.2 = log w ++ [Leave (id client) userId]
  | None => result.2 = w
  end.
Proof.
  unfold handleDisconnect.
  destruct (Js.truthy (data_userId client)) as [userId|]; simpl; [|done].
  repeat split.
  - rewrite RegistryFacts.getClients_unsubscribe in H. case_decide as Hv; [|done].
    subst v. by apply elem_of_difference in H as [? _].
  - rewrite RegistryFacts.getClients_unsubscribe in H. case_decide as Hv.
    + subst v. apply elem_of_difference in H as [_ Hs]. intros [_ ->].
      apply Hs. by apply elem_of_singleton.
    + by intros [? _].
  - intros [Hin Hnot]. rewrite RegistryFacts.getClients_unsubscribe.
    case_decide as Hv; [|done]. subst v. apply elem_of_difference. split; [done|].
    intros Hs. apply elem_of_singleton in Hs. by apply Hnot.
Qed.

Lemma unsubscribe_subscribe (c : clients_map) (userId socket : string) :
  registry_inv c → socket ∉ getClients c userId →
  unsubscribeClient (subscribeClient c userId socket) userId socket = c ∧
  unsubscribeClient c userId socket = c.
Proof.
  intros Hinv Hnot. unfold getClients in Hnot. split.
  - unfold unsubscribeClient, subscribeClient. rewrite lookup_insert_eq.
    destruct (c !! userId) as [set|] eqn:Hget.
    + assert (({[socket]} ∪ set) ∖ {[socket]} = set) as ->.
      { apply set_eq. intros x.
        rewrite elem_of_difference, elem_of_union, elem_of_singleton.
        split; [tauto|]. intros Hx. split; [tauto|]. by intros ->. }
      rewrite decide_False.
      * rewrite insert_insert_eq. by apply insert_id.
      * intros Hsz. apply size_empty_inv in Hsz. apply (Hinv _ _ Hget).
        by apply leibniz_equiv.
    + assert (({[socket]} ∪ ∅) ∖ {[socket]} = (∅ : gset string)) as ->.
      { apply set_eq. intros x.
        rewrite elem_of_difference, elem_of_union, elem_of_singleton, elem_of_empty.
        tauto. }
      rewrite decide_True by apply size_empty.
      by apply delete_insert_id.
  - unfold unsubscribeClient. destruct (c !! userId) as [set|] eqn:Hget; [|done].
    assert (set ∖ {[socket]} = set) as ->.
    { apply set_eq. intros x. rewrite elem_of_difference, elem_of_singleton.
      split; [tauto|]. intros Hx. split; [tauto|]. by intros ->. }
    rewrite decide_False.
    + by apply insert_id.
    + intros Hsz. apply size_empty_inv in Hsz. apply (Hinv _ _ Hget).
      by apply leibniz_equiv.
Qed.

(** X7. Connecting and then disconnecting gives the registry back as it
    was: after an accepted handshake of a socket that was not registered
    for the user, [handleDisconnect] of the bound client restores the
    registry (its invariant assumed), and the two handlers leave the
    join, the success event and the leave in the log. *)
Theorem connect_then_disconnect
  (jwtService_verify : string → string → outcome JWTPayload)
  (jwt_secret : outcome string) (client : Socket)
  (token secret userId : string) (payload : JWTPayload) (row : User) (w : World) :
  Js.truthy (extractToken client) = Some token →
  jwt_secret = Ok secret →
  jwtService_verify token secret = Ok payload →
  Js.truthy (sub payload) = Some userId →
  fault (db w) = None →
  users (db w) !! userId = Some row →
  registry_inv (clients w) →
  id client ∉ getClients (clients w) userId →
  let connected := handleConnection jwtService_verify jwt_secret client w in
  let bound := set_data userId payload client in
  connected.1 = Ok bound ∧
  id client ∈ getClients (clients connected.2) userId ∧
  clients (handleDisconnect bound connected.2).2 = clients w ∧
  log (handleDisconnect bound connected.2).2 =
    log w ++ [Prisma "user" "findUnique";
              Join (id client) userId;
              Emit (id client) EventsEnum_SUCCESS
                (Envelope (successResponse (DUser (select_auth_user userId row))));
              Leave (id client) userId].
Proof.
  intros Htoken Hsecret Hverify Hsub Hf Huser Hinv Hnew connected bound.
  pose proof (handleConnection_accepted_run jwtService_verify jwt_secret client token
                secret userId payload row w Htoken Hsecret Hverify Hsub Hf Huser)
    as Hrun.
  fold connected in Hrun.
  destruct (truthy_Some _ _ Hsub) as [_ Htruthy].
  assert (Js.truthy (data_userId bound) = Some userId) as Hbound by exact Htruthy.
  clearbody connected. subst connected.
  split; [done|]. split.
  { change (id client ∈ getClients (subscribeClient (clients w) userId (id client))
                          userId).
    rewrite RegistryFacts.getClients_subscribe, decide_True by done.
    rewrite elem_of_union, elem_of_singleton. by left. }
  unfold handleDisconnect. rewrite Hbound. simpl. split.
  - by apply unsubscribe_subscribe.
  - by rewrite <- app_assoc.
Qed.

Lemma connect_then_disconnect_witness :
  clients (handleDisconnect (set_data "a" Samples.alice_payload Samples.arriving)
             (handleConnection Samples.verify_alice (Ok "s3cr3t") Samples.arriving
                Examples.world_connected).2).2
  = clients Examples.world_connected.
Proof.
  destruct (connect_then_disconnect Samples.verify_alice (Ok "s3cr3t")
              Samples.arriving "t1" "s3cr3t" "a" Samples.alice_payload
              (Examples.user "Alice") Examples.world_connected)
    as (_ & _ & Hback & _);
    [reflexivity..| | |exact Hback];
    apply (bool_decide_unpack _); vm_compute; exact I.
Defined.

(** *** Sequences of connections and disconnections *)

Lemma handleDisconnect_shape client w :
  ∃ es c,
    (handleDisconnect client w).2 = {| db := db w; clients := c; log := log w ++ es |} ∧
    (c = clients w ∨ ∃ userId, c = unsubscribeClient (clients w) userId (id client)).
Proof.
  unfold handleDisconnect.
  destruct (Js.truthy (data_userId client)) as [userId|]; simpl.
  - eexists _, _. split; [reflexivity|]. right. by exists userId.
  - exists [], (clients w). rewrite app_nil_r. split; [by destruct w|by left].
Qed.

(** X8. However sockets connect and disconnect, the handlers keep every
    key of the registry on a non-empty set, never write to the store,
    only add to the log, and register no socket that did not connect: a
    socket in a user's set at the end was there at the start or is the
    id of a client that connected. *)
Theorem lifecycle_keeps_registry
  (jwtService_verify : string → string → outcome JWTPayload)
  (jwt_secret : outcome string) (events : list Lifecycle) (w : World) :
  registry_inv (clients w) →
  let final := handle_all jwtService_verify jwt_secret events w in
  registry_inv (clients final) ∧
  db final = db w ∧
  (∃ es, log final = log w ++ es) ∧
  (∀ userId socket, socket ∈ getClients (clients final) userId →
     socket ∈ getClients (clients w) userId ∨
     ∃ client, Connects client ∈ events ∧ id client = socket).
Proof.
  revert w. induction events as [|e events IH]; intros w Hinv; simpl.
  - split; [done|]. split; [done|]. split; [by exists []; rewrite app_nil_r|].
    intros userId socket Hin. by left.
  - assert (registry_inv (clients (handle jwtService_verify jwt_secret e w)) ∧
            db (handle jwtService_verify jwt_secret e w) = db w ∧
            (∃ es, log (handle jwtService_verify jwt_secret e w) = log w ++ es) ∧
            (∀ userId socket,
               socket ∈ getClients (clients (handle jwtService_verify jwt_secret e w)) userId →
               socket ∈ getClients (clients w) userId ∨
               ∃ client, e = Connects client ∧ id client = socket))
      as (Hinv1 & Hdb1 & [es1 Hlog1] & Hreg1).
    { destruct e as [client|client]; simpl.
      - split; [by apply QueueGatewayFacts.handleConnection_registry_inv|].
        destruct (handleConnection_shape jwtService_verify jwt_secret client w)
          as (es & c & Hw & Hc).
        rewrite Hw. simpl. split; [done|]. split; [by exists es|].
        intros userId socket Hin. destruct Hc as [->|Hc]; [by left|].
        destruct Hc as (_ & _ & _ & u & _ & _ & _ & _ & _ & _ & _ & ->).
        rewrite RegistryFacts.getClients_subscribe in Hin.
        case_decide as Hu; [|by left]. subst u.
        apply elem_of_union in Hin as [Hs|Hs]; [|by left].
        apply elem_of_singleton in Hs. right. by exists client.
      - split; [by apply QueueGatewayFacts.handleDisconnect_registry_inv|].
        destruct (handleDisconnect_shape client w) as (es & c & Hw & Hc).
        rewrite Hw. simpl. split; [done|]. split; [by exists es|].
        intros userId socket Hin. left. destruct Hc as [->|[u ->]]; [done|].
        rewrite RegistryFacts.getClients_unsubscribe in Hin.
        case_decide as Hu; [|done]. subst u.
        by apply elem_of_difference in Hin as [? _]. }
    destruct (IH _ Hinv1) as (Hinv2 & Hdb2 & [es2 Hlog2] & Hreg2).
    split; [exact Hinv2|]. split; [by rewrite Hdb2|].
    split; [exists (es1 ++ es2); by rewrite Hlog2, Hlog1, app_assoc|].
    intros userId socket Hin. destruct (Hreg2 _ _ Hin) as [Hmid|(client & Hc & Hid)].
    + destruct (Hreg1 _ _ Hmid) as [?|(client & -> & Hid)]; [by left|].
      right. exists client. split; [apply list_elem_of_here|done].
    + right. exists client. split; [by apply list_elem_of_further|done].
Qed.

Lemma lifecycle_keeps_registry_witness :
  registry_inv
    (clients (handle_all Samples.verify_alice (Ok "s3cr3t")
                [Connects Samples.arriving;
                 Disconnects (set_data "a" Samples.alice_payload Samples.arriving);
                 Connects Examples.connecting]
                Examples.world_connected)).
Proof.
  apply (lifecycle_keeps_registry Samples.verify_alice (Ok "s3cr3t")).
  apply (bool_decide_unpack _). vm_compute. exact I.
Defined.

(** *** Composing registrations *)

(** X9. Registering the same socket twice is registering it once, the
    order of two registrations does not matter, and a registration adds
    one to the size of the user's set exactly when the socket is not
    already in it. *)
Theorem subscribeClient_compose (c : clients_map) (u v s t : string) :
  subscribeClient (subscribeClient c u s) u s = subscribeClient c u s ∧
  subscribeClient (subscribeClient c u s) v t
  = subscribeClient (subscribeClient c v t) u s ∧
  size (getClients (subscribeClient c u s) u)
  = (if decide (s ∈ getClients c u) then size (getClients c u)
     else S (size (getClients c u))).
Proof.
  assert (∀ c u s, subscribeClient c u s = <[u := {[s]} ∪ getClients c u]> c) as Hsub
    by reflexivity.
  assert (∀ (c : clients_map) (u : string) (w : gset string),
            getClients (<[u := w]> c) u = w) as Hget.
  { intros c0 u0 w0. unfold getClients. by rewrite lookup_insert_eq. }
  assert (∀ (c : clients_map) (u v : string) (w : gset string),
            u ≠ v → getClients (<[u := w]> c) v = getClients c v) as Hget_ne.
  { intros c0 u0 v0 w0 Hne. unfold getClients. by rewrite lookup_insert_ne. }
  split; [|split].
  - rewrite !Hsub, Hget, insert_insert_eq. f_equal.
    apply set_eq. intros x. rewrite !elem_of_union. tauto.
  - rewrite !Hsub. destruct (decide (u = v)) as [->|Hne].
    + rewrite !Hget, !insert_insert_eq. f_equal.
      apply set_eq. intros x. rewrite !elem_of_union. tauto.
    + rewrite (Hget_ne c u v) by done. rewrite (Hget_ne c v u) by done.
      by apply insert_insert_ne.
  - rewrite Hsub, Hget. case_decide as Hin.
    + f_equal. apply set_eq. intros x. rewrite elem_of_union, elem_of_singleton.
      split; [intros [->|?]; done|tauto].
    + rewrite size_union, size_singleton; [done|].
      intros x Hx Hx'. apply elem_of_singleton in Hx. by subst x.
Qed.

(** *** Notifying the admins *)

Lemma bind_run {A B} (m : M A) (k : A → M B) (w : World) :
  (m ≫= k) w = match m w with
               | (Ok a, w') => k a w'
               | (Throw e, w') => (Throw e, w')
               end.
Proof. reflexivity. Qed.

Lemma forEach_getClients (f : string → Effect) (userIds : list string) (w : World) :
  forEach userIds (λ a,
    c ← getClientsMap;
    forEach (elements (getClients c a)) (λ socket, tell (f socket))) w
  = (Ok tt,
     add_log (userIds ≫= (λ a, f <$> elements (getClients (clients w) a))) w).
Proof.
  revert w. induction userIds as [|a userIds IH]; intros w; simpl.
  - by rewrite add_log_nil.
  - unfold mbind, M_bind, bind, getClientsMap. simpl.
    rewrite forEach_tell. rewrite IH. simpl. by rewrite add_log_app.
Qed.

Lemma elem_of_admins (d : Db) (a : string) :
  a ∈ (findMany is_admin (users d)).*1 ↔
  ∃ u, users d !! a = Some u ∧ (user_role u = "ADMIN" ∨ user_role u = "SUPER_ADMIN").
Proof.
  rewrite list_elem_of_fmap. split.
  - intros ([k u] & -> & Hin). apply StoreFacts.elem_of_findMany in Hin as [Hget Hrole].
    exists u. split; [done|]. unfold is_admin in Hrole. simpl in Hrole.
    apply orb_true_iff in Hrole as [H|H]; apply bool_decide_eq_true in H; tauto.
  - intros (u & Hget & Hrole). exists (a, u). split; [done|].
    apply StoreFacts.elem_of_findMany. split; [done|]. unfold is_admin. simpl.
    apply orb_true_iff. destruct Hrole as [H|H]; [left|right];
      by apply bool_decide_eq_true.
Qed.

(** X10. [emitToAdmins] addresses the users of the store whose role is
    ADMIN or SUPER_ADMIN, connected or not.  Without such a user it
    returns after the one query: nothing is stored or emitted.
    Otherwise it stores one notification whose recipients are those
    users, each once, and then emits to the sockets of those users only,
    so an admin without a socket is a recipient that receives nothing;
    with the store down it throws and does nothing. *)
Theorem emitToAdmins_roster (event : string) (data : NotificationPayload) (w : World) :
  let admins := (findMany is_admin (users (db w))).*1 in
  let notification_id := fresh (dom (notifications (db w))) in
  let result := emitToAdmins event data w in
  (∀ a, a ∈ admins ↔
        ∃ u, users (db w) !! a = Some u ∧
             (user_role u = "ADMIN" ∨ user_role u = "SUPER_ADMIN")) ∧
  NoDup admins ∧
  (∀ e, fault (db w) = Some e →
        result = (Throw e, add_log [Prisma "user" "findMany"] w)) ∧
  (fault (db w) = None → admins = [] →
   result = (Ok tt, add_log [Prisma "user" "findMany"] w)) ∧
  (fault (db w) = None → admins ≠ [] →
   result.1 = Ok tt ∧
   notifications (db w) !! notification_id = None ∧
   notifications (db result.2)
     = <[notification_id := notification_row data admins]> (notifications (db w)) ∧
   clients result.2 = clients w ∧
   log result.2
     = log w ++ [Prisma "user" "findMany"; Prisma "notification" "create"]
             ++ (admins ≫= (λ a, (λ socket, Emit socket event
                                              (NotificationEvent data notification_id))
                                   <$> elements (getClients (clients w) a)))).
Proof.
  intros admins notification_id result.
  split; [apply elem_of_admins|].
  split.
  { subst admins. unfold findMany.
    apply (sublist_NoDup _ (map_to_list (users (db w))).*1);
      [apply NoDup_fst_map_to_list|].
    apply fmap_sublist, sublist_filter. }
  split; [|split].
  - intros e Hf. subst result. unfold emitToAdmins, mbind, M_bind, bind.
    by rewrite (prisma_fault _ _ _ _ e).
  - intros Hf Hnone. subst result. unfold emitToAdmins, mbind, M_bind, bind.
    rewrite prisma_ok by done. unfold read. simpl. fold admins. rewrite Hnone. done.
  - intros Hf Hsome. subst result. unfold emitToAdmins.
    rewrite bind_run, prisma_ok by done. unfold read. simpl. fold admins.
    rewrite bool_decide_eq_false_2; [|by destruct admins].
    rewrite bind_run, QueueGatewayFacts.notification_create_ok by done.
    rewrite forEach_getClients. simpl. fold notification_id.
    split; [done|]. split; [apply QueueGatewayFacts.fresh_notification_id|].
    split; [done|]. split; [done|]. by rewrite <- !app_assoc.
Qed.

(** On the sample store Alice and Carol are the recipients, and the two
    emissions go to Alice's two sockets. *)
Lemma emitToAdmins_roster_witness :
  let result := emitToAdmins "queue:notification" Examples.notice Samples.world_admins in
  size (notifications (db result.2)) = 1%nat ∧
  List.length (filter (λ e, is_emit e = true) (log result.2)) = 2%nat.
Proof.
  intros result.
  destruct (emitToAdmins_roster "queue:notification" Examples.notice
              Samples.world_admins) as (_ & _ & _ & _ & Hsome).
  destruct Hsome as (_ & _ & Hrow & _ & Hlog); [reflexivity|by vm_compute|].
  fold result in Hrow, Hlog. rewrite Hrow. split; [by vm_compute|].
  rewrite Hlog. by vm_compute.
Defined.

(** *** Notifications are only ever added *)

Lemma notification_create_keeps data userIds w k row :
  notifications (db w) !! k = Some row →
  notifications (db (notification_create data userIds w).2) !! k = Some row ∧
  users (db (notification_create data userIds w).2) = users (db w) ∧
  conversations (db (notification_create data userIds w).2) = conversations (db w) ∧
  messages (db (notification_create data userIds w).2) = messages (db w).
Proof.
  intros Hget. unfold notification_create, prisma.
  destruct (fault (db w)); simpl; [done|]. split; [|done].
  rewrite lookup_insert_ne; [done|].
  intros <-. pose proof (QueueGatewayFacts.fresh_notification_id (db w)). congruence.
Qed.

(** X11. None of [notifySingleUser], [notifyAllUsers] and [emitToAdmins]
    ever changes or removes a notification that exists, nor touches the
    users, conversations and messages of the store, whatever the input
    and whether or not the store is available. *)
Theorem notifications_append_only (userId event : string) (data : NotificationPayload)
  (w : World) (k : string) (row : Notification) :
  notifications (db w) !! k = Some row →
  let keeps (result : outcome unit * World) :=
    notifications (db result.2) !! k = Some row ∧
    users (db result.2) = users (db w) ∧
    conversations (db result.2) = conversations (db w) ∧
    messages (db result.2) = messages (db w) in
  keeps (notifySingleUser userId event data w) ∧
  keeps (notifyAllUsers event data w) ∧
  keeps (emitToAdmins event data w).
Proof.
  intros Hget keeps. subst keeps. cbv beta.
  split; [|split].
  - unfold notifySingleUser. rewrite bind_run. unfold getClientsMap. rewrite bind_run.
    pose proof (notification_create_keeps data [userId] w k row Hget) as Hkeep.
    destruct (notification_create data [userId] w) as [[nid|e] w1]; simpl in *; [|done].
    by rewrite forEach_tell.
  - unfold notifyAllUsers. rewrite bind_run. unfold getClientsMap.
    case_bool_decide; [done|]. rewrite bind_run.
    pose proof (notification_create_keeps data (map_to_list (clients w)).*1 w k row Hget)
      as Hkeep.
    destruct (notification_create data _ w) as [[nid|e] w1]; simpl in *; [|done].
    rewrite bind_run.
    by rewrite (forEach_forEach_tell (λ entry : string * gset string, elements entry.2)).
  - unfold emitToAdmins. rewrite bind_run. unfold prisma, read.
    destruct (fault (db w)) eqn:Hf; simpl; [done|].
    case_bool_decide; [done|]. rewrite bind_run.
    set (w0 := {| db := db w; clients := clients w;
                  log := log w ++ [Prisma "user" "findMany"] |}).
    pose proof (notification_create_keeps data
                  (findMany is_admin (users (db w))).*1 w0 k row Hget) as Hkeep.
    destruct (notification_create data _ w0) as [[nid|e] w1]; simpl in *; [|done].
    by rewrite forEach_getClients.
Qed.

Lemma notifications_append_only_witness :
  let first := (notifySingleUser "a" "queue:notification" Examples.notice
                  Examples.world_connected).2 in
  notifications (db (notifyAllUsers "queue:notification" Examples.notice first).2)
    !! "0"
  = Some (notification_row Examples.notice ["a"]).
Proof.
  intros first.
  apply (notifications_append_only "a" "queue:notification" Examples.notice first
           "0" (notification_row Examples.notice ["a"])).
  reflexivity.
Defined.

End QueueGatewayRestFacts.

(** ** More on the conversation service *)

Module ConversationRestFacts.
Import Store Wire Run ConversationService RunFacts StoreFacts Spec ConversationFacts.
Import Answers.

(** X12. A socket that is not bound to a user gets 'Unauthorized' from
    every handler of the service, as an error envelope returned and
    emitted to it; the store is not even queried. *)
Theorem handlers_require_user (client : Socket) (w : World) :
  Js.truthy (data_userId client) = None →
  (∀ dto, loadConversations client dto w = unauthorized client w) ∧
  (∀ dto, loadSingleConversation client dto w = unauthorized client w) ∧
  (∀ dto, initiateConversationWithUser client dto w = unauthorized client w) ∧
  (∀ dto, deleteConversation client dto w = unauthorized client w) ∧
  (∀ dto, archiveConversation client dto w = unauthorized client w) ∧
  (∀ dto, blockConversation client dto w = unauthorized client w) ∧
  (∀ dto, unblockConversation client dto w = unauthorized client w).
Proof.
  intros Hu. unfold unauthorized, refused_after.
  repeat split; intros dto;
    [unfold loadConversations|unfold loadSingleConversation
    |unfold initiateConversationWithUser|unfold deleteConversation
    |unfold archiveConversation|unfold blockConversation|unfold unblockConversation];
    unfold try_catch; by rewrite Hu.
Qed.

Lemma handlers_require_user_witness :
  archiveConversation (Examples.socket "s5" None) {| ca_conversationId := "c1" |}
    Examples.world0
  = unauthorized (Examples.socket "s5" None) Examples.world0.
Proof.
  apply (handlers_require_user (Examples.socket "s5" None) Examples.world0).
  reflexivity.
Defined.

(** *** Initiating *)

Lemma unjoined_findFirst a b (table : gmap string PrivateConversation) :
  unjoined a b table ↔ findFirst (pair_where a b) table = None.
Proof.
  split.
  - intros Hno. destruct (findFirst _ table) as [[k c]|] eqn:Hfind; [|done].
    apply findFirst_Some in Hfind as [Hget Hw]. apply pair_where_joins in Hw.
    by destruct (Hno _ _ Hget).
  - intros Hnone k c Hget Hj. apply (pair_where_joins a b k) in Hj.
    pose proof (findFirst_None _ _ _ _ Hnone Hget). congruence.
Qed.

(** X13. [initiateConversationWithUser] creates no conversation with
    oneself and none with someone who is not a user: the first is
    refused before the store is asked anything, the second after the
    lookup of the pair and of the target; the tables stay as they
    were and nothing is pushed. *)
Theorem initiate_refused client userId target w :
  Js.truthy (data_userId client) = Some userId →
  (target = userId ∨
   fault (db w) = None ∧ unjoined userId target (conversations (db w)) ∧
   users (db w) !! target = None) →
  initiateConversationWithUser client {| iu_userId := target |} w
  = if bool_decide (target = userId)
    then refused_after [] client "Cannot initiate conversation with yourself" w
    else refused_after [Prisma "privateConversation" "findFirst";
                        Prisma "user" "findUnique"]
           client "Target user not found" w.
Proof.
  intros Hu Hcase. case_bool_decide as Hself.
  - subst target. unfold initiateConversationWithUser, try_catch, refused_after.
    rewrite Hu. simpl. by rewrite bool_decide_eq_true_2.
  - destruct Hcase as [?|(Hf & Hno & Htarget)]; [done|].
    apply unjoined_findFirst in Hno.
    by rewrite (initiate_target_missing client userId target w).
Qed.

Lemma initiate_refused_witness :
  initiateConversationWithUser Examples.alice {| iu_userId := "a" |} Examples.world0
  = refused_after [] Examples.alice "Cannot initiate conversation with yourself"
      Examples.world0.
Proof.
  apply (initiate_refused Examples.alice "a" "a" Examples.world0); [reflexivity|].
  by left.
Defined.

(** X14. For a target who is a user and has no conversation with the
    caller yet, [initiateConversationWithUser] adds exactly one row
    under an id that was free: the caller is its initiator, the target
    its receiver, the status and the timestamps are the defaults; every
    other row and table is untouched, the caller is answered with the
    new conversation and the same answer is pushed to the target. *)
Theorem initiate_creates_one_row client userId target (u : User) w :
  Js.truthy (data_userId client) = Some userId →
  userId ≠ target →
  fault (db w) = None →
  unjoined userId target (conversations (db w)) →
  users (db w) !! target = Some u →
  let result := initiateConversationWithUser client {| iu_userId := target |} w in
  let k := fresh (dom (conversations (db w))) in
  let row := created_row (db w) userId target in
  conversations (db w) !! k = None ∧
  conversations (db result.2) = <[k := row]> (conversations (db w)) ∧
  size (conversations (db result.2)) = S (size (conversations (db w))) ∧
  (∀ k' c, conversations (db w) !! k' = Some c →
           conversations (db result.2) !! k' = Some c) ∧
  users (db result.2) = users (db w) ∧
  messages (db result.2) = messages (db w) ∧
  notifications (db result.2) = notifications (db w) ∧
  (∃ answer,
     result.1 = Ok (successResponse (DInitiated answer)) ∧
     ir_id answer = k ∧ ir_status answer = defaultStatus (db w) ∧
     p_id <$> ir_participant answer = Some target ∧
     filter (λ e, is_push e = true) (log result.2)
     = filter (λ e, is_push e = true) (log w)
       ++ [EmitToUserFirstSocket target EventsEnum_CONVERSATION_UPDATE
             (Envelope (successResponse (DInitiated answer)))]).
Proof.
  intros Hu Hne Hf Hno Htarget result k row.
  apply unjoined_findFirst in Hno.
  assert (conversations (db w) !! k = None) as Hfresh
    by apply not_elem_of_dom, is_fresh.
  subst result. rewrite (initiate_created client userId target u w) by done.
  simpl. fold k row. split; [done|]. split; [done|].
  split; [by apply map_size_insert_None|].
  split.
  { intros k' c Hget. rewrite lookup_insert_ne; [done|]. congruence. }
  split; [done|]. split; [done|]. split; [done|].
  eexists. split; [reflexivity|]. simpl. split; [done|]. split; [done|].
  split.
  - unfold counterpart_of, include_user. simpl. rewrite bool_decide_eq_true_2 by done.
    by rewrite Htarget.
  - rewrite filter_app. f_equal.
Qed.

Lemma initiate_creates_one_row_witness :
  size (conversations
          (db (initiateConversationWithUser Examples.alice {| iu_userId := "c" |}
                 Examples.world0).2)) = 2%nat.
Proof.
  destruct (initiate_creates_one_row Examples.alice "a" "c" (Examples.user "Carol")
              Examples.world0) as (_ & _ & Hsize & _);
    [reflexivity|discriminate|reflexivity| |reflexivity|exact Hsize].
  apply (bool_decide_unpack _). vm_compute. exact I.
Defined.

Ltac finish_log :=
  simpl;
  unfold chatGateway_emitError, QueueGateway.emitError, mbind, M_bind, bind, tell,
    mret, M_ret, ret, add_log;
  simpl; rewrite <- ?app_assoc; reflexivity.

(** *** Mutations by someone who has no part in the conversation *)

Lemma stranger_findFirst userId cid (table : gmap string PrivateConversation) :
  stranger_to userId cid table ↔ findFirst (member_where cid userId) table = None.
Proof.
  rewrite member_lookup. unfold stranger_to, is_participant. simpl. split.
  - intros Hs. destruct (table !! cid) as [c|]; [|done].
    destruct (Hs c eq_refl) as [Hi Hr]. by rewrite !bool_decide_eq_false_2.
  - intros Hnone c Hget. rewrite Hget in Hnone.
    destruct (bool_decide (initiatorId c = userId)) eqn:Hi; [done|].
    destruct (bool_decide (receiverId c = userId)) eqn:Hr; [done|].
    by apply bool_decide_eq_false in Hi, Hr.
Qed.

(** X15. A user cannot delete, archive, block or unblock a conversation
    of which they are not a participant, nor one that does not exist: each
    of the four answers 'Conversation not found or unauthorized' after
    the one lookup, with the store and the registry as they were and
    nothing pushed to anyone. *)
Theorem mutations_refuse_strangers client userId cid w :
  Js.truthy (data_userId client) = Some userId →
  fault (db w) = None →
  stranger_to userId cid (conversations (db w)) →
  let dto := {| ca_conversationId := cid |} in
  let refused := refused_after [Prisma "privateConversation" "findFirst"] client
                   "Conversation not found or unauthorized" w in
  deleteConversation client dto w = refused ∧
  archiveConversation client dto w = refused ∧
  blockConversation client dto w = refused ∧
  unblockConversation client dto w = refused.
Proof.
  intros Hu Hf Hs dto refused. apply stranger_findFirst in Hs.
  subst refused. unfold refused_after. repeat split.
  - unfold deleteConversation, try_catch. rewrite Hu.
    unfold mbind, M_bind, bind. rewrite prisma_ok by done. simpl. rewrite Hs. simpl.
    finish_log.
  - unfold archiveConversation, try_catch. rewrite Hu. unfold mbind, M_bind, bind.
    simpl. rewrite updateConversationStatus_miss by done. finish_log.
  - unfold blockConversation, try_catch. rewrite Hu. unfold mbind, M_bind, bind.
    simpl. rewrite updateConversationStatus_miss by done. finish_log.
  - unfold unblockConversation, try_catch. rewrite Hu. unfold mbind, M_bind, bind.
    simpl. rewrite updateConversationStatus_miss by done. finish_log.
Qed.

Lemma mutations_refuse_strangers_witness :
  deleteConversation Examples.carol {| ca_conversationId := "c1" |} Examples.world0
  = refused_after [Prisma "privateConversation" "findFirst"] Examples.carol
      "Conversation not found or unauthorized" Examples.world0.
Proof.
  apply (mutations_refuse_strangers Examples.carol "c" "c1" Examples.world0);
    [reflexivity|reflexivity|].
  intros c Hget. vm_compute in Hget. injection Hget as <-. split; discriminate.
Defined.

(** *** Deleting *)

(** Someone who has no part in a conversation, or asks for one that
    does not exist, is refused by [deleteConversation] and by
    [archiveConversation]. *)
Lemma absent_is_refused client userId cid w :
  Js.truthy (data_userId client) = Some userId →
  fault (db w) = None →
  findFirst (member_where cid userId) (conversations (db w)) = None →
  let dto := {| ca_conversationId := cid |} in
  (deleteConversation client dto w).1
    = Ok (errorResponse "Conversation not found or unauthorized") ∧
  (archiveConversation client dto w).1
    = Ok (errorResponse "Conversation not found or unauthorized").
Proof.
  intros Hu Hf Hs dto. split.
  - unfold deleteConversation, try_catch. rewrite Hu.
    unfold mbind, M_bind, bind. rewrite prisma_ok by done. simpl. by rewrite Hs.
  - unfold archiveConversation, try_catch. rewrite Hu. unfold mbind, M_bind, bind.
    simpl. by rewrite updateConversationStatus_miss by done.
Qed.

(** X16. A participant's [deleteConversation] of a conversation that
    holds no message removes the row of that conversation and no other,
    and leaves the users, messages and notifications of the store
    alone.  (What the delete does to the messages of a conversation
    that has some is decided by the schema, which the sources do not
    show.)  Afterwards the conversation is gone for both participants:
    a second delete, a status change or a load by either of them is
    refused like any unknown id. *)
Theorem deleteConversation_removes_row client userId cid c w :
  Js.truthy (data_userId client) = Some userId →
  fault (db w) = None →
  conversations (db w) !! cid = Some c →
  is_participant userId (cid, c) = true →
  without_messages cid (db w) →
  let dto := {| ca_conversationId := cid |} in
  let result := deleteConversation client dto w in
  result.1 = Ok (successResponse DSuccessTrue) ∧
  conversations (db result.2) = delete cid (conversations (db w)) ∧
  conversations (db result.2) !! cid = None ∧
  (∀ k, k ≠ cid → conversations (db result.2) !! k = conversations (db w) !! k) ∧
  users (db result.2) = users (db w) ∧
  messages (db result.2) = messages (db w) ∧
  notifications (db result.2) = notifications (db w) ∧
  (∀ other : Socket, is_Some (Js.truthy (data_userId other)) →
     (deleteConversation other dto result.2).1
       = Ok (errorResponse "Conversation not found or unauthorized") ∧
     (archiveConversation other dto result.2).1
       = Ok (errorResponse "Conversation not found or unauthorized") ∧
     (loadSingleConversation other
        {| ls_conversationId := cid; ls_page := None; ls_limit := None |} result.2).1
       = Ok (errorResponse "Conversation not found or unauthorized")).
Proof.
  intros Hu Hf Hget Hp _ dto result.
  subst result dto. rewrite (deleteConversation_ok client userId cid c w) by done.
  simpl. split; [done|]. split; [done|]. split; [apply lookup_delete_eq|].
  split; [intros k Hk; by apply lookup_delete_ne|].
  split; [done|]. split; [done|]. split; [done|].
  intros other [v Hv].
  set (w' := {| db := set_conversations (delete cid) (db w); clients := clients w;
                log := _ |}).
  assert (stranger_to v cid (conversations (db w'))) as Hs.
  { intros c' Hc'. simpl in Hc'. by rewrite lookup_delete_eq in Hc'. }
  apply stranger_findFirst in Hs.
  destruct (absent_is_refused other v cid w' Hv Hf Hs) as [-> ->].
  split; [done|]. split; [done|].
  by rewrite (loadSingleConversation_miss other v
                {| ls_conversationId := cid; ls_page := None; ls_limit := None |}
                w' Hv Hf Hs).
Qed.

Lemma deleteConversation_removes_row_witness :
  conversations
    (db (deleteConversation Examples.alice {| ca_conversationId := "k0" |}
           Examples.world45).2) !! "k0" = None.
Proof.
  destruct (deleteConversation_removes_row Examples.alice "a" "k0"
              (Examples.conversation "a" "u0" ACTIVE 0) Examples.world45)
    as (_ & _ & Hgone & _);
    [reflexivity|reflexivity|by vm_compute|reflexivity| |exact Hgone].
  apply (bool_decide_unpack _). vm_compute. exact I.
Defined.

(** *** What a status change leaves alone *)

(** X17. [archiveConversation], [blockConversation] and
    [unblockConversation] set the status column of the one row to
    ARCHIVED, BLOCKED and ACTIVE, and leave its participants, its last
    message and its creation time, every other conversation, and the
    users, messages and notifications of the store as they were.
    (Nothing is said of [updatedAt]: whether an update stamps it is
    decided by the schema, which the sources do not show.) *)
Theorem status_change_frame client userId cid c (p : Participant) w :
  Js.truthy (data_userId client) = Some userId →
  fault (db w) = None →
  conversations (db w) !! cid = Some c →
  is_participant userId (cid, c) = true →
  include_user (db w) (counterpart_of userId c) = Some p →
  let dto := {| ca_conversationId := cid |} in
  let frame (target : ConversationStatus) (result : outcome TResponse * World) :=
    (∃ c', conversations (db result.2) !! cid = Some c' ∧
           status c' = target ∧
           initiatorId c' = initiatorId c ∧ receiverId c' = receiverId c ∧
           lastMessageId c' = lastMessageId c ∧
           createdAt c' = createdAt c) ∧
    (∀ k, k ≠ cid → conversations (db result.2) !! k = conversations (db w) !! k) ∧
    dom (conversations (db result.2)) = dom (conversations (db w)) ∧
    users (db result.2) = users (db w) ∧
    messages (db result.2) = messages (db w) ∧
    notifications (db result.2) = notifications (db w) ∧
    clients result.2 = clients w in
  frame ARCHIVED (archiveConversation client dto w) ∧
  frame BLOCKED (blockConversation client dto w) ∧
  frame ACTIVE (unblockConversation client dto w).
Proof.
  intros Hu Hf Hget Hp Hother dto frame.
  assert (∀ target result,
            db result.2 = updated_db cid target c (db w) → clients result.2 = clients w →
            frame target result) as Hframe.
  { intros target result Hdb Hclients. subst frame. cbv beta. rewrite Hdb, Hclients.
    simpl. split.
    - exists (set_status target c). by rewrite lookup_insert_eq.
    - split; [intros k Hk; by rewrite lookup_insert_ne|].
      split; [|done]. rewrite dom_insert_L.
      assert (cid ∈ dom (conversations (db w))) by (apply elem_of_dom; by eexists).
      apply set_eq. intros x. rewrite elem_of_union, elem_of_singleton.
      split; [intros [->|?]; done|tauto]. }
  subst dto. split; [|split].
  - apply (Hframe ARCHIVED);
      by rewrite (archiveConversation_ok client userId cid c w).
  - apply (Hframe BLOCKED);
      by rewrite (blockConversation_ok client userId cid c p w).
  - apply (Hframe ACTIVE);
      by rewrite (unblockConversation_ok client userId cid c p w).
Qed.

Lemma status_change_frame_witness :
  users (db (blockConversation Examples.alice {| ca_conversationId := "c1" |}
               Examples.world0).2) = users Examples.db0.
Proof.
  destruct (status_change_frame Examples.alice "a" "c1"
              (Examples.conversation "a" "b" ACTIVE 5)
              {| p_id := "b"; p_name := "Bob"; p_email := "Bob@example.org";
                 p_profilePictureId := None |}
              Examples.world0) as (_ & Hblock & _); [reflexivity..|].
  apply Hblock.
Defined.

(** *** One conversation and its messages *)

Lemma StronglySorted_reverse {A} (R : relation A) (l : list A) :
  StronglySorted R l → StronglySorted (flip R) (reverse l).
Proof.
  induction 1 as [|x l Hl IH Hx]; [constructor|].
  rewrite reverse_cons. apply StronglySorted_app. split; [|split].
  - intros a b Ha Hb. apply list_elem_of_singleton in Hb as ->.
    rewrite elem_of_reverse in Ha. unfold flip.
    rewrite Forall_forall in Hx. by apply Hx.
  - exact IH.
  - repeat constructor.
Qed.

Lemma loadSingleConversation_ok client userId dto c rows w :
  Js.truthy (data_userId client) = Some userId →
  fault (db w) = None →
  conversations (db w) !! ls_conversationId dto = Some c →
  is_participant userId (ls_conversationId dto, c) = true →
  let page := default 1 (ls_page dto) in
  let limit := default 50 (ls_limit dto) in
  let selected :=
    findMany (λ m, bool_decide (conversationId m.2 = ls_conversationId dto))
      (messages (db w)) in
  skipTake ((page - 1) * limit) limit
    (include_message (db w) true (Some userId) <$>
       orderByDesc (λ r, msg_createdAt r.2) selected) = Some rows →
  let result :=
    DConversation
      {| ci_id := ls_conversationId dto;
         ci_participant := include_user (db w) (counterpart_of userId c);
         ci_status := status c; ci_createdAt := createdAt c;
         ci_updatedAt := updatedAt c |}
      (reverse rows)
      {| pg_page := page; pg_limit := limit;
         pg_total := Z.of_nat (List.length selected);
         pg_totalPages := Js.Math_ceil_div (Z.of_nat (List.length selected)) limit |} in
  loadSingleConversation client dto w =
  (Ok (successResponse result),
   add_log [Prisma "privateConversation" "findFirst";
            Prisma "privateMessage" "findMany";
            Prisma "privateMessage" "count";
            Emit (id client) EventsEnum_CONVERSATION_RESPONSE
              (Envelope (successResponse result))] w).
Proof.
  intros Hu Hf Hget Hp page limit selected Hrows result.
  unfold loadSingleConversation, try_catch. rewrite Hu.
  unfold mbind, M_bind, bind, promise_all.
  rewrite prisma_ok by done. simpl. rewrite member_lookup, Hget, Hp. simpl.
  rewrite prisma_ok by done. simpl. unfold page_of. fold page limit selected.
  rewrite Hrows. simpl. rewrite prisma_ok by done. simpl.
  unfold add_log, result, info_of. simpl. rewrite <- !app_assoc.
  rewrite (otherParticipant_include (db w) userId (ls_conversationId dto) c).
  reflexivity.
Qed.

(** X18. For a participant, [page >= 1] and [limit >= 1],
    [loadSingleConversation] answers with the conversation's summary
    (the counterpart as participant) and a page of its messages: they
    are messages of this conversation, with the status rows of the
    caller only; the page is cut from the newest end of the history
    (the messages by [createdAt] descending, [(page - 1) * limit]
    dropped, [limit] kept) and is returned oldest first; [total] is the
    number of messages of the conversation and [totalPages] the ceiling
    of [total / limit].  The store is only read. *)
Theorem loadSingleConversation_page client userId dto c w :
  Js.truthy (data_userId client) = Some userId →
  fault (db w) = None →
  conversations (db w) !! ls_conversationId dto = Some c →
  is_participant userId (ls_conversationId dto, c) = true →
  let page := default 1 (ls_page dto) in
  let limit := default 50 (ls_limit dto) in
  1 ≤ page →
  1 ≤ limit →
  let cid := ls_conversationId dto in
  let history :=
    orderByDesc (λ r, msg_createdAt r.2)
      (findMany (λ m, bool_decide (conversationId m.2 = cid)) (messages (db w))) in
  let result := loadSingleConversation client dto w in
  ∃ conversation messages_ pagination,
    result.1 = Ok (successResponse (DConversation conversation messages_ pagination)) ∧
    ci_id conversation = cid ∧
    ci_status conversation = status c ∧
    ci_participant conversation = include_user (db w) (counterpart_of userId c) ∧
    mv_id <$> messages_
      = reverse (take (Z.to_nat limit) (drop (Z.to_nat ((page - 1) * limit)) history)).*1 ∧
    (∀ m, m ∈ messages_ →
       messages (db w) !! mv_id m = Some (mv_message m) ∧
       conversationId (mv_message m) = cid ∧
       mv_statuses m
         = Some (filter (λ s, ms_userId s = userId) (statuses (mv_message m)))) ∧
    StronglySorted
      (λ a b, msg_createdAt (mv_message a) ≤ msg_createdAt (mv_message b)) messages_ ∧
    Z.of_nat (List.length messages_) ≤ limit ∧
    pg_total pagination = Z.of_nat (List.length history) ∧
    (∃ k, pg_totalPages pagination = Js.Finite k ∧
          is_ceiling (Z.of_nat (List.length history)) limit k) ∧
    db result.2 = db w ∧
    clients result.2 = clients w.
Proof.
  intros Hu Hf Hget Hp page limit Hpage Hlimit cid history result.
  assert (0 ≤ (page - 1) * limit) as Hskip by nia.
  pose proof (skipTake_forward ((page - 1) * limit) limit
                (include_message (db w) true (Some userId) <$> history) Hskip
                ltac:(lia)) as Hrows.
  subst result.
  rewrite (loadSingleConversation_ok client userId dto c _ w Hu Hf Hget Hp Hrows).
  simpl. fold page limit cid.
  assert (List.length history
          = List.length (findMany (λ m, bool_decide (conversationId m.2 = cid))
                           (messages (db w)))) as Hlen
    by apply Permutation_length, orderByDesc_perm.
  fold cid in Hlen. rewrite <- Hlen.
  eexists _, _, _. split; [reflexivity|]. simpl.
  split; [done|]. split; [done|]. split; [done|].
  split.
  { rewrite fmap_reverse. f_equal.
    rewrite <- fmap_drop, <- fmap_take, <- list_fmap_compose. by apply list_fmap_ext. }
  split.
  { intros m Hm. rewrite elem_of_reverse in Hm.
    apply subseteq_take, subseteq_drop in Hm.
    apply list_elem_of_fmap in Hm as ([k msg] & -> & Hin). simpl.
    subst history. rewrite orderByDesc_perm in Hin.
    apply elem_of_findMany in Hin as [Hmsg Hc]. simpl in Hc.
    apply bool_decide_eq_true in Hc. done. }
  split.
  { apply (StronglySorted_reverse
             (λ a b, msg_createdAt (mv_message b) ≤ msg_createdAt (mv_message a))).
    rewrite <- fmap_drop, <- fmap_take.
    apply (StronglySorted_fmap _
             (desc (λ r : string * PrivateMessage, msg_createdAt r.2))).
    - intros a b Hab. exact Hab.
    - apply StronglySorted_take_drop, orderByDesc_sorted. }
  split.
  { rewrite length_reverse, length_take. lia. }
  split; [done|].
  split; [apply Math_ceil_div_ceiling; lia|]. done.
Qed.

Lemma loadSingleConversation_page_witness :
  ∃ conversation messages_ pagination,
    (loadSingleConversation Examples.alice
       {| ls_conversationId := "c1"; ls_page := Some 1; ls_limit := Some 2 |}
       Examples.world0).1
      = Ok (successResponse (DConversation conversation messages_ pagination)) ∧
    Z.of_nat (List.length messages_) ≤ 2.
Proof.
  destruct (loadSingleConversation_page Examples.alice "a"
              {| ls_conversationId := "c1"; ls_page := Some 1; ls_limit := Some 2 |}
              (Examples.conversation "a" "b" ACTIVE 5) Examples.world0)
    as (conversation & messages_ & pagination & Hres & _ & _ & _ & _ & _ & _ & Hlen & _);
    [reflexivity|reflexivity|reflexivity|reflexivity|simpl; lia|simpl; lia|].
  by exists conversation, messages_, pagination.
Defined.

(** *** Every call is answered *)

Ltac split_cases :=
  repeat match goal with
         | |- context [match ?x with _ => _ end] =>
             lazymatch x with
             | context [match _ with _ => _ end] => fail
             | _ => destruct x eqn:?; simpl
             end
         end.

Ltac answer :=
  unfold Answers.answered; simpl;
  eexists; split;
  [split;
   [rewrite <- ?app_assoc; reflexivity
   |eexists _, _; split; [reflexivity|];
    rewrite ?elem_of_app, ?elem_of_cons; tauto]
  |].

Lemma loadConversations_answers client dto w :
  ∃ es, answered client w (loadConversations client dto w) es ∧
        Forall (λ e, is_push e = false) es ∧
        db (loadConversations client dto w).2 = db w ∧
        clients (loadConversations client dto w).2 = clients w.
Proof.
  unfold loadConversations, try_catch, mbind, M_bind, bind, promise_all, prisma,
    read, page_of, chatGateway_emitError, QueueGateway.emitError, tell, add_log.
  simpl. split_cases; answer; by repeat constructor.
Qed.

Lemma loadSingleConversation_answers client dto w :
  ∃ es, answered client w (loadSingleConversation client dto w) es ∧
        Forall (λ e, is_push e = false) es ∧
        db (loadSingleConversation client dto w).2 = db w ∧
        clients (loadSingleConversation client dto w).2 = clients w.
Proof.
  unfold loadSingleConversation, try_catch, mbind, M_bind, bind, promise_all, prisma,
    read, page_of, chatGateway_emitError, QueueGateway.emitError, tell, add_log.
  simpl. split_cases; answer; by repeat constructor.
Qed.

(** X19. [loadConversations] and [loadSingleConversation] only read:
    whatever the input and whether or not the store is available, they
    do not throw, they return an envelope that they have also emitted to
    the caller's socket, they push nothing to anyone else, and they
    leave the store and the registry as they were. *)
Theorem queries_only_read client w :
  (∀ dto, ∃ es,
     answered client w (loadConversations client dto w) es ∧
     Forall (λ e, is_push e = false) es ∧
     db (loadConversations client dto w).2 = db w ∧
     clients (loadConversations client dto w).2 = clients w) ∧
  (∀ dto, ∃ es,
     answered client w (loadSingleConversation client dto w) es ∧
     Forall (λ e, is_push e = false) es ∧
     db (loadSingleConversation client dto w).2 = db w ∧
     clients (loadSingleConversation client dto w).2 = clients w).
Proof.
  split; intros dto;
    [apply loadConversations_answers|apply loadSingleConversation_answers].
Qed.

Ltac unfold_handler :=
  unfold try_catch, updateConversationStatus, initiate_respond, conversation_create,
    participant_id, chatGateway_emitToUserFirstSocket, mbind, M_bind, bind, throw,
    prisma, read, chatGateway_emitError, QueueGateway.emitError, tell, add_log,
    mret, M_ret, ret;
  simpl.

Lemma mutation_answers (handler : Socket → ConversationActionDto → M TResponse)
  client dto w :
  handler = deleteConversation ∨ handler = archiveConversation ∨
  handler = blockConversation ∨ handler = unblockConversation →
  ∃ es, answered client w (handler client dto w) es ∧
        only_conversations w (handler client dto w).2.
Proof.
  intros [->|[->|[->| ->]]];
    [unfold deleteConversation|unfold archiveConversation
    |unfold blockConversation|unfold unblockConversation];
    unfold_handler; split_cases; answer; by repeat split.
Qed.

Lemma initiate_answers client dto w :
  ∃ es, answered client w (initiateConversationWithUser client dto w) es ∧
        only_conversations w (initiateConversationWithUser client dto w).2.
Proof.
  unfold initiateConversationWithUser. unfold_handler.
  split_cases; answer; by repeat split.
Qed.

(** X20. The five mutations of the service never throw, whatever the
    input and whether or not the store is available: each returns an
    envelope that it has also emitted to the caller's socket, and
    leaves the users, the notifications and the registry as they were.
    [initiateConversationWithUser] and the three status changes leave
    the messages as they were too; for [deleteConversation] nothing is
    said of the messages, whose fate the schema decides. *)
Theorem mutations_answer_and_keep client w :
  (∀ dto, ∃ es,
     answered client w (initiateConversationWithUser client dto w) es ∧
     only_conversations w (initiateConversationWithUser client dto w).2) ∧
  (∀ dto, ∃ es,
     answered client w (deleteConversation client dto w) es ∧
     keeps_users_and_notifications w (deleteConversation client dto w).2) ∧
  (∀ dto, ∃ es,
     answered client w (archiveConversation client dto w) es ∧
     only_conversations w (archiveConversation client dto w).2) ∧
  (∀ dto, ∃ es,
     answered client w (blockConversation client dto w) es ∧
     only_conversations w (blockConversation client dto w).2) ∧
  (∀ dto, ∃ es,
     answered client w (unblockConversation client dto w) es ∧
     only_conversations w (unblockConversation client dto w).2).
Proof.
  split; [intros dto; apply initiate_answers|].
  split.
  { intros dto.
    destruct (mutation_answers deleteConversation client dto w) as (es & Ha & Hk);
      [tauto|].
    exists es. split; [exact Ha|].
    destruct Hk as (Husers & _ & Hn & Hfault & Hc). by repeat split. }
  repeat split; intros dto; apply mutation_answers; tauto.
Qed.

(** *** Searching *)

Lemma startsWith_spec p s :
  Js.startsWith p s = true ↔ ∃ rest, s = String.append p rest.
Proof.
  revert s. induction p as [|a p IH]; intros s; simpl.
  - split; [by exists s|done].
  - destruct s as [|b s].
    + split; [done|]. by intros [rest Hrest].
    + destruct (Ascii.eqb_spec a b) as [->|Hne].
      * rewrite IH. split; intros [rest Hrest]; exists rest.
        -- by rewrite Hrest.
        -- by injection Hrest.
      * split; [done|]. intros [rest Hrest]. injection Hrest as Hab _. congruence.
Qed.

(** [Js.includes] is occurrence as a substring. *)
Lemma includes_spec needle hay : Js.includes needle hay = true ↔ occurs_in needle hay.
Proof.
  unfold occurs_in. induction hay as [|c hay IH]; simpl.
  - rewrite orb_false_r, startsWith_spec. split.
    + intros [rest Hrest]. by exists "", rest.
    + intros ([|b before] & rest & Hrest); [by exists rest|done].
  - rewrite orb_true_iff, startsWith_spec, IH. split.
    + intros [[rest Hrest]|(before & rest & Hrest)].
      * by exists "", rest.
      * exists (String c before), rest. simpl. by rewrite Hrest.
    + intros ([|b before] & rest & Hrest).
      * left. by exists rest.
      * right. injection Hrest as _ Hrest. by exists before, rest.
Qed.

Lemma search_where_spec d search k c :
  search_where d search (k, c) = true ↔
  ∃ text, searched_text d c text ∧
          occurs_in (Js.toLowerCase search) (Js.toLowerCase text).
Proof.
  unfold search_where, searched_text, contains_insensitive. simpl.
  rewrite !orb_true_iff. split.
  - intros [[H|H]|H].
    + destruct (users d !! initiatorId c) as [u|] eqn:Hu; [|done].
      exists (user_name u). split; [left; by exists u|by apply includes_spec].
    + destruct (users d !! receiverId c) as [u|] eqn:Hu; [|done].
      exists (user_name u). split; [right; left; by exists u|by apply includes_spec].
    + destruct (lastMessageId c) as [km|] eqn:Hk; [|done]. simpl in H.
      destruct (messages d !! km) as [m|] eqn:Hm; [|done].
      exists (content m). split; [right; right; by exists km, m|by apply includes_spec].
  - intros (text & [(u & Hu & ->)|[(u & Hu & ->)|(km & m & Hk & Hm & ->)]] & Hocc);
      apply includes_spec in Hocc.
    + left. left. by rewrite Hu.
    + left. right. by rewrite Hu.
    + right. rewrite Hk. simpl. by rewrite Hm.
Qed.

(** X21. With a search text made of letters, digits and spaces, over
    a store whose user names and message contents are ASCII (where the
    database's case-insensitive [contains] is the occurrence of the text
    with letter case ignored: no wildcard, no folding outside ASCII),
    [loadConversations] lists only conversations of the caller in which
    the text occurs in the name of one of the two participants or in
    the content of the last message; and of the caller's conversations
    every one with such an occurrence is counted in [total].  An empty
    search text is no search. *)
Theorem loadConversations_search client userId dto search w :
  Js.truthy (data_userId client) = Some userId →
  fault (db w) = None →
  0 ≤ (default 1 (lc_page dto) - 1) * default 20 (lc_limit dto) →
  Js.truthy (lc_search dto) = Some search →
  plain_text search →
  ascii_store (db w) →
  let matches (c : PrivateConversation) :=
    ∃ text, searched_text (db w) c text ∧
            occurs_in (Js.toLowerCase search) (Js.toLowerCase text) in
  (∃ convs pagination,
     (loadConversations client dto w).1
       = Ok (successResponse (DConversations convs pagination)) ∧
     (∀ s, s ∈ convs →
        ∃ c, conversations (db w) !! cs_id s = Some c ∧
             is_participant userId (cs_id s, c) = true ∧ matches c) ∧
     ∃ selected : list (string * PrivateConversation),
       NoDup selected ∧
       pg_total pagination = Z.of_nat (List.length selected) ∧
       ∀ k c, (k, c) ∈ selected ↔
              conversations (db w) !! k = Some c ∧
              is_participant userId (k, c) = true ∧ matches c) ∧
  loadConversations client
    {| lc_page := lc_page dto; lc_limit := lc_limit dto; lc_search := Some "" |} w
  = loadConversations client
      {| lc_page := lc_page dto; lc_limit := lc_limit dto; lc_search := None |} w.
Proof.
  intros Hu Hf Hskip Hsearch _ _ matches. split; [|reflexivity].
  destruct (skipTake_is_Some _ (default 20 (lc_limit dto))
              (include_list (db w) userId <$>
                 orderByDesc (λ r, updatedAt r.2)
                   (findMany (whereClause (db w) userId (lc_search dto))
                      (conversations (db w)))) Hskip) as [rows Hrows].
  rewrite (loadConversations_ok client userId dto rows) by done. simpl.
  eexists _, _. split; [reflexivity|]. simpl.
  assert (∀ k c, whereClause (db w) userId (lc_search dto) (k, c) = true ↔
                 is_participant userId (k, c) = true ∧ matches c) as Hwhere.
  { intros k c. unfold whereClause. rewrite Hsearch, andb_true_iff.
    by rewrite search_where_spec. }
  split.
  - intros s Hs. apply list_elem_of_fmap in Hs as (inc & -> & Hinc).
    apply (skipTake_elem_of _ _ _ _ _ Hrows) in Hinc.
    apply list_elem_of_fmap in Hinc as ([k c] & -> & Hr).
    rewrite orderByDesc_perm in Hr. apply elem_of_findMany in Hr as [Hget Hw].
    apply Hwhere in Hw as [Hp Hm]. simpl. by exists c.
  - exists (findMany (whereClause (db w) userId (lc_search dto)) (conversations (db w))).
    split; [apply NoDup_findMany|]. split; [done|].
    intros k c. by rewrite elem_of_findMany, Hwhere.
Qed.

Lemma loadConversations_search_witness :
  ∃ convs pagination,
    (loadConversations Examples.alice
       {| lc_page := None; lc_limit := None; lc_search := Some "BO" |}
       Examples.world0).1
      = Ok (successResponse (DConversations convs pagination)) ∧
    ∀ s, s ∈ convs → ∃ c, conversations Examples.db0 !! cs_id s = Some c.
Proof.
  destruct (loadConversations_search Examples.alice "a"
              {| lc_page := None; lc_limit := None; lc_search := Some "BO" |}
              "BO" Examples.world0) as [(convs & pagination & Hres & Hall & _) _];
    [reflexivity|reflexivity|simpl; lia|reflexivity| | |].
  - apply (bool_decide_unpack _). vm_compute. exact I.
  - apply (bool_decide_unpack _). vm_compute. exact I.
  - exists convs, pagination. split; [exact Hres|].
    intros s Hs. destruct (Hall s Hs) as (c & Hc & _). by exists c.
Defined.

(** *** Pages past the end *)

(** X22. A page that starts at or after the end of the selection is
    empty, for [loadConversations] and for [loadSingleConversation]
    alike ([page >= 1], [limit >= 1]); the pagination still reports the
    total, and a caller with no conversation at all is told of 0
    pages. *)
Theorem pages_past_the_end client userId w :
  Js.truthy (data_userId client) = Some userId →
  fault (db w) = None →
  (∀ dto,
     let page := default 1 (lc_page dto) in
     let limit := default 20 (lc_limit dto) in
     let total :=
       Z.of_nat (List.length (findMany (whereClause (db w) userId (lc_search dto))
                                (conversations (db w)))) in
     1 ≤ page → 1 ≤ limit → total ≤ (page - 1) * limit →
     ∃ pagination,
       (loadConversations client dto w).1
         = Ok (successResponse (DConversations [] pagination)) ∧
       pg_total pagination = total ∧
       (total = 0 → pg_totalPages pagination = Js.Finite 0)) ∧
  (∀ dto c,
     let page := default 1 (ls_page dto) in
     let limit := default 50 (ls_limit dto) in
     let total :=
       Z.of_nat (List.length
                   (findMany (λ m, bool_decide (conversationId m.2 = ls_conversationId dto))
                      (messages (db w)))) in
     conversations (db w) !! ls_conversationId dto = Some c →
     is_participant userId (ls_conversationId dto, c) = true →
     1 ≤ page → 1 ≤ limit → total ≤ (page - 1) * limit →
     ∃ conversation pagination,
       (loadSingleConversation client dto w).1
         = Ok (successResponse (DConversation conversation [] pagination)) ∧
       pg_total pagination = total ∧
       (total = 0 → pg_totalPages pagination = Js.Finite 0)).
Proof.
  intros Hu Hf.
  assert (∀ {A} (l : list A) (skip limit : Z),
            0 ≤ limit → Z.of_nat (List.length l) ≤ skip →
            skipTake skip limit l = Some []) as Hempty.
  { intros A l skip limit Hl Hs. rewrite skipTake_forward by lia.
    rewrite drop_ge by lia. by rewrite take_nil. }
  split.
  - intros dto page limit total Hpage Hlimit Hpast.
    rewrite (loadConversations_ok client userId dto [] w Hu Hf).
    + simpl. eexists. split; [reflexivity|]. simpl. split; [done|].
      fold total limit. intros ->. unfold Js.Math_ceil_div.
      destruct (Z.eqb_spec limit 0); [lia|]. by rewrite Z.div_0_l.
    + fold page limit. apply Hempty; [lia|].
      rewrite length_fmap.
      rewrite (Permutation_length (orderByDesc_perm _ _)). exact Hpast.
  - intros dto c page limit total Hget Hp Hpage Hlimit Hpast.
    rewrite (loadSingleConversation_ok client userId dto c [] w Hu Hf Hget Hp).
    + simpl. eexists _, _. split; [reflexivity|]. simpl. split; [done|].
      fold total limit. intros ->. unfold Js.Math_ceil_div.
      destruct (Z.eqb_spec limit 0); [lia|]. by rewrite Z.div_0_l.
    + fold page limit. apply Hempty; [lia|].
      rewrite length_fmap.
      rewrite (Permutation_length (orderByDesc_perm _ _)). exact Hpast.
Qed.

Lemma pages_past_the_end_witness :
  ∃ pagination,
    (loadConversations Examples.alice (Examples.page_of_20 4) Examples.world45).1
    = Ok (successResponse (DConversations [] pagination)).
Proof.
  destruct (pages_past_the_end Examples.alice "a" Examples.world45) as [Hlist _];
    [reflexivity|reflexivity|].
  destruct (Hlist (Examples.page_of_20 4)) as (pagination & Hres & _);
    [simpl; lia|simpl; lia|by vm_compute|].
  by exists pagination.
Defined.

(** *** The store is down *)

(** X23. While the store is down every handler answers the caller with
    the store's error as an error envelope, after the first query it
    tried ([loadConversations] tries its two queries together), and
    changes nothing. *)
Theorem store_down_is_answered client userId e w :
  Js.truthy (data_userId client) = Some userId →
  fault (db w) = Some e →
  let after_lookup := [Prisma "privateConversation" "findFirst"] in
  (∀ dto, loadConversations client dto w
          = refused_after [Prisma "privateConversation" "findMany";
                           Prisma "privateConversation" "count"] client e w) ∧
  (∀ dto, loadSingleConversation client dto w = refused_after after_lookup client e w) ∧
  (∀ dto, iu_userId dto ≠ userId →
          initiateConversationWithUser client dto w
          = refused_after after_lookup client e w) ∧
  (∀ dto, deleteConversation client dto w = refused_after after_lookup client e w) ∧
  (∀ dto, archiveConversation client dto w = refused_after after_lookup client e w) ∧
  (∀ dto, blockConversation client dto w = refused_after after_lookup client e w) ∧
  (∀ dto, unblockConversation client dto w = refused_after after_lookup client e w).
Proof.
  intros Hu Hf after_lookup. unfold refused_after.
  split; [|split; [|split; [|split; [|split; [|split]]]]]; intros dto.
  - unfold loadConversations, try_catch. rewrite Hu.
    unfold mbind, M_bind, bind, promise_all, prisma. rewrite Hf. simpl. rewrite ?Hf. finish_log.
  - unfold loadSingleConversation, try_catch. rewrite Hu.
    unfold mbind, M_bind, bind, prisma. rewrite Hf. simpl. rewrite ?Hf. finish_log.
  - intros Hne. unfold initiateConversationWithUser, try_catch. rewrite Hu.
    rewrite bool_decide_eq_false_2 by done.
    unfold mbind, M_bind, bind, prisma. rewrite Hf. simpl. rewrite ?Hf. finish_log.
  - unfold deleteConversation, try_catch. rewrite Hu.
    unfold mbind, M_bind, bind, prisma. rewrite Hf. simpl. rewrite ?Hf. finish_log.
  - unfold archiveConversation, try_catch, updateConversationStatus. rewrite Hu.
    unfold mbind, M_bind, bind, prisma. rewrite Hf. simpl. rewrite ?Hf. finish_log.
  - unfold blockConversation, try_catch, updateConversationStatus. rewrite Hu.
    unfold mbind, M_bind, bind, prisma. rewrite Hf. simpl. rewrite ?Hf. finish_log.
  - unfold unblockConversation, try_catch, updateConversationStatus. rewrite Hu.
    unfold mbind, M_bind, bind, prisma. rewrite Hf. simpl. rewrite ?Hf. finish_log.
Qed.

Lemma store_down_is_answered_witness :
  blockConversation Examples.alice {| ca_conversationId := "c1" |} Examples.world_down
  = refused_after [Prisma "privateConversation" "findFirst"] Examples.alice
      "Can't reach database server" Examples.world_down.
Proof.
  apply (store_down_is_answered Examples.alice "a" "Can't reach database server"
           Examples.world_down); reflexivity.
Defined.

End ConversationRestFacts.

(** ** The account services *)

Module AccountFacts.
Import Auth AuthSpec.

Lemma with_accounts_id (w : State) : with_accounts (accounts w) w = w.
Proof. by destruct w. Qed.

Lemma row_of_email_Some (e : string) (t : gmap string Account) (k : string) (a : Account) :
  row_of_email e t = Some (k, a) → t !! k = Some a ∧ email a = e.
Proof.
  unfold row_of_email. intros H. apply head_Some_elem_of in H.
  apply list_elem_of_filter in H as [He Hin].
  by apply elem_of_map_to_list in Hin.
Qed.

Lemma row_of_email_None (e : string) (t : gmap string Account) (k : string) (a : Account) :
  row_of_email e t = None → t !! k = Some a → email a ≠ e.
Proof.
  unfold row_of_email. intros H Hk He.
  apply head_None in H.
  assert (Hin : (k, a) ∈ filter (λ r : string * Account, email r.2 = e) (map_to_list t)).
  { apply list_elem_of_filter. split; [done|]. by apply elem_of_map_to_list. }
  rewrite H in Hin. by apply elem_of_nil in Hin.
Qed.

Lemma email_unique_spec (t : gmap string Account) :
  email_unique t ↔
  ∀ k1 a1 k2 a2,
    t !! k1 = Some a1 → t !! k2 = Some a2 → email a1 = email a2 → k1 = k2.
Proof.
  unfold email_unique. split.
  - intros H k1 a1 k2 a2 H1 H2. exact (H k1 a1 H1 k2 a2 H2).
  - intros H k1 a1 H1 k2 a2 H2. by apply (H k1 a1 k2 a2).
Qed.

Lemma row_of_email_unique (e : string) (t : gmap string Account) (k : string) (a : Account) :
  email_unique t → t !! k = Some a → email a = e → row_of_email e t = Some (k, a).
Proof.
  rewrite email_unique_spec. intros Hu Hk He.
  destruct (row_of_email e t) as [[k' a']|] eqn:Hrow.
  - apply row_of_email_Some in Hrow as [Hk' He'].
    assert (k' = k) as -> by (apply (Hu k' a' k a); congruence).
    congruence.
  - by destruct (row_of_email_None e t k a).
Qed.

Lemma email_unique_insert (t : gmap string Account) (k : string) (a a' : Account) :
  email_unique t → t !! k = Some a → email a' = email a → email_unique (<[k := a']> t).
Proof.
  rewrite !email_unique_spec. intros Hu Hk He k1 a1 k2 a2 H1 H2 Heq.
  destruct (decide (k1 = k)) as [->|N1], (decide (k2 = k)) as [->|N2]; [done|..].
  - rewrite lookup_insert_eq in H1. rewrite lookup_insert_ne in H2 by done.
    symmetry. apply (Hu k2 a2 k a); [done..|]. congruence.
  - rewrite lookup_insert_eq in H2. rewrite lookup_insert_ne in H1 by done.
    apply (Hu k1 a1 k a); [done..|]. congruence.
  - rewrite lookup_insert_ne in H1 by done. rewrite lookup_insert_ne in H2 by done.
    by apply (Hu k1 a1 k2 a2).
Qed.

Lemma find_by_email_up (e : string) (w : State) :
  down w = None → find_by_email e w = (Return (row_of_email e (accounts w)), w).
Proof. unfold find_by_email, query. intros ->. by rewrite with_accounts_id. Qed.

Lemma find_by_id_up (k : string) (w : State) :
  down w = None → find_by_id k w = (Return (accounts w !! k), w).
Proof. unfold find_by_id, query. intros ->. by rewrite with_accounts_id. Qed.

Lemma update_by_id_up (k : string) (f : Account → Account) (w : State) (a : Account) :
  down w = None → accounts w !! k = Some a →
  update_by_id k f w = (Return (f a), with_accounts (<[k := f a]> (accounts w)) w).
Proof. unfold update_by_id, query. by intros -> ->. Qed.

Lemma update_by_email_up (e : string) (f : Account → Account) (w : State)
  (k : string) (a : Account) :
  down w = None → row_of_email e (accounts w) = Some (k, a) →
  update_by_email e f w = (Return (f a), with_accounts (<[k := f a]> (accounts w)) w).
Proof. unfold update_by_email, query. by intros -> ->. Qed.

Lemma query_down {A} (q : gmap string Account → result A * gmap string Account)
  (w : State) (e : string) :
  down w = Some e → query q w = (Raise (Error e), w).
Proof. unfold query. by intros ->. Qed.

Lemma find_by_email_down (e : string) (w : State) (err : string) :
  down w = Some err → find_by_email e w = (Raise (Error err), w).
Proof. apply query_down. Qed.

Lemma find_by_id_down (k : string) (w : State) (err : string) :
  down w = Some err → find_by_id k w = (Raise (Error err), w).
Proof. apply query_down. Qed.

Lemma now_run {B} (k : Z → Call B) (w : State) : (now ≫= k) w = k (clock w) w.
Proof. reflexivity. Qed.

Lemma bind_return {A B} (m : Call A) (k : A → Call B) (w w' : State) (a : A) :
  m w = (Return a, w') → (m ≫= k) w = k a w'.
Proof. unfold mbind, Call_bind. by intros ->. Qed.

Lemma bind_raise {A B} (m : Call A) (k : A → Call B) (w w' : State) (e : Thrown) :
  m w = (Raise e, w') → (m ≫= k) w = (Raise e, w').
Proof. unfold mbind, Call_bind. by intros ->. Qed.

Lemma active_code_dec (date : Z) (a : Account) :
  active_code date a ↔
  match Js.truthy (otp a), otpExpiresAt a with
  | Some _, Some expires => date <? expires
  | _, _ => false
  end = true.
Proof.
  unfold active_code. split.
  - intros (code & expires & -> & -> & Hlt). by apply Z.ltb_lt.
  - destruct (Js.truthy (otp a)) as [code|]; [|done].
    destruct (otpExpiresAt a) as [expires|]; [|done].
    intros Hlt. exists code, expires. by apply Z.ltb_lt in Hlt.
Qed.

Lemma active_code_cases (date : Z) (a : Account) :
  active_code date a ∨ ¬ active_code date a.
Proof.
  rewrite active_code_dec.
  destruct (match Js.truthy (otp a) with Some _ => _ | None => _ end); [by left|by right].
Qed.

Section Services.

Variable generated_otp : Z.
Variable generated_expiry : Z.
Variable utils_hash : string → string.
Variable utils_compare : string → string → Truth.
Variable utils_generateToken : string → string → string → string.
Variable User : Type.
Variable utils_sanitizedResponse : string → Account → User.
Variable mail_failure : Mail → option string.

Local Abbreviation otp_text := (Auth.otp_text generated_otp).
Local Abbreviation send := (Auth.send mail_failure).
Local Abbreviation resendOtp :=
  (Auth.resendOtp generated_otp generated_expiry utils_hash User mail_failure).
Local Abbreviation verifyOTP :=
  (Auth.verifyOTP utils_compare utils_generateToken User utils_sanitizedResponse).
Local Abbreviation logout := (Auth.logout User).
Local Abbreviation changePassword := (Auth.changePassword utils_hash utils_compare User).
Local Abbreviation forgotPassword :=
  (Auth.forgotPassword generated_otp generated_expiry utils_hash User mail_failure).
Local Abbreviation resetPassword :=
  (Auth.resetPassword utils_hash utils_compare User mail_failure).

Local Abbreviation code_mail email_ :=
  (VerificationCodeEmail email_ otp_text "Your OTP Code"
     "Here is your OTP code. It will expire in 5 minutes.").

(** What [resendOtp] does once the user is found and holds no active
    code. *)
Lemma resendOtp_run (email_ : string) (w : State) (k : string) (a : Account) :
  down w = None →
  row_of_email email_ (accounts w) = Some (k, a) →
  ¬ active_code (clock w) a →
  resendOtp email_ w =
    match mail_failure (code_mail email_) with
    | None =>
        (Return (Done "OTP resent successfully"),
         with_outbox (outbox w ++ [code_mail email_])
           (with_accounts
              (<[k := set_otp (Some (utils_hash otp_text)) (Some generated_expiry) a]>
                 (accounts w)) w))
    | Some _ =>
        (Raise (AppError 400 "Failed to send OTP email. Please try again later."),
         with_accounts (<[k := set_otp_typed None None None a]> (accounts w)) w)
    end.
Proof.
  intros Hup Hrow Hactive. unfold Auth.resendOtp.
  rewrite (bind_return _ _ _ _ _ (find_by_email_up email_ w Hup)), Hrow.
  unfold now at 1. unfold mbind at 1, Call_bind at 1.
  rewrite active_code_dec in Hactive. apply not_true_is_false in Hactive.
  rewrite Hactive.
  rewrite (bind_return _ _ _ _ _ (update_by_id_up k _ w a Hup (proj1 (row_of_email_Some _ _ _ _ Hrow)))).
  unfold Auth.catch, Auth.send.
  destruct (mail_failure (code_mail email_)) as [e|] eqn:Hmail.
  - unfold mbind at 1, Call_bind at 1. cbv beta.
    erewrite (bind_return (update_by_id k _));
      [|apply update_by_id_up; [done|simpl; apply lookup_insert_eq]].
    unfold raise, with_accounts. simpl. by rewrite insert_insert_eq.
  - reflexivity.
Qed.

Lemma resendOtp_down (email_ : string) (w : State) (e : string) :
  down w = Some e → resendOtp email_ w = (Raise (Error e), w).
Proof.
  intros Hd. unfold Auth.resendOtp.
  by rewrite (bind_raise _ _ _ _ _ (find_by_email_down _ w e Hd)).
Qed.

Lemma resendOtp_missing (email_ : string) (w : State) :
  down w = None → row_of_email email_ (accounts w) = None →
  resendOtp email_ w = (Raise (AppError 404 "User not found"), w).
Proof.
  intros Hup Hrow. unfold Auth.resendOtp.
  by rewrite (bind_return _ _ _ _ _ (find_by_email_up email_ w Hup)), Hrow.
Qed.

Lemma resendOtp_active (email_ : string) (w : State) (k : string) (a : Account) :
  down w = None → row_of_email email_ (accounts w) = Some (k, a) →
  active_code (clock w) a →
  resendOtp email_ w =
    (Raise (AppError 400 "An active OTP already exists. Please check your inbox."), w).
Proof.
  intros Hup Hrow Hactive. unfold Auth.resendOtp.
  rewrite (bind_return _ _ _ _ _ (find_by_email_up email_ w Hup)), Hrow.
  unfold now at 1. unfold mbind at 1, Call_bind at 1.
  rewrite active_code_dec in Hactive. by rewrite Hactive.
Qed.

(** X24. [resendOtp] throws "An active OTP already exists" exactly when
    the store answers and the first user with that email holds a code
    that has not expired; it has then written nothing and sent
    nothing. *)
Theorem resendOtp_active_iff (email_ : string) (w : State) :
  let refusal :=
    Raise (AppError 400 "An active OTP already exists. Please check your inbox.") in
  let pending :=
    down w = None ∧
    ∃ k a, row_of_email email_ (accounts w) = Some (k, a) ∧ active_code (clock w) a in
  ((resendOtp email_ w).1 = refusal ↔ pending) ∧
  (pending → (resendOtp email_ w).2 = w).
Proof.
  intros refusal pending.
  assert (Hthen : pending → resendOtp email_ w = (refusal, w)).
  { intros (Hup & k & a & Hrow & Hactive). by apply (resendOtp_active email_ w k a). }
  split; [split|].
  - intros Hres. destruct (down w) as [e|] eqn:Hd.
    { rewrite (resendOtp_down _ _ e Hd) in Hres. discriminate Hres. }
    destruct (row_of_email email_ (accounts w)) as [[k a]|] eqn:Hrow.
    2:{ rewrite (resendOtp_missing _ _ Hd Hrow) in Hres. discriminate Hres. }
    destruct (active_code_cases (clock w) a) as [Hactive|Hidle].
    { split; [done|]. by exists k, a. }
    rewrite (resendOtp_run _ _ k a Hd Hrow Hidle) in Hres.
    destruct (mail_failure (code_mail email_)); discriminate Hres.
  - intros Hp. by rewrite (Hthen Hp).
  - intros Hp. by rewrite (Hthen Hp).
Qed.


(** X26. [logout] writes nothing: the update has an empty [data], so
    every user, and the [isLoggedIn] column with it, is as before; the
    call succeeds exactly when the store answers and the user
    exists. *)
Theorem logout_changes_nothing (userId : string) (w : State) :
  (logout userId w).2 = w ∧
  ((logout userId w).1 = Return (Done "Logout successful") ↔
   down w = None ∧ is_Some (accounts w !! userId)).
Proof.
  unfold Auth.logout. destruct (down w) as [e|] eqn:Hd.
  { rewrite (bind_raise _ _ _ _ _ (find_by_id_down _ w e Hd)).
    split; [done|]. split; [done|]. by intros [? _]. }
  rewrite (bind_return _ _ _ _ _ (find_by_id_up userId w Hd)).
  destruct (accounts w !! userId) as [a|] eqn:Hk.
  - rewrite (bind_return _ _ _ _ _ (update_by_id_up userId _ w a Hd Hk)).
    simpl. rewrite insert_id by done. rewrite with_accounts_id.
    split; [done|]. split; [|done]. intros _. split; [done|]. by exists a.
  - split; [done|]. split; [done|]. intros [_ [a Ha]]. discriminate Ha.
Qed.


Lemma verifyOTP_unset (dto : VerifyOTPDto) (w : State) (k : string) (a : Account) :
  down w = None → row_of_email (dto_email dto) (accounts w) = Some (k, a) →
  otp a = None →
  verifyOTP dto w = (Raise (AppError 400 "OTP is not set. Please request a new one."), w).
Proof.
  intros Hup Hrow Hotp. unfold Auth.verifyOTP.
  rewrite (bind_return _ _ _ _ _ (find_by_email_up _ w Hup)), Hrow.
  by rewrite Hotp.
Qed.

Lemma verifyOTP_run (dto : VerifyOTPDto) (w : State) (k : string) (a : Account)
  (code : string) (expires : Z) :
  down w = None → row_of_email (dto_email dto) (accounts w) = Some (k, a) →
  Js.truthy (otp a) = Some code → otpExpiresAt a = Some expires →
  clock w ≤ expires →
  await (utils_compare (dto_otp dto) code) = true →
  verifyOTP dto w =
    (Return (Verified (utils_sanitizedResponse k (set_verified (clock w) a))
               (utils_generateToken k (email a) (role a))
               "OTP code verified successfully"),
     with_accounts (<[k := set_verified (clock w) a]> (accounts w)) w).
Proof.
  intros Hup Hrow Hotp Hexp Hle Hcmp. unfold Auth.verifyOTP.
  rewrite (bind_return _ _ _ _ _ (find_by_email_up _ w Hup)), Hrow.
  rewrite Hotp, Hexp, now_run.
  apply Z.ltb_ge in Hle. rewrite Hle, Hcmp. change (js_not (Plain true)) with false. cbv iota.
  rewrite now_run.
  by rewrite (bind_return _ _ _ _ _
    (update_by_id_up k _ w a Hup (proj1 (row_of_email_Some _ _ _ _ Hrow)))).
Qed.

(** X28. The code that [resendOtp] mails is accepted by [verifyOTP]
    until it expires, and only once: the first call answers with the
    token of the user, now verified and logged in with the code columns
    null, and any later [verifyOTP] for that email, whatever the code,
    throws "OTP is not set". *)
Theorem resend_then_verify (email_ : string) (w : State) (k : string) (a : Account)
  (date date' : Z) (code : string) :
  down w = None →
  email_unique (accounts w) →
  accounts w !! k = Some a →
  email a = email_ →
  ¬ active_code (clock w) a →
  mail_failure (code_mail email_) = None →
  utils_hash otp_text ≠ "" →
  await (utils_compare otp_text (utils_hash otp_text)) = true →
  date ≤ generated_expiry →
  let w1 := later date (resendOtp email_ w).2 in
  let first := verifyOTP {| dto_otp := otp_text; dto_email := email_ |} w1 in
  let verified := set_verified date a in
  first.1 = Return (Verified (utils_sanitizedResponse k verified)
                      (utils_generateToken k email_ (role a))
                      "OTP code verified successfully") ∧
  accounts first.2 = <[k := verified]> (accounts w) ∧
  (verifyOTP {| dto_otp := code; dto_email := email_ |} (later date' first.2)).1 =
    Raise (AppError 400 "OTP is not set. Please request a new one.").
Proof.
  intros Hup Hu Hk He Hidle Hmail Hhash Hcmp Hle w1 first verified.
  pose proof (row_of_email_unique email_ _ k a Hu Hk He) as Hrow.
  set (issued := set_otp (Some (utils_hash otp_text)) (Some generated_expiry) a).
  assert (Hw1 : w1 = later date
            (with_outbox (outbox w ++ [code_mail email_])
               (with_accounts (<[k := issued]> (accounts w)) w))).
  { unfold w1. by rewrite (resendOtp_run _ _ k a Hup Hrow Hidle), Hmail. }
  assert (Hu1 : email_unique (<[k := issued]> (accounts w))).
  { by apply (email_unique_insert _ k a). }
  assert (Hfirst : first =
            (Return (Verified (utils_sanitizedResponse k verified)
                       (utils_generateToken k email_ (role a))
                       "OTP code verified successfully"),
             with_accounts (<[k := verified]> (accounts w)) w1)).
  { unfold first. rewrite <- He.
    erewrite (verifyOTP_run _ w1 k issued (utils_hash otp_text) generated_expiry).
    - rewrite Hw1. simpl. unfold with_accounts. simpl.
      by rewrite insert_insert_eq.
    - by rewrite Hw1.
    - rewrite Hw1. simpl. apply row_of_email_unique; [done| |done].
      apply lookup_insert_eq.
    - simpl. destruct (utils_hash otp_text) eqn:E; [done|]. reflexivity.
    - reflexivity.
    - by rewrite Hw1.
    - exact Hcmp. }
  rewrite Hfirst. simpl. split; [done|]. split; [done|].
  erewrite (verifyOTP_unset _ _ k verified); [done| | |done].
  - by rewrite Hw1.
  - simpl. apply row_of_email_unique; [|apply lookup_insert_eq|done].
    by apply (email_unique_insert _ k a).
Qed.

(** X29. When [utils.compare] answers with a promise, as its awaited
    uses say, [resetPassword] does not look at the code it is given:
    [isMatch] is that promise, never falsy, so the call does the same
    for every code and never throws "Invalid reset token". *)
Theorem resetPassword_ignores_code (dto : ResetPasswordDto) (code : string) (w : State) :
  (∀ plain hashed, ∃ b, utils_compare plain hashed = Promise b) →
  resetPassword {| rp_otp := code; rp_email := rp_email dto;
                   rp_newPassword := rp_newPassword dto |} w
    = resetPassword dto w ∧
  (resetPassword dto w).1 ≠ Raise (AppError 403 "Invalid reset token").
Proof.
  intros Hpromise.
  assert (Hnot : ∀ plain hashed, js_not (utils_compare plain hashed) = false).
  { intros plain hashed. by destruct (Hpromise plain hashed) as [b ->]. }
  unfold Auth.resetPassword. simpl rp_email. simpl rp_newPassword. simpl rp_otp.
  destruct (down w) as [e|] eqn:Hd.
  { rewrite !(bind_raise _ _ _ _ _ (find_by_email_down _ w e Hd)). by split. }
  rewrite !(bind_return _ _ _ _ _ (find_by_email_up _ w Hd)).
  destruct (row_of_email _ _) as [[k a]|] eqn:Hrow; [|by split].
  destruct (Js.truthy (otp a)) as [held|]; [|by split].
  destruct (otpExpiresAt a) as [expires|]; [|by split].
  destruct (bool_decide _); [|by split].
  rewrite !now_run. destruct (expires <? clock w); [by split|].
  rewrite !Hnot. split; [done|].
  rewrite (bind_return _ _ _ _ _ (update_by_email_up _ _ w k a Hd Hrow)).
  unfold mbind, Call_bind, Auth.send.
  by destruct (mail_failure _).
Qed.

(** X30. [forgotPassword] keeps the RESET code it stored whether or not
    its mail went out (unlike [resendOtp], it does not undo the update
    when the mail fails), so until that code expires [resendOtp] for the
    same email is refused with "An active OTP already exists". *)
Theorem forgotPassword_blocks_resendOtp (email_ : string) (w : State)
  (k : string) (a : Account) (date : Z) :
  down w = None →
  email_unique (accounts w) →
  accounts w !! k = Some a →
  email a = email_ →
  utils_hash otp_text ≠ "" →
  date < generated_expiry →
  let w1 := (forgotPassword email_ w).2 in
  accounts w1 =
    <[k := set_otp_typed (Some (utils_hash otp_text)) (Some generated_expiry)
             (Some "RESET") a]> (accounts w) ∧
  (is_return (forgotPassword email_ w).1 = true ↔
   mail_failure (ResetPasswordCodeEmail email_ otp_text) = None) ∧
  resendOtp email_ (later date w1) =
    (Raise (AppError 400 "An active OTP already exists. Please check your inbox."),
     later date w1).
Proof.
  intros Hup Hu Hk He Hhash Hlt w1.
  pose proof (row_of_email_unique email_ _ k a Hu Hk He) as Hrow.
  set (issued := set_otp_typed (Some (utils_hash otp_text)) (Some generated_expiry)
                   (Some "RESET") a).
  assert (Hrun : forgotPassword email_ w =
            match mail_failure (ResetPasswordCodeEmail email_ otp_text) with
            | Some e => (Raise (Error e), with_accounts (<[k := issued]> (accounts w)) w)
            | None =>
                (Return (Done "Password reset email sent"),
                 with_outbox (outbox w ++ [ResetPasswordCodeEmail email_ otp_text])
                   (with_accounts (<[k := issued]> (accounts w)) w))
            end).
  { unfold Auth.forgotPassword.
    rewrite (bind_return _ _ _ _ _ (find_by_email_up _ w Hup)), Hrow.
    rewrite (bind_return _ _ _ _ _ (update_by_email_up _ _ w k a Hup Hrow)).
    unfold mbind, Call_bind, Auth.send.
    by destruct (mail_failure _). }
  assert (Haccounts : accounts w1 = <[k := issued]> (accounts w)).
  { unfold w1. rewrite Hrun. by destruct (mail_failure _). }
  split; [done|]. split.
  { rewrite Hrun. by destruct (mail_failure _). }
  apply (resendOtp_active _ _ k issued).
  - unfold w1. rewrite Hrun. by destruct (mail_failure _).
  - simpl. rewrite Haccounts.
    apply row_of_email_unique; [|apply lookup_insert_eq|done].
    by apply (email_unique_insert _ k a).
  - exists (utils_hash otp_text), generated_expiry. simpl.
    split; [|done]. destruct (utils_hash otp_text) eqn:E; [done|]. reflexivity.
Qed.

End Services.

(** Sample runs. *)

Lemma resend_then_verify_witness :
  let resend :=
    Auth.resendOtp 123456 1300 AuthSamples.hash (string * string) AuthSamples.delivered in
  let verify :=
    Auth.verifyOTP AuthSamples.compare AuthSamples.generateToken (string * string)
      AuthSamples.sanitized in
  let w1 := later 1100 (resend "dana@example.com" AuthSamples.state0).2 in
  let first := verify {| dto_otp := "123456"; dto_email := "dana@example.com" |} w1 in
  first.1 = Return (Verified ("u1", "dana@example.com") "u1:USER"
                      "OTP code verified successfully") ∧
  accounts first.2 =
    <[ "u1" := set_verified 1100 AuthSamples.dana ]> (accounts AuthSamples.state0) ∧
  (verify {| dto_otp := "123456"; dto_email := "dana@example.com" |}
     (later 1200 first.2)).1 =
    Raise (AppError 400 "OTP is not set. Please request a new one.").
Proof.
  apply (resend_then_verify 123456 1300 AuthSamples.hash AuthSamples.compare
           AuthSamples.generateToken (string * string) AuthSamples.sanitized
           AuthSamples.delivered "dana@example.com" AuthSamples.state0 "u1"
           AuthSamples.dana 1100 1200 "123456").
  - reflexivity.
  - apply (bool_decide_unpack _). vm_compute. exact I.
  - reflexivity.
  - reflexivity.
  - intros (code & expires & Hcode & _). discriminate Hcode.
  - reflexivity.
  - discriminate.
  - reflexivity.
  - lia.
Defined.

Lemma resetPassword_ignores_code_witness :
  let reset :=
    Auth.resetPassword AuthSamples.hash AuthSamples.compare (string * string)
      AuthSamples.delivered in
  let dto := {| rp_otp := "4711"; rp_email := "erin@example.com";
                rp_newPassword := "hunter2" |} in
  (∀ plain hashed, ∃ b, AuthSamples.compare plain hashed = Promise b) ∧
  reset {| rp_otp := "0000"; rp_email := "erin@example.com";
           rp_newPassword := "hunter2" |} AuthSamples.state0
    = reset dto AuthSamples.state0 ∧
  (reset dto AuthSamples.state0).1 ≠ Raise (AppError 403 "Invalid reset token").
Proof.
  assert (Hpromise : ∀ plain hashed, ∃ b, AuthSamples.compare plain hashed = Promise b).
  { intros plain hashed. eexists. reflexivity. }
  split; [exact Hpromise|].
  exact (resetPassword_ignores_code AuthSamples.hash AuthSamples.compare
           (string * string) AuthSamples.delivered
           {| rp_otp := "4711"; rp_email := "erin@example.com";
              rp_newPassword := "hunter2" |} "0000" AuthSamples.state0 Hpromise).
Defined.

Lemma forgotPassword_blocks_resendOtp_witness :
  let forgot :=
    Auth.forgotPassword 123456 1300 AuthSamples.hash (string * string)
      AuthSamples.undelivered in
  let resend :=
    Auth.resendOtp 123456 1300 AuthSamples.hash (string * string)
      AuthSamples.undelivered in
  let w1 := (forgot "dana@example.com" AuthSamples.state0).2 in
  accounts w1 =
    <[ "u1" := set_otp_typed (Some "#123456") (Some 1300) (Some "RESET")
                 AuthSamples.dana ]> (accounts AuthSamples.state0) ∧
  (is_return (forgot "dana@example.com" AuthSamples.state0).1 = true ↔
   AuthSamples.undelivered (ResetPasswordCodeEmail "dana@example.com" "123456") = None) ∧
  resend "dana@example.com" (later 1200 w1) =
    (Raise (AppError 400 "An active OTP already exists. Please check your inbox."),
     later 1200 w1).
Proof.
  apply (forgotPassword_blocks_resendOtp 123456 1300 AuthSamples.hash
           (string * string) AuthSamples.undelivered "dana@example.com"
           AuthSamples.state0 "u1" AuthSamples.dana 1200).
  - reflexivity.
  - apply (bool_decide_unpack _). vm_compute. exact I.
  - reflexivity.
  - reflexivity.
  - discriminate.
  - lia.
Defined.

End AccountFacts.
